(** * pcopy server: a shallow embedding of [server.go]

    The development follows the source file top to bottom: constants and
    records, the request authorisation ([authorize], [authorizeHmac],
    [authorizeBasic]), the clipboard directory and the periodic sweep
    ([updateStatsAndExpire], [maybeExpire], [isExpired]), and the two
    clipboard handlers ([handleClipboardGet], [handleClipboardPut]).

    Conventions.
    - Go [string] is [string]; Go [[]byte] is [list byte].
    - Go [int], [int64] and [time.Duration] are [Z]; where the source can
      overflow the wrap-around is written out with [wrap64]; [time.Since]
      saturates and is written with [sat64].
    - Time is in nanoseconds since the Unix epoch; every handler takes the
      reading of the wall clock as an argument.
    - An [error] result is [option error], [None] being Go's [nil]. *)

From Stdlib Require Import ZArith Ascii DecimalString DecimalZ DecimalPos Lia.
From Stdlib.Strings Require Import Byte.
From stdpp Require Import base gmap strings list sorting.

Local Open Scope Z_scope.

(** ** Machine integers and durations *)

Definition int64_min : Z := - 2 ^ 63.
Definition int64_max : Z := 2 ^ 63 - 1.

(** Two's-complement wrap-around of Go's [int64] arithmetic. *)
Definition wrap64 (z : Z) : Z := (z + 2 ^ 63) mod 2 ^ 64 - 2 ^ 63.

(** [time.Time.Sub] saturates at the bounds of [time.Duration]. *)
Definition sat64 (z : Z) : Z := Z.max int64_min (Z.min int64_max z).

Definition Second : Z := 1000000000.
Definition Minute : Z := 60 * Second.

Definition defaultMaxAuthAge : Z := Minute.
Definition visitorCountLimit : Z := 10.
Definition visitorExpungeAfter : Z := 3 * Minute.

(** The seconds from year 1 to 1970, [unixToInternal] in package [time]:
    [time.Unix(sec, 0)] stores [sec + unixToInternal] in an [int64]. *)
Definition unixToInternal : Z := 62135596800.

(** [time.Since(time.Unix(sec, 0))] at wall-clock reading [now]: the
    difference, saturated.  This is what the library computes as long as
    [sec + unixToInternal] fits [int64], that is for [sec] up to
    9223371974719179007.  Beyond that the stored seconds wrap around to
    a time far in the past, whose age is the largest duration.  The expiry
    stamps the server writes are seconds of its own clock and stay below
    that bound; a timestamp a client sends need not. *)
Definition time_Since_Unix (now sec : Z) : Z := sat64 (now - sec * Second).

(** [time.Since(t)] for a time [t] given in nanoseconds. *)
Definition time_Since (now t : Z) : Z := sat64 (now - t).

(** [time.Now().Add(ttl).Unix()]: whole seconds, rounded down. *)
Definition time_Add_Unix (now ttl : Z) : Z := (now + ttl) `div` Second.

(** ** Strings *)

Global Instance byte_eq_dec : EqDecision byte := Byte.byte_eq_dec.

Definition bytes_of (s : string) : list byte := String.list_byte_of_string s.
Definition string_of (b : list byte) : string := String.string_of_list_byte b.

(** [fmt.Sprintf("%d", z)] *)
Definition fmt_d (z : Z) : string := NilZero.string_of_int (Z.to_int z).

(** [strings.HasSuffix] *)
Fixpoint HasSuffix (s suffix : string) : bool :=
  if String.eqb s suffix then true
  else match s with
       | EmptyString => false
       | String _ s' => HasSuffix s' suffix
       end.

(** [strings.Split(s, sep)] for a one-character separator. *)
Fixpoint Split (s : string) (sep : ascii) : list string :=
  match s with
  | EmptyString => [EmptyString]
  | String c s' =>
      if Ascii.eqb c sep then EmptyString :: Split s' sep
      else match Split s' sep with
           | h :: t => String c h :: t
           | [] => [String c EmptyString]
           end
  end.

Definition is_digit (c : ascii) : bool :=
  let n := nat_of_ascii c in (48 <=? n)%nat && (n <=? 57)%nat.

Fixpoint all_chars (p : ascii → bool) (s : string) : bool :=
  match s with
  | EmptyString => true
  | String c s' => p c && all_chars p s'
  end.

Fixpoint digits_value (acc : Z) (s : string) : Z :=
  match s with
  | EmptyString => acc
  | String c s' => digits_value (10 * acc + (Z.of_nat (nat_of_ascii c) - 48)) s'
  end.

Definition parse_digits (s : string) : option Z :=
  match s with
  | EmptyString => None
  | _ => if all_chars is_digit s then Some (digits_value 0 s) else None
  end.

(** [strconv.Atoi] on a 64-bit platform: an optional sign, decimal digits,
    and a range error outside [int64]. *)
Definition Atoi (s : string) : option Z :=
  match s with
  | String "-"%char s' =>
      v ← parse_digits s'; if v <=? 2 ^ 63 then Some (- v) else None
  | String "+"%char s' =>
      v ← parse_digits s'; if v <=? int64_max then Some v else None
  | _ => v ← parse_digits s; if v <=? int64_max then Some v else None
  end.

(** *** The two credential patterns

    [authHmacRegex] is [^HMAC (\d+) (\d+) (.+)$] and [authBasicRegex] is
    [^Basic (\S+)$].  Neither has a choice point: a run of digits ends at
    the first non-digit, which has to be the separating blank, and the last
    group extends to the end of the text.  [FindStringSubmatch] is therefore
    the deterministic scan below; the result holds the groups 1.. of the
    match. *)

Fixpoint strip_prefix (prefix s : string) : option string :=
  match prefix, s with
  | EmptyString, _ => Some s
  | String a p', String b s' => if Ascii.eqb a b then strip_prefix p' s' else None
  | String _ _, EmptyString => None
  end.

Fixpoint span_digits (s : string) : string * string :=
  match s with
  | String c s' =>
      if is_digit c then let '(d, r) := span_digits s' in (String c d, r)
      else (EmptyString, s)
  | EmptyString => (EmptyString, EmptyString)
  end.

(** [.] matches every character but a line feed. *)
Definition re_dot (c : ascii) : bool := negb (Ascii.eqb c "010"%char).

(** [\S] is the complement of [[\t\n\f\r ]]. *)
Definition re_nonspace (c : ascii) : bool :=
  negb (Ascii.eqb c "009" || Ascii.eqb c "010" || Ascii.eqb c "012"
        || Ascii.eqb c "013" || Ascii.eqb c " ")%char.

Definition nonempty (s : string) : bool :=
  match s with EmptyString => false | _ => true end.

Definition authHmacRegex (auth : string) : option (string * string * string) :=
  rest ← strip_prefix "HMAC " auth;
  let '(d1, r1) := span_digits rest in
  match r1 with
  | String " "%char r2 =>
      let '(d2, r3) := span_digits r2 in
      match r3 with
      | String " "%char sig =>
          if nonempty d1 && nonempty d2 && nonempty sig && all_chars re_dot sig
          then Some (d1, d2, sig) else None
      | _ => None
      end
  | _ => None
  end.

Definition authBasicRegex (auth : string) : option string :=
  cred ← strip_prefix "Basic " auth;
  if nonempty cred && all_chars re_nonspace cred then Some cred else None.

(** ** Errors

    [errHTTPNotOK] carries the status code; every other Go error value
    (I/O faults, [errLimitReached], ...) is mapped by [handle] to 500. *)

Inductive error : Type :=
  | errHTTPNotOK (code : Z)
  | errLimitReached
  | errInvalidFileID
  | errEPIPE
  | errIO (what : string)
  | errPanic (what : string).

Global Instance error_eq_dec : EqDecision error.
Proof. solve_decision. Defined.

Definition ErrHTTPPartialContent : error := errHTTPNotOK 206.
Definition ErrHTTPBadRequest : error := errHTTPNotOK 400.
Definition ErrHTTPUnauthorized : error := errHTTPNotOK 401.
Definition ErrHTTPNotFound : error := errHTTPNotOK 404.
Definition ErrHTTPMethodNotAllowed : error := errHTTPNotOK 405.
Definition ErrHTTPPayloadTooLarge : error := errHTTPNotOK 413.
Definition ErrHTTPTooManyRequests : error := errHTTPNotOK 429.

(** The status [handle] reports for a handler's result. *)
Definition status_of (r : option error) : Z :=
  match r with
  | None => 200
  | Some (errHTTPNotOK code) => code
  | Some _ => 500
  end.

(** ** Collaborators outside [server.go]

    The encodings, the keyed hash and the key derivation are library or
    sibling-file functions; the development is parametric in them. *)

Class Crypto := {
  (** [base64.StdEncoding.DecodeString] *)
  base64_DecodeString : string → option (list byte);
  (** [hmac.New(sha256.New, key)] written with [data] and summed. *)
  hmac_sha256 : list byte → list byte → list byte;
  (** [DeriveKey(password, salt).Bytes] *)
  DeriveKey : list byte → list byte → list byte;
}.

(** ** Configuration and requests *)

Record Key := { Bytes : list byte; Salt : list byte }.

Record Config := {
  ConfigKey : option Key;
  ClipboardCountLimit : Z;
  ClipboardSizeLimit : Z;
  FileSizeLimit : Z;
  FileExpireAfter : Z;
  FileModesAllowed : list string;
}.

(** The request body as [io.Copy] sees it: the chunks returned by the
    successive [Read] calls, whether the stream then ends with an error
    instead of [io.EOF], and whether [Close] fails. *)
Record ReadCloser := {
  chunks : list (list byte);
  read_fails : bool;
  close_fails : bool;
}.

Record Request := {
  Method : string;
  URL_Path : string;
  (** [r.URL.Query()]: the decoded key/value pairs in order. *)
  URL_Query : list (string * string);
  (** Header lines under their canonical names. *)
  Header : list (string * string);
  RemoteAddr : string;
  Body : option ReadCloser;
}.

Definition values_of (k : string) (kvs : list (string * string)) : list string :=
  (filter (λ kv, kv.1 = k) kvs).*2.

(** [Header.Get] and [url.Values.Get]: the first value, or the empty string. *)
Definition Get (kvs : list (string * string)) (k : string) : string :=
  default EmptyString (head (values_of k kvs)).

Definition headerStream : string := "X-Stream".
Definition headerFormat : string := "X-Format".
Definition headerFileMode : string := "X-Mode".
Definition headerTTL : string := "X-TTL".
Definition headerURL : string := "X-Url".
Definition headerExpires : string := "X-Expires".
Definition queryParamAuth : string := "a".
Definition queryParamStream : string := "s".
Definition queryParamFormat : string := "f".
Definition queryParamFileMode : string := "m".
Definition queryParamTTL : string := "t".

Definition reservedFiles : list string :=
  ["help"; "version"; "info"; "verify"; "static"; "robots.txt"; "favicon.ico"].

(** ** Authorisation *)

Section Authorisation.
Context `{Crypto}.

(** [subtle.ConstantTimeCompare(x, y) == 1] *)
Definition ConstantTimeCompare (x y : list byte) : bool := bool_decide (x = y).

(** The string the signature is computed over. *)
Definition hmac_data (timestamp ttlSecs : Z) (r : Request) : list byte :=
  bytes_of (fmt_d timestamp +:+ ":" +:+ fmt_d ttlSecs +:+ ":"
            +:+ Method r +:+ ":" +:+ URL_Path r).

Definition authorizeHmac (key : Key) (now : Z) (r : Request)
    (matches : string * string * string) : option error :=
  let '(m1, m2, m3) := matches in
  match Atoi m1 with
  | None => Some ErrHTTPUnauthorized
  | Some timestamp =>
  match Atoi m2 with
  | None => Some ErrHTTPUnauthorized
  | Some ttlSecs =>
  match base64_DecodeString m3 with
  | None => Some ErrHTTPUnauthorized
  | Some hash =>
      let data := hmac_data timestamp ttlSecs r in
      let rehash := hmac_sha256 (Bytes key) data in
      if negb (ConstantTimeCompare hash rehash) then Some ErrHTTPUnauthorized
      else
        let maxAge :=
          if 0 <? ttlSecs then wrap64 (Second * ttlSecs) else defaultMaxAuthAge in
        if (0 <? maxAge) && (maxAge <? time_Since_Unix now timestamp)
        then Some ErrHTTPUnauthorized
        else None
  end end end.

Definition authorizeBasic (key : Key) (matches : string) : option error :=
  match base64_DecodeString matches with
  | None => Some ErrHTTPUnauthorized
  | Some userPassBytes =>
      match Split (string_of userPassBytes) ":" with
      | [_; password] =>
          let derived := DeriveKey (bytes_of password) (Salt key) in
          if negb (ConstantTimeCompare derived (Bytes key))
          then Some ErrHTTPUnauthorized
          else None
      | _ => Some ErrHTTPUnauthorized
      end
  end.

(** The dispatch on the shape of the credential, after the header or its
    query override has been chosen. *)
Definition authorize_value (key : Key) (now : Z) (r : Request) (auth : string)
    : option error :=
  match authHmacRegex auth with
  | Some m => authorizeHmac key now r m
  | None =>
      match authBasicRegex auth with
      | Some m => authorizeBasic key m
      | None => Some ErrHTTPUnauthorized
      end
  end.

Definition authorize (config : Config) (now : Z) (r : Request) : option error :=
  match ConfigKey config with
  | None => None
  | Some key =>
      let auth := Get (Header r) "Authorization" in
      match values_of queryParamAuth (URL_Query r) with
      | encodedQueryAuth :: _ =>
          match base64_DecodeString encodedQueryAuth with
          | None => Some ErrHTTPUnauthorized
          | Some queryAuth => authorize_value key now r (string_of queryAuth)
          end
      | [] => authorize_value key now r auth
      end
  end.

End Authorisation.

(** ** Resource limiter *)

Record limiter := { value : Z; limit : Z }.

(** Modelled from the spec: [newLimiter] and the limiter type are
    declared in a sibling file.  Sections 3 and 4.4: a counter with a
    current value and an optional cap, [0] meaning unlimited. *)
Definition newLimiter (lim : Z) : limiter := {| value := 0; limit := lim |}.

(** Modelled from the spec: [limiter.Add], declared in a sibling file.
    Section 4.4: fails without mutating the counter if a cap is set and
    [value + n] would exceed it, and increments otherwise. *)
Definition Add (l : limiter) (n : Z) : option limiter :=
  if (limit l =? 0) || (value l + n <=? limit l)
  then Some {| value := value l + n; limit := limit l |}
  else None.

(** Modelled from the spec: [limiter.Sub], declared in a sibling file.
    Section 4.4: decrements. *)
Definition Sub (l : limiter) (n : Z) : limiter :=
  {| value := value l - n; limit := limit l |}.

(** Modelled from the spec: [limiter.Set], declared in a sibling file.
    Section 4.4: unconditional overwrite. *)
Definition SetValue (l : limiter) (n : Z) : limiter :=
  {| value := n; limit := limit l |}.

(** Modelled from the spec: the limiting writer returned by
    [newLimitWriter] is declared in a sibling file.  Section 4.5, step 7: a
    write of [n] bytes is charged, in order, to the per-upload limiter and
    to the global size limiter; a breach reports [errLimitReached] and
    charges nothing. *)
Definition limitWriter_charge (fileSizeLimiter sizeLimiter : limiter) (n : Z)
    : option (limiter * limiter) :=
  fl ← Add fileSizeLimiter n; sl ← Add sizeLimiter n; Some (fl, sl).

(** ** The clipboard directory

    The model keeps the one directory the server works in, keyed by entry
    name: the path [ClipboardDir/name] is represented by [name].  An entry
    is a regular file or a named pipe.  A pipe remembers the upload whose
    handler is suspended in [os.OpenFile] on it, waiting for a reader. *)

Record metaFile := { Mode : string; Expires : Z }.

Record httpResponsePut := { URL : string; ResponseExpires : Z }.

Inductive node : Type :=
  | Regular (content : list byte) (modTime : Z)
  | Fifo (writer : option ReadCloser) (modTime : Z).

Record FileInfo := { Name : string; Size : Z; ModTime : Z; IsNamedPipe : bool }.

Definition stat_of (name : string) (n : node) : FileInfo :=
  match n with
  | Regular content t =>
      {| Name := name; Size := Z.of_nat (length content); ModTime := t;
         IsNamedPipe := false |}
  | Fifo _ t => {| Name := name; Size := 0; ModTime := t; IsNamedPipe := true |}
  end.

Definition entry_le (a b : string * node) : Prop := String.le a.1 b.1.

Global Instance entry_le_dec : RelDecision entry_le.
Proof. intros a b. unfold entry_le. apply _. Defined.

(** [ioutil.ReadDir]: the entries sorted by file name. *)
Definition ReadDir (disk : gmap string node) : list FileInfo :=
  (λ e, stat_of e.1 e.2) <$> merge_sort entry_le (map_to_list disk).

(** [os.Remove]: fails when there is nothing to remove. *)
Definition os_Remove (name : string) (disk : gmap string node)
    : option (gmap string node) :=
  match disk !! name with
  | Some _ => Some (delete name disk)
  | None => None
  end.

Class Services := {
  (** The constant [modeReadOnly], declared in a sibling file. *)
  modeReadOnly : string;
  (** [parseDuration], declared in a sibling file. *)
  parseDuration : string → option Z;
  (** [Config.GenerateClipURL], declared in a sibling file. *)
  GenerateClipURL : Config → string → Z → option string;
  (** [json.NewEncoder(..).Encode] and [json.NewDecoder(..).Decode] at
      [metaFile], and the encoder at [httpResponsePut]. *)
  json_Encode_metaFile : metaFile → list byte;
  json_Decode_metaFile : list byte → option metaFile;
  json_Encode_httpResponsePut : httpResponsePut → list byte;
  (** [net.SplitHostPort], the host part. *)
  SplitHostPort : string → option string;
  (** What is encoded decodes to itself (for [encoding/json]: at every
      mode that is valid UTF-8). *)
  json_metaFile_roundtrip :
    ∀ m, json_Decode_metaFile (json_Encode_metaFile m) = Some m;
}.

(** ** Server state *)

Record visitor := { visitorCountLimiter : limiter; lastSeen : Z }.

(** The mutable state a handler works on: the server's two global
    limiters and visitor map, the clipboard directory, and the
    [http.ResponseWriter] of the request being handled. *)
Record machine := {
  countLimiter : limiter;
  sizeLimiter : limiter;
  visitors : gmap string visitor;
  disk : gmap string node;
  w_header : list (string * string);
  w_body : list byte;
}.

Definition set_countLimiter (f : limiter → limiter) (m : machine) : machine :=
  {| countLimiter := f (countLimiter m); sizeLimiter := sizeLimiter m;
     visitors := visitors m; disk := disk m;
     w_header := w_header m; w_body := w_body m |}.

Definition set_sizeLimiter (f : limiter → limiter) (m : machine) : machine :=
  {| countLimiter := countLimiter m; sizeLimiter := f (sizeLimiter m);
     visitors := visitors m; disk := disk m;
     w_header := w_header m; w_body := w_body m |}.

Definition set_visitors (f : gmap string visitor → gmap string visitor)
    (m : machine) : machine :=
  {| countLimiter := countLimiter m; sizeLimiter := sizeLimiter m;
     visitors := f (visitors m); disk := disk m;
     w_header := w_header m; w_body := w_body m |}.

Definition set_disk (f : gmap string node → gmap string node) (m : machine)
    : machine :=
  {| countLimiter := countLimiter m; sizeLimiter := sizeLimiter m;
     visitors := visitors m; disk := f (disk m);
     w_header := w_header m; w_body := w_body m |}.

Definition set_w_header (f : list (string * string) → list (string * string))
    (m : machine) : machine :=
  {| countLimiter := countLimiter m; sizeLimiter := sizeLimiter m;
     visitors := visitors m; disk := disk m;
     w_header := f (w_header m); w_body := w_body m |}.

Definition set_w_body (f : list byte → list byte) (m : machine) : machine :=
  {| countLimiter := countLimiter m; sizeLimiter := sizeLimiter m;
     visitors := visitors m; disk := disk m;
     w_header := w_header m; w_body := f (w_body m) |}.

(** [newServer] on an existing clipboard directory, with a fresh
    response writer. *)
Definition newServer (config : Config) (dir : gmap string node) : machine :=
  {| countLimiter := newLimiter (ClipboardCountLimit config);
     sizeLimiter := newLimiter (ClipboardSizeLimit config);
     visitors := ∅; disk := dir; w_header := []; w_body := [] |}.

(** A handler starts on a fresh [http.ResponseWriter]. *)
Definition fresh_response (m : machine) : machine :=
  set_w_body (λ _, []) (set_w_header (λ _, []) m).

(** What the environment decides during one handler run: the readings of
    the wall clock and which system calls fail. *)
Record Env := {
  (** [time.Now()] while the request is handled. *)
  now : Z;
  (** [time.Now()] when the deferred sweep runs. *)
  now_done : Z;
  mkfifo_fails : bool;
  open_meta_fails : bool;
  open_file_fails : bool;
  (** Writes to the response writer fail: the client has gone. *)
  client_gone : bool;
  readdir_fails : bool;
}.

(** ** The handler monad: state, errors, and blocking *)

Inductive outcome (A : Type) : Type :=
  | Done (a : A)
  | Fail (e : error)
  | Blocked.
Global Arguments Done {A} a.
Global Arguments Fail {A} e.
Global Arguments Blocked {A}.

Definition M (A : Type) : Type := machine → outcome A * machine.

Global Instance M_ret : MRet M := λ A a m, (Done a, m).

Global Instance M_bind : MBind M := λ A B k c m,
  match c m with
  | (Done a, m') => k a m'
  | (Fail e, m') => (Fail e, m')
  | (Blocked, m') => (Blocked, m')
  end.

Definition throw {A} (e : error) : M A := λ m, (Fail e, m).
Definition block {A} : M A := λ m, (Blocked, m).
Definition gets {A} (f : machine → A) : M A := λ m, (Done (f m), m).
Definition modify (f : machine → machine) : M unit := λ m, (Done (), f m).

(** [defer d] around [body]: [d] runs when [body] returns, with or
    without an error; it does not run while [body] is blocked. *)
Definition with_defer {A} (d : machine → machine) (body : M A) : M A := λ m,
  match body m with
  | (Blocked, m') => (Blocked, m')
  | (o, m') => (o, d m')
  end.

(** [if err := c; err != nil { cleanup; return err }] *)
Definition on_error {A} (cleanup : machine → machine) (c : M A) : M A := λ m,
  match c m with
  | (Fail err, m') => (Fail err, cleanup m')
  | om => om
  end.

Definition lift_err {A} (r : error + A) : M A :=
  match r with
  | inl e => throw e
  | inr a => mret a
  end.

(** ** Request parsing *)

Definition isStream (r : Request) : bool :=
  bool_decide (Get (Header r) headerStream = "yes")
  || bool_decide (Get (URL_Query r) queryParamStream = "1").

Definition outputFormat (r : Request) : string :=
  if bool_decide (Get (Header r) headerFormat = "json")
     || bool_decide (Get (URL_Query r) queryParamFormat = "json")
  then "json" else "text".

(** The file and its metadata file, as names inside the clipboard
    directory. *)
Definition getClipboardFile (id : string) : error + (string * string) :=
  if bool_decide (id ∈ reservedFiles) then inl errInvalidFileID
  else inr (id, id +:+ ":meta").

Definition getFileMode (config : Config) (r : Request) : error + string :=
  match FileModesAllowed config with
  | [] => inl (errPanic "index out of range")
  | first :: _ =>
      let mode :=
        if nonempty (Get (Header r) headerFileMode)
        then Get (Header r) headerFileMode
        else if nonempty (Get (URL_Query r) queryParamFileMode)
        then Get (URL_Query r) queryParamFileMode
        else first in
      if bool_decide (mode ∈ FileModesAllowed config) then inr mode
      else inl ErrHTTPBadRequest
  end.

(** The route pattern [(?i)([a-z0-9][-_.a-z0-9]{1,100})] an identifier has
    matched before a clipboard handler sees it. *)
Definition is_alnum (c : ascii) : bool :=
  let n := nat_of_ascii c in
  ((48 <=? n) && (n <=? 57) || (65 <=? n) && (n <=? 90)
   || (97 <=? n) && (n <=? 122))%nat.

Definition is_id_char (c : ascii) : bool :=
  is_alnum c || Ascii.eqb c "-" || Ascii.eqb c "_" || Ascii.eqb c ".".

Definition permitted_id (id : string) : bool :=
  match id with
  | String c rest =>
      is_alnum c && all_chars is_id_char rest
      && (1 <=? String.length rest)%nat && (String.length rest <=? 100)%nat
  | EmptyString => false
  end.

(** ** The sweep and the handlers *)

Section Server.
Context `{Services}.

Definition getTTL (config : Config) (r : Request) : error + Z :=
  let parsed :=
    if nonempty (Get (URL_Query r) queryParamTTL)
    then parseDuration (Get (URL_Query r) queryParamTTL)
    else if nonempty (Get (Header r) headerTTL)
    then parseDuration (Get (Header r) headerTTL)
    else if 0 <? FileExpireAfter config then Some (FileExpireAfter config)
    else Some 0 in
  match parsed with
  | None => inl ErrHTTPBadRequest
  | Some ttl =>
      if (0 <? FileExpireAfter config) && (FileExpireAfter config <? ttl)
      then inr (FileExpireAfter config)
      else inr ttl
  end.

(** [readMetaFile]; [None] is any error.  Metadata files are regular
    files: no identifier contains a colon, so no pipe is ever made under
    a metadata name. *)
Definition readMetaFile (d : gmap string node) (metafile : string)
    : option metaFile :=
  match d !! metafile with
  | Some (Regular content _) => json_Decode_metaFile content
  | _ => None
  end.

Definition isExpired (config : Config) (now : Z) (d : gmap string node)
    (info : FileInfo) (metafile : string) : bool :=
  match readMetaFile d metafile with
  | Some mf =>
      if 0 <? Expires mf then 0 <? time_Since_Unix now (Expires mf) else false
  | None =>
      if (FileExpireAfter config =? 0)
         || (time_Since now (ModTime info) <=? FileExpireAfter config)
      then false else true
  end.

(** [maybeExpire] deletes a file if it has expired and returns true if it
    did. *)
Definition maybeExpire (config : Config) (now : Z) (info : FileInfo)
    (d : gmap string node) : bool * gmap string node :=
  let file := Name info in
  let metafile := file +:+ ":meta" in
  if negb (isExpired config now d info metafile) then (false, d)
  else match os_Remove file d with
       | None => (false, d)
       | Some d1 =>
           match os_Remove metafile d1 with
           | None => (false, d1)
           | Some d2 => (true, d2)
           end
       end.

(** The body of the loop over the directory listing: the directory, the
    number of files and their total size so far.  [numFiles] cannot
    overflow, a listing being shorter than [2^63]; [totalSize] wraps. *)
Definition sweep_step (config : Config) (now : Z)
    (acc : gmap string node * Z * Z) (f : FileInfo) : gmap string node * Z * Z :=
  let '(d, numFiles, totalSize) := acc in
  if HasSuffix (Name f) ":meta" then acc
  else
    let '(expired, d') := maybeExpire config now f d in
    if negb expired then (d', numFiles + 1, wrap64 (totalSize + Size f))
    else (d', numFiles, totalSize).

Definition visitor_idle (now : Z) (kv : string * visitor) : Prop :=
  visitorExpungeAfter < time_Since now (lastSeen kv.2).

Global Instance visitor_idle_dec now kv : Decision (visitor_idle now kv).
Proof. unfold visitor_idle. apply _. Defined.

Definition updateStatsAndExpire (config : Config) (now : Z)
    (readdir_err : bool) (m : machine) : machine :=
  let m1 := set_visitors (filter (λ kv, ¬ visitor_idle now kv)) m in
  if readdir_err then m1
  else
    let files := ReadDir (disk m1) in
    let '(d, numFiles, totalSize) :=
      foldl (sweep_step config now) (disk m1, 0, 0) files in
    set_sizeLimiter (λ l, SetValue l totalSize)
      (set_countLimiter (λ l, SetValue l numFiles)
         (set_disk (λ _, d) m1)).

(** [getVisitor] returns the key of the visitor in the map: the source's
    pointer into it. *)
Definition visitor_key (r : Request) : string :=
  default (RemoteAddr r) (SplitHostPort (RemoteAddr r)).

Definition getVisitor (e : Env) (r : Request) : M string := λ m,
  let ip := visitor_key r in
  match visitors m !! ip with
  | None =>
      (Done ip,
       set_visitors
         (insert ip {| visitorCountLimiter := newLimiter visitorCountLimit;
                       lastSeen := now e |}) m)
  | Some v =>
      (Done ip,
       set_visitors
         (insert ip {| visitorCountLimiter := visitorCountLimiter v;
                       lastSeen := now e |}) m)
  end.

(** [v.countLimiter.Add(n)] on the visitor [getVisitor] returned. *)
Definition visitor_Add (ip : string) (n : Z) : M unit := λ m,
  match visitors m !! ip with
  | None => (Fail (errPanic "nil visitor"), m)
  | Some v =>
      match Add (visitorCountLimiter v) n with
      | None => (Fail ErrHTTPTooManyRequests, m)
      | Some l =>
          (Done (),
           set_visitors
             (insert ip {| visitorCountLimiter := l; lastSeen := lastSeen v |}) m)
      end
  end.

(** [s.countLimiter.Add(n)] *)
Definition count_Add (n : Z) : M unit := λ m,
  match Add (countLimiter m) n with
  | None => (Fail ErrHTTPTooManyRequests, m)
  | Some l => (Done (), set_countLimiter (λ _, l) m)
  end.

(** [w.Header().Set] *)
Definition Header_Set (k v : string) : M unit :=
  modify (set_w_header (λ h, (k, v) :: filter (λ kv, kv.1 ≠ k) h)).

(** [w.Write] *)
Definition w_Write (e : Env) (p : list byte) : M unit := λ m,
  if client_gone e then (Fail (errIO "write"), m)
  else (Done (), set_w_body (λ b, b ++ p) m).

(** [w.Write] whose error the caller drops. *)
Definition w_Write_ (e : Env) (p : list byte) : M unit := λ m,
  if client_gone e then (Done (), m)
  else (Done (), set_w_body (λ b, b ++ p) m).

Fixpoint repeat_M (n : nat) (c : M unit) : M unit :=
  match n with
  | O => mret ()
  | S n' => c ;; repeat_M n' c
  end.

Definition writePutOutput (config : Config) (e : Env) (id : string)
    (expires ttl : Z) (format : string) : M unit :=
  match GenerateClipURL config id ttl with
  | None => throw (errIO "GenerateClipURL")
  | Some url =>
      Header_Set "Content-Type" "application/octet-stream" ;;
      Header_Set headerURL url ;;
      Header_Set headerExpires (fmt_d expires) ;;
      (if bool_decide (format = "json")
       then w_Write e (json_Encode_httpResponsePut
                         {| URL := url; ResponseExpires := expires |})
       else w_Write e (bytes_of (url +:+ String "010" EmptyString))) ;;
      repeat_M 100 (w_Write_ e (bytes_of (String.append "hi there"
                                            (String "010" EmptyString))))
  end.

(** [io.Copy(limitWriter, r.Body)]: every non-empty chunk is charged to
    the two limiters and then written.  [sink] is the number of writes
    the destination still takes before it reports a broken pipe, [None]
    for a destination that takes them all.  The result is what was
    written, the global size limiter, and the error. *)
Fixpoint io_Copy (sink : option nat) (fileSizeLimiter sl : limiter)
    (written : list byte) (cs : list (list byte)) (read_err : bool)
    : list byte * limiter * option error :=
  match cs with
  | [] => (written, sl, if read_err then Some (errIO "read") else None)
  | c :: cs' =>
      match c with
      | [] => io_Copy sink fileSizeLimiter sl written cs' read_err
      | _ =>
          match limitWriter_charge fileSizeLimiter sl (Z.of_nat (length c)) with
          | None => (written, sl, Some errLimitReached)
          | Some (fl', sl') =>
              match sink with
              | Some O => (written, sl', Some errEPIPE)
              | Some (S k) => io_Copy (Some k) fl' sl' (written ++ c) cs' read_err
              | None => io_Copy None fl' sl' (written ++ c) cs' read_err
              end
          end
      end
  end.

(** The handler from the deferred sweep on (lines 452-487): the copy of
    the body, its error mapping, and for a plain upload the response.
    [pipe] is [None] when the destination is a regular file and the
    capacity of the pipe otherwise. *)
Definition put_copy (config : Config) (e : Env) (stream : bool) (id file : string)
    (body : ReadCloser) (expires ttl : Z) (format : string)
    (pipe : option (option nat)) : M unit :=
  with_defer (updateStatsAndExpire config (now_done e) (readdir_fails e))
    (sl ← gets sizeLimiter;
     let '(written, sl', err) :=
       io_Copy (default None pipe) (newLimiter (FileSizeLimit config)) sl []
         (chunks body) (read_fails body) in
     modify (set_sizeLimiter (λ _, sl')) ;;
     match pipe with
     | Some _ => mret ()
     | None => modify (set_disk (insert file (Regular written (now e))))
     end ;;
     match err with
     | Some err =>
         modify (set_disk (delete file)) ;;
         match err with
         | errEPIPE => throw ErrHTTPPartialContent
         | errLimitReached => throw ErrHTTPPayloadTooLarge
         | _ => throw err
         end
     | None =>
         if close_fails body
         then modify (set_disk (delete file)) ;; throw (errIO "close")
         else if negb stream
         then on_error (set_disk (delete file))
                (writePutOutput config e id expires ttl format)
         else mret ()
     end).

(** [os.OpenFile(file, O_CREATE|O_WRONLY|O_TRUNC)].  On a pipe the call
    blocks until a reader opens the other end: the upload is parked in
    the pipe.  Otherwise the file is created or truncated. *)
Definition open_destination (e : Env) (file : string) (body : ReadCloser)
    : M unit := λ m,
  if open_file_fails e
  then (Fail (errIO "open"), set_countLimiter (λ l, Sub l 1) m)
  else match disk m !! file with
       | Some (Fifo _ t) =>
           (Blocked, set_disk (insert file (Fifo (Some body) t)) m)
       | _ => (Done (), set_disk (insert file (Regular [] (now e))) m)
       end.

(** Lines 369-395: the count check of a write, on the global limiter for
    a new entry and on the visitor's limiter for an existing one. *)
Definition put_charge (e : Env) (r : Request) (file metafile : string) : M unit :=
  stat ← gets (λ m, disk m !! file) ;
  match stat with
  | None => count_Add 1
  | Some _ =>
      v ← getVisitor e r ;
      visitor_Add v 1 ;;
      d ← gets disk ;
      match readMetaFile d metafile with
      | None => throw (errIO "readMetaFile")
      | Some mf =>
          if bool_decide (Mode mf = modeReadOnly)
          then throw ErrHTTPMethodNotAllowed else mret ()
      end
  end.

(** Lines 356-450: everything up to the open destination.  The result
    is what the rest of the handler uses. *)
Definition put_setup (config : Config) (e : Env) (r : Request) (id : string)
    : M (string * ReadCloser * Z * Z * string) :=
  match getClipboardFile id with
  | inl _ => throw ErrHTTPBadRequest
  | inr (file, metafile) =>
  match Body r with
  | None => throw ErrHTTPBadRequest
  | Some body =>
      put_charge e r file metafile ;;
      modify (set_disk (delete file)) ;;
      modify (set_disk (delete metafile)) ;;
      mode ← lift_err (getFileMode config r) ;
      ttl ← lift_err (getTTL config r) ;
      let expires := if 0 <? ttl then time_Add_Unix (now e) ttl else 0 in
      (if open_meta_fails e then throw (errIO "open meta")
       else modify (set_disk (insert metafile
              (Regular (json_Encode_metaFile {| Mode := mode; Expires := expires |})
                       (now e))))) ;;
      let format := outputFormat r in
      (if isStream r then
         (if mkfifo_fails e
          then modify (set_countLimiter (λ l, Sub l 1)) ;; throw (errIO "mkfifo")
          else modify (set_disk (insert file (Fifo None (now e))))) ;;
         on_error (set_countLimiter (λ l, Sub l 1))
           (writePutOutput config e id expires ttl format)
       else mret ()) ;;
      open_destination e file body ;;
      mret (file, body, expires, ttl, format)
  end end.

Definition handleClipboardPut (config : Config) (e : Env) (r : Request)
    (id : string) : M unit :=
  '(file, body, expires, ttl, format) ← put_setup config e r id ;
  put_copy config e (isStream r) id file body expires ttl format None.

(** [handleClipboardPutRandom]: the identifier is [randomFileID()]. *)
Definition handleClipboardPutRandom (config : Config) (e : Env) (r : Request)
    (randomFileID : string) : M unit :=
  handleClipboardPut config e r randomFileID.

(** *** Streaming

    A named pipe is a rendezvous.  [os.OpenFile] for writing returns when a
    reader has opened the pipe, and the reader's [io.Copy] ends when the
    writer has closed it, which the upload handler does in a deferred call
    that runs after its deferred sweep.  From the moment a reader opens the
    pipe the order of the effects on the shared state is therefore fixed:
    the writer's copy and error handling, the writer's sweep, and then the
    reader's [os.Remove].  The model runs a streaming upload in two stages.
    [handleClipboardPut] ends [Blocked] in [open_destination], the upload
    parked in the pipe; [handleClipboardGet] on that pipe resumes it.

    [resume_writer] is the parked handler from the deferred sweep on,
    writing into the pipe.  Being a streaming upload it writes nothing to
    its response any more, so the identifier, expiry and format it is
    given here are not used; the result is the error that handler
    returns.  The clock and the directory read of its sweep are those of
    the environment of the read. *)
Definition resume_writer (config : Config) (e : Env) (file : string)
    (body : ReadCloser) (sink : option nat) : M (option error) := λ m,
  match put_copy config e true file file body 0 0 "text" (Some sink) m with
  | (Fail err, m') => (Done (Some err), m')
  | (_, m') => (Done None, m')
  end.

(** [handleClipboardGet].  On a pipe nobody writes to, [os.Open] blocks.
    On a pipe with a parked upload the reader relays what the writer gets
    through the limiting writer; when the client of the read has gone the
    reader gives up on the first chunk and the writer's next write finds
    the pipe broken. *)
Definition handleClipboardGet (config : Config) (e : Env) (id : string) : M unit :=
  match getClipboardFile id with
  | inl _ => throw ErrHTTPBadRequest
  | inr (file, _) =>
      stat ← gets (λ m, disk m !! file) ;
      match stat with
      | None => throw ErrHTTPNotFound
      | Some (Regular content _) =>
          Header_Set "Length" (fmt_d (Z.of_nat (length content))) ;;
          match content with
          | [] => mret ()
          | _ => w_Write e content
          end
      | Some (Fifo None _) => block
      | Some (Fifo (Some body) t) =>
          modify (set_disk (insert file (Fifo None t))) ;;
          sl ← gets sizeLimiter ;
          let sink := if client_gone e then Some 1%nat else None in
          let '(piped, _, _) :=
            io_Copy sink (newLimiter (FileSizeLimit config)) sl []
              (chunks body) (read_fails body) in
          resume_writer config e file body sink ;;
          match piped with
          | [] => mret ()
          | _ => w_Write e piped
          end ;;
          modify (set_disk (delete file))
      end
  end.

End Server.

(** ** Middleware *)

Section Middleware.
Context `{Crypto}.

(** [auth]: the wrapped handler runs for an authorised request only.  The
    other wrapper, [limit], asks the visitor's token bucket and is not
    part of the model. *)
Definition auth (config : Config) (now : Z) (r : Request) (next : M unit)
    : M unit :=
  match authorize config now r with
  | Some err => throw err
  | None => next
  end.

End Middleware.

(** ** Vocabulary of the statements *)

(** The request with its header lines replaced. *)
Definition set_Header (h : list (string * string)) (r : Request) : Request :=
  {| Method := Method r; URL_Path := URL_Path r; URL_Query := URL_Query r;
     Header := h; RemoteAddr := RemoteAddr r; Body := Body r |}.

Definition no_colon (c : ascii) : bool := negb (Ascii.eqb c ":").

(** The number of occurrences of a character. *)
Fixpoint count_char (sep : ascii) (s : string) : nat :=
  match s with
  | EmptyString => 0
  | String c s' => (if Ascii.eqb c sep then 1 else 0) + count_char sep s'
  end.

(** The replay window of a signed request, in nanoseconds. *)
Definition auth_window (ttlSecs : Z) : Z :=
  if 0 <? ttlSecs then ttlSecs * Second else defaultMaxAuthAge.

(** The line the text response ends with, a hundred times. *)
Definition hi_there : list byte :=
  bytes_of (String.append "hi there" (String "010" EmptyString)).

Definition hi_there_padding : list byte := mjoin (replicate 100 hi_there).

(** The bytes of a request body. *)
Definition body_bytes (b : ReadCloser) : list byte := mjoin (chunks b).

Definition body_length (b : ReadCloser) : Z := Z.of_nat (length (body_bytes b)).

(** A body, not empty, that breaches the per-upload cap, or the global
    size cap given the global size limiter [sl]. *)
Definition exceeds_caps (config : Config) (sl : limiter) (b : ReadCloser) : Prop :=
  0 < body_length b
  ∧ ((0 < FileSizeLimit config ∧ FileSizeLimit config < body_length b)
     ∨ (0 < limit sl ∧ limit sl < value sl + body_length b)).

Definition is_meta (name : string) : bool := HasSuffix name ":meta".

(** The number of entries of the directory that are not metadata
    side-files. *)
Definition content_count (d : gmap string node) : Z :=
  Z.of_nat (length (filter (λ kv, is_meta kv.1 = false) (map_to_list d))).

(** An expiry stamp that has not passed at time [t]. *)
Definition unexpired (t expires : Z) : Prop :=
  expires ≤ 0 ∨ t ≤ expires * Second.

(** The parts of the machine a response writer does not touch. *)
Definition same_server (m m' : machine) : Prop :=
  countLimiter m' = countLimiter m ∧ sizeLimiter m' = sizeLimiter m
  ∧ visitors m' = visitors m ∧ disk m' = disk m.

(** A computation that only writes to the response. *)
Definition writes_only {A} (c : M A) : Prop :=
  ∀ m o m', c m = (o, m') → same_server m m' ∧ o ≠ Blocked.

(** The put-count of a visitor. *)
Definition visitor_count (m : machine) (ip : string) : option Z :=
  (λ v, value (visitorCountLimiter v)) <$> visitors m !! ip.

(** One upload: what the environment decides, the request, and the
    identifier the route matched. *)
Record upload := { up_env : Env; up_request : Request; up_id : string }.

Inductive step : Type :=
  | Upload (u : upload)
  | Sweep (t : Z) (readdir_err : bool).

(** The expiry stamp written for a time to live. *)
Definition expires_at (e : Env) (ttl : Z) : Z :=
  if 0 <? ttl then time_Add_Unix (now e) ttl else 0.

Section Runs.
Context `{Services}.

(** The expiry stamp [handleClipboardPut] writes for a request. *)
Definition expiry_of (config : Config) (e : Env) (r : Request) : Z :=
  match getTTL config r with
  | inr ttl => expires_at e ttl
  | inl _ => 0
  end.

(** A directory in which every entry that is not a metadata side-file has
    readable metadata whose expiry stamp has not passed at time [T]. *)
Definition live_dir (T : Z) (d : gmap string node) : Prop :=
  ∀ name n, d !! name = Some n → is_meta name = false →
    ∃ mf, readMetaFile d (name +:+ ":meta") = Some mf ∧ unexpired T (Expires mf).

(** Sweeps of the janitor, each at its time and with the outcome of its
    directory read. *)
Definition janitor (config : Config) (ts : list (Z * bool)) (m : machine)
    : machine :=
  foldl (λ m tb, updateStatsAndExpire config tb.1 tb.2 m) m ts.

(** A run of the server: uploads, each on a fresh response writer and each
    returning [nil], and sweeps of the janitor in between.  The result
    counts the uploads that found their entry absent. *)
Fixpoint run (config : Config) (steps : list step) (m : machine)
    : option (Z * machine) :=
  match steps with
  | [] => Some (0, m)
  | Upload u :: rest =>
      match handleClipboardPut config (up_env u) (up_request u) (up_id u)
              (fresh_response m) with
      | (Done _, m1) =>
          '(k, m2) ← run config rest m1;
          Some ((if disk m !! up_id u is None then 1 else 0) + k, m2)
      | _ => None
      end
  | Sweep t readdir_err :: rest =>
      run config rest (updateStatsAndExpire config t readdir_err m)
  end.

(** A step of a run in which nothing expires before time [T]: an upload
    whose identifier the router admits, whose sweep runs by [T] and whose
    entry has not expired at [T]; a sweep that runs by [T]. *)
Definition admissible (config : Config) (T : Z) (s : step) : Prop :=
  match s with
  | Upload u =>
      permitted_id (up_id u) = true
      ∧ now_done (up_env u) ≤ T
      ∧ unexpired T (expiry_of config (up_env u) (up_request u))
  | Sweep t _ => t ≤ T
  end.

(** A server whose global count limiter holds the number of entries of a
    directory of live entries, under the configured cap. *)
Definition tracked (config : Config) (T : Z) (m : machine) : Prop :=
  live_dir T (disk m)
  ∧ value (countLimiter m) = content_count (disk m)
  ∧ limit (countLimiter m) = ClipboardCountLimit config.

End Runs.

(** ** Reference collaborators

    Concrete collaborators on which the model can be run: the standard
    base64 alphabet with padding, a keyed function and a key derivation
    that merely concatenate, durations in whole seconds, and a metadata
    encoding [<expires> <mode>]. *)

Definition b64_index (c : ascii) : option Z :=
  let n := Z.of_nat (nat_of_ascii c) in
  if (65 <=? n) && (n <=? 90) then Some (n - 65)
  else if (97 <=? n) && (n <=? 122) then Some (n - 71)
  else if (48 <=? n) && (n <=? 57) then Some (n + 4)
  else if n =? 43 then Some 62
  else if n =? 47 then Some 63
  else None.

Definition byte_of_Z (z : Z) : byte :=
  default x00 (Byte.of_N (Z.to_N (z mod 256))).

Fixpoint b64_decode (s : string) : option (list byte) :=
  match s with
  | EmptyString => Some []
  | String a (String b (String c (String d rest))) =>
      match b64_index a, b64_index b with
      | Some x, Some y =>
          let b1 := byte_of_Z (x * 4 + y `div` 16) in
          if Ascii.eqb c "=" && Ascii.eqb d "=" && negb (nonempty rest)
          then Some [b1]
          else match b64_index c with
               | Some z =>
                   let b2 := byte_of_Z (y * 16 + z `div` 4) in
                   if Ascii.eqb d "=" && negb (nonempty rest)
                   then Some [b1; b2]
                   else match b64_index d with
                        | Some w =>
                            tl ← b64_decode rest;
                            Some (b1 :: b2 :: byte_of_Z (z * 64 + w) :: tl)
                        | None => None
                        end
               | None => None
               end
      | _, _ => None
      end
  | _ => None
  end.

Global Instance example_Crypto : Crypto := {|
  base64_DecodeString := b64_decode;
  hmac_sha256 key data := key ++ data;
  DeriveKey password salt := salt ++ password;
|}.

Fixpoint span_until (sep : ascii) (s : string) : string * option string :=
  match s with
  | EmptyString => (EmptyString, None)
  | String c s' =>
      if Ascii.eqb c sep then (EmptyString, Some s')
      else let '(a, b) := span_until sep s' in (String c a, b)
  end.

Definition example_Encode_metaFile (m : metaFile) : list byte :=
  bytes_of (fmt_d (Expires m) +:+ " " +:+ Mode m).

Definition example_Decode_metaFile (b : list byte) : option metaFile :=
  match span_until " " (string_of b) with
  | (num, Some mode) =>
      i ← NilZero.int_of_string num;
      Some {| Mode := mode; Expires := Z.of_int i |}
  | _ => None
  end.

Definition example_parseDuration (s : string) : option Z :=
  v ← parse_digits s; Some (v * Second).

Definition example_GenerateClipURL (config : Config) (id : string) (ttl : Z)
    : option string :=
  Some ("https://pcopy.example/" +:+ id).

Definition dquote : string := String "034" EmptyString.

Definition example_Encode_httpResponsePut (p : httpResponsePut) : list byte :=
  bytes_of ("{" +:+ dquote +:+ "url" +:+ dquote +:+ ":" +:+ dquote +:+ URL p
            +:+ dquote +:+ "," +:+ dquote +:+ "expires" +:+ dquote +:+ ":"
            +:+ fmt_d (ResponseExpires p) +:+ "}" +:+ String "010" EmptyString).

(** The host part of [host:port]: everything before the last colon. *)
Fixpoint example_SplitHostPort (addr : string) : option string :=
  match addr with
  | EmptyString => None
  | String c rest =>
      match example_SplitHostPort rest with
      | Some host => Some (String c host)
      | None => if Ascii.eqb c ":" then Some EmptyString else None
      end
  end.

Global Instance example_Services : Services.
Proof.
  refine {| modeReadOnly := "ro";
            parseDuration := example_parseDuration;
            GenerateClipURL := example_GenerateClipURL;
            json_Encode_metaFile := example_Encode_metaFile;
            json_Decode_metaFile := example_Decode_metaFile;
            json_Encode_httpResponsePut := example_Encode_httpResponsePut;
            SplitHostPort := example_SplitHostPort |}.
  assert (Hspan : ∀ s rest,
    all_chars (λ c, negb (Ascii.eqb c " ")) s = true →
    span_until " " (s +:+ String " " rest) = (s, Some rest)).
  { induction s as [|c s IH]; simpl; [done|].
    intros rest [Hc Hs]%andb_true_iff. apply negb_true_iff in Hc.
    rewrite Hc. by rewrite (IH rest Hs). }
  assert (Huint : ∀ d,
    all_chars (λ c, negb (Ascii.eqb c " ")) (NilEmpty.string_of_uint d) = true).
  { induction d; simpl; auto. }
  assert (Hfmt : ∀ z, all_chars (λ c, negb (Ascii.eqb c " ")) (fmt_d z) = true).
  { intros z. unfold fmt_d, NilZero.string_of_int, NilZero.string_of_uint.
    destruct (Z.to_int z) as [d|d]; [destruct d|destruct d]; simpl; auto. }
  intros m.
  unfold example_Decode_metaFile, example_Encode_metaFile, string_of, bytes_of.
  rewrite String.string_of_list_byte_of_string.
  change (" " +:+ Mode m) with (String " " (Mode m)).
  rewrite (Hspan (fmt_d (Expires m)) (Mode m) (Hfmt _)).
  unfold fmt_d. rewrite NilZero.isi; simpl.
  - rewrite DecimalZ.of_to. by destruct m.
  - destruct (Expires m); simpl; [done| |done].
    intros [=Hp]. by apply Unsigned.to_uint_nonnil in Hp.
  - destruct (Expires m); simpl; [done|done|].
    intros [=Hp]. by apply Unsigned.to_uint_nonnil in Hp.
Defined.

(** ** Example data *)

Definition example_key : Key :=
  {| Bytes := bytes_of "salthunter2"; Salt := bytes_of "salt" |}.

(** A key derived from a password with a colon in it. *)
Definition example_key_colon : Key :=
  {| Bytes := bytes_of "saltpa:ss"; Salt := bytes_of "salt" |}.

Definition example_config : Config :=
  {| ConfigKey := None; ClipboardCountLimit := 2; ClipboardSizeLimit := 100;
     FileSizeLimit := 10; FileExpireAfter := 0; FileModesAllowed := ["rw"; "ro"] |}.

Definition example_config_protected : Config :=
  {| ConfigKey := Some example_key; ClipboardCountLimit := 2;
     ClipboardSizeLimit := 100; FileSizeLimit := 10; FileExpireAfter := 0;
     FileModesAllowed := ["rw"; "ro"] |}.

Definition example_env : Env :=
  {| now := 1700000000 * Second; now_done := 1700000001 * Second;
     mkfifo_fails := false; open_meta_fails := false; open_file_fails := false;
     client_gone := false; readdir_fails := false |}.

Definition example_body (content : string) : ReadCloser :=
  {| chunks := [bytes_of content]; read_fails := false; close_fails := false |}.

Definition example_request (method path : string) (query header : list (string * string))
    (body : option ReadCloser) : Request :=
  {| Method := method; URL_Path := path; URL_Query := query; Header := header;
     RemoteAddr := "192.0.2.7:40000"; Body := body |}.

(** A server that expires files a minute old, and a directory holding one
    file without metadata, last written at the epoch. *)
Definition example_config_maxage : Config :=
  {| ConfigKey := None; ClipboardCountLimit := 2; ClipboardSizeLimit := 100;
     FileSizeLimit := 10; FileExpireAfter := Minute;
     FileModesAllowed := ["rw"; "ro"] |}.

Definition example_disk_stale : gmap string node :=
  {[ "old" := Regular (bytes_of "hello") 0 ]}.

(** A directory with the entry [abc123] and its metadata, and a server
    on it whose counters the janitor has set. *)
Definition example_disk_one : gmap string node :=
  {[ "abc123" := Regular (bytes_of "hello") (1600000000 * Second);
     "abc123:meta" := Regular (example_Encode_metaFile {| Mode := "rw"; Expires := 0 |})
                        (1600000000 * Second) ]}.

Definition example_env_mkfifo_fails : Env :=
  {| now := 1700000000 * Second; now_done := 1700000001 * Second;
     mkfifo_fails := true; open_meta_fails := false; open_file_fails := false;
     client_gone := false; readdir_fails := false |}.

(** [PUT /abc123] with the body [content], plain or streaming. *)
Definition example_put (content : string) : Request :=
  example_request "PUT" "/abc123" [] [] (Some (example_body content)).

Definition example_put_stream (content : string) : Request :=
  example_request "PUT" "/abc123" [] [("X-Stream", "yes")]
    (Some (example_body content)).

(** Two new entries, a sweep of the janitor, and an overwrite of the
    first entry, on a server whose count cap is two. *)
Definition example_run : list step :=
  [ Upload {| up_env := example_env; up_request := example_put "hello";
              up_id := "abc123" |};
    Upload {| up_env := example_env;
              up_request := example_request "PUT" "/abc124" [] []
                              (Some (example_body "hi"));
              up_id := "abc124" |};
    Sweep (1700000001 * Second) false;
    Upload {| up_env := example_env; up_request := example_put "again";
              up_id := "abc123" |} ].

(** [GET /abc123] with a valid password credential in the header. *)
Definition example_get_basic (query : list (string * string)) : Request :=
  example_request "GET" "/abc123" query
    [("Authorization", "Basic Ym9iOmh1bnRlcjI=")] None.

(** ** Routing

    [routeList] and [handle], with the wrappers [limit] and [onlyIfWebUI]
    and the handlers [handleInfo] and [handleVerify].  The root page and
    the static files are rendered by templates and a file server outside
    this file; [handle] is parametric in those two handlers. *)

(** The fields of [Config] that only these handlers read. *)
Record WebConfig := { ServerAddr : string; WebUI : bool }.

Record httpResponseInfo := { InfoServerAddr : string; InfoSalt : string }.

Class Web := {
  (** [http.StatusText] *)
  StatusText : Z → string;
  (** [base64.StdEncoding.EncodeToString] *)
  base64_EncodeToString : list byte → string;
  (** [json.NewEncoder(..).Encode] at [httpResponseInfo]. *)
  json_Encode_httpResponseInfo : httpResponseInfo → list byte;
}.

(** *** The route patterns

    [newRoute] compiles ["^" + pattern + "$"], so a pattern matches the
    whole path or nothing.  A matcher returns the submatches [matches[1:]]
    that [handle] stores in the request context. *)

(** [^/$], [^/info$], [^/verify$] *)
Definition re_literal (lit path : string) : option (list string) :=
  if String.eqb path lit then Some [] else None.

(** [^/static/.+$] *)
Definition re_static (path : string) : option (list string) :=
  rest ← strip_prefix "/static/" path;
  if nonempty rest && all_chars re_dot rest then Some [] else None.

(** One rune of a class of ASCII characters [p] that holds the letters,
    under [(?i)].  The class then holds the case folds of its members:
    besides both cases of the ASCII letters these are U+017F, the fold of
    [s], in UTF-8 the bytes C5 BF, and U+212A, the fold of [k], bytes
    E2 84 AA.  The result is the text after the rune. *)
Definition folded_rune (p : ascii → bool) (s : string) : option string :=
  match s with
  | String c rest =>
      if p c then Some rest
      else match rest with
           | String c2 rest2 =>
               if Ascii.eqb c "197" && Ascii.eqb c2 "191" then Some rest2
               else match rest2 with
                    | String c3 rest3 =>
                        if Ascii.eqb c "226" && Ascii.eqb c2 "132"
                           && Ascii.eqb c3 "170"
                        then Some rest3 else None
                    | EmptyString => None
                    end
           | EmptyString => None
           end
  | EmptyString => None
  end.

(** The number of runes of a text made of runes of [[-_.a-z0-9]] under
    [(?i)]. *)
Fixpoint id_tail (s : string) : option nat :=
  match s with
  | EmptyString => Some 0%nat
  | String c rest =>
      if is_id_char c then S <$> id_tail rest
      else match rest with
           | String c2 rest2 =>
               if Ascii.eqb c "197" && Ascii.eqb c2 "191" then S <$> id_tail rest2
               else match rest2 with
                    | String c3 rest3 =>
                        if Ascii.eqb c "226" && Ascii.eqb c2 "132"
                           && Ascii.eqb c3 "170"
                        then S <$> id_tail rest3 else None
                    | EmptyString => None
                    end
           | EmptyString => None
           end
  end.

(** [^/(?i)([a-z0-9][-_.a-z0-9]{1,100})$] *)
Definition re_clipboard (path : string) : option (list string) :=
  match path with
  | String "/" id =>
      rest ← folded_rune is_alnum id;
      n ← id_tail rest;
      if (1 <=? n)%nat && (n <=? 100)%nat then Some [id] else None
  | _ => None
  end.

(** *** Routes *)

(** A handler, given the fields [handle] puts into the request context. *)
Definition handlerFnWithErr : Type := list string → Request → M unit.

Record route := {
  method : string;
  regex : string → option (list string);
  handler : handlerFnWithErr;
}.

Definition newRoute (method : string) (pattern : string → option (list string))
    (handler : handlerFnWithErr) : route :=
  {| method := method; regex := pattern; handler := handler |}.

(** [fields[0]] *)
Definition first_field (fields : list string) : M string :=
  match fields with
  | id :: _ => mret id
  | [] => throw (errPanic "index out of range")
  end.

Section Routing.
Context `{Crypto} `{Services} `{Web}.

(** The wrapper [limit] (the name is taken by the limiter's field):
    whether the visitor's token bucket lets the request pass is decided
    outside, [allow] is its answer. *)
Definition rate_limit (e : Env) (allow : bool) (next : handlerFnWithErr)
    : handlerFnWithErr := λ fields r,
  getVisitor e r ;;
  if allow then next fields r else throw ErrHTTPTooManyRequests.

Definition onlyIfWebUI (web : WebConfig) (next : handlerFnWithErr)
    : handlerFnWithErr := λ fields r,
  if WebUI web then next fields r else throw ErrHTTPBadRequest.

(** [handleInfo]; the status it writes first is 200. *)
Definition handleInfo (config : Config) (web : WebConfig) (e : Env) : M unit :=
  let salt :=
    match ConfigKey config with
    | Some key => base64_EncodeToString (Salt key)
    | None => EmptyString
    end in
  w_Write e (json_Encode_httpResponseInfo
               {| InfoServerAddr := ServerAddr web; InfoSalt := salt |}).

Definition handleVerify : M unit := mret ().

Section Routes.
Variable config : Config.
Variable web : WebConfig.
Variable e : Env.
Variable allow : bool.
(** What [randomFileID()] returns. *)
Variable randomFileID : string.
Variable handleRoot handleStatic : Request → M unit.

Definition routeList : list route :=
  [ newRoute "GET" (re_literal "/") (λ _ r, handleRoot r);
    newRoute "PUT" (re_literal "/")
      (rate_limit e allow (λ _ r, auth config (now e) r
         (handleClipboardPutRandom config e r randomFileID)));
    newRoute "POST" (re_literal "/")
      (rate_limit e allow (λ _ r, auth config (now e) r
         (handleClipboardPutRandom config e r randomFileID)));
    newRoute "GET" re_static (onlyIfWebUI web (λ _ r, handleStatic r));
    newRoute "GET" (re_literal "/info")
      (rate_limit e allow (λ _ _, handleInfo config web e));
    newRoute "GET" (re_literal "/verify")
      (rate_limit e allow (λ _ r, auth config (now e) r handleVerify));
    newRoute "GET" re_clipboard
      (rate_limit e allow (λ fields r, auth config (now e) r
         (id ← first_field fields; handleClipboardGet config e id)));
    newRoute "PUT" re_clipboard
      (rate_limit e allow (λ fields r, auth config (now e) r
         (id ← first_field fields; handleClipboardPut config e r id)));
    newRoute "POST" re_clipboard
      (rate_limit e allow (λ fields r, auth config (now e) r
         (id ← first_field fields; handleClipboardPut config e r id))) ].

(** The loop of [handle]: the handler of the first route whose pattern
    matches the path and whose method is the request's. *)
Fixpoint find_route (routes : list route) (r : Request) : option (M unit) :=
  match routes with
  | [] => None
  | rt :: rest =>
      match regex rt (URL_Path r) with
      | Some fields =>
          if bool_decide (Method r = method rt) then Some (handler rt fields r)
          else find_route rest r
      | None => find_route rest r
      end
  end.

(** [fail] writes the status [code] and its text.  The result is the
    code, the response writer of the model keeping no status line. *)
Definition fail (code : Z) : M (option Z) :=
  w_Write_ e (bytes_of (StatusText code)) ;; mret (Some code).

(** What [handle] does with the result of the handler it has called: an
    error goes to [fail], with its code when it is an [errHTTPNotOK] and
    with 500 otherwise.  A panic of the handler is not caught here. *)
Definition respond (h : M unit) : M (option Z) := λ m,
  match h m with
  | (Done _, m') => (Done None, m')
  | (Blocked, m') => (Blocked, m')
  | (Fail (errPanic what), m') => (Fail (errPanic what), m')
  | (Fail err, m') => fail (status_of (Some err)) m'
  end.

(** [handle].  The result is the code given to [fail], [None] when
    the handler returned [nil]. *)
Definition handle (r : Request) : M (option Z) :=
  match find_route routeList r with
  | Some h => respond h
  | None =>
      if bool_decide (Method r = "GET") then fail 404 else fail 400
  end.

End Routes.
End Routing.

(** ** Further vocabulary *)

(** The entry [name] is one the sweep at time [now] finds expired. *)
Definition expired_entry `{Services} (config : Config) (now : Z)
    (d : gmap string node) (name : string) : bool :=
  negb (is_meta name)
  && match d !! name with
     | Some n => isExpired config now d (stat_of name n) (name +:+ ":meta")
     | None => false
     end.

(** The names a sweep at time [now] over the listing [files] takes out
    of the directory [d]: the expired entries and their metadata. *)
Definition swept `{Services} (config : Config) (now : Z)
    (d : gmap string node) (files : list FileInfo) (k : string) : bool :=
  bool_decide
    (Exists (λ f, expired_entry config now d (Name f) = true
                  ∧ (k = Name f ∨ k = Name f +:+ ":meta")) files).

(** The files of a listing of [d] that the sweep counts: those that are
    no metadata side-files and for which [maybeExpire] returns false. *)
Definition counted `{Services} (config : Config) (now : Z)
    (d : gmap string node) (f : FileInfo) : bool :=
  negb (is_meta (Name f))
  && negb (expired_entry config now d (Name f)
           && bool_decide (is_Some (d !! (Name f +:+ ":meta")))).

(** Every entry that is not a metadata side-file has one. *)
Definition with_metadata (d : gmap string node) : Prop :=
  ∀ name n, d !! name = Some n → is_meta name = false →
    is_Some (d !! (name +:+ ":meta")).

(** The sizes of a list of files, added up. *)
Definition total_size (files : list FileInfo) : Z :=
  foldr Z.add 0 (Size <$> files).

(** The total size of the entries that are not metadata side-files. *)
Definition content_size (d : gmap string node) : Z :=
  total_size ((λ kv, stat_of kv.1 kv.2)
                <$> filter (λ kv, is_meta kv.1 = false) (map_to_list d)).

Definition no_slash (c : ascii) : bool := negb (Ascii.eqb c "/").

(** The response writer apart, the two machines are the same. *)
Definition same_response (m m' : machine) : Prop :=
  w_header m' = w_header m ∧ w_body m' = w_body m.

(** ** Histories

    What happens to a server, one event after the other: a clipboard
    request served by its handler, or a sweep of the janitor. *)
Inductive event : Type :=
  | Write (e : Env) (r : Request) (id : string)
  | Read (e : Env) (id : string)
  | Tick (t : Z) (readdir_err : bool).

(** The identifier of a request is one that is no metadata name, as the
    identifiers of the clipboard routes are. *)
Definition routed (ev : event) : Prop :=
  match ev with
  | Write _ _ id | Read _ id => is_meta id = false
  | Tick _ _ => True
  end.

Section Histories.
Context `{Services}.

(** The server after an event.  A request is served on a fresh response
    writer; its handler may have returned [nil] or an error, or be blocked
    at a pipe. *)
Definition after (config : Config) (m : machine) (ev : event) : machine :=
  match ev with
  | Write e r id => (handleClipboardPut config e r id (fresh_response m)).2
  | Read e id => (handleClipboardGet config e id (fresh_response m)).2
  | Tick t readdir_err => updateStatsAndExpire config t readdir_err m
  end.

Definition history (config : Config) (evs : list event) (m : machine) : machine :=
  foldl (after config) m evs.

End Histories.

(** A specification of a computation: started in a state of [P] it ends,
    when it returns a value, in a state of [Q] at that value, and
    otherwise, with an error or blocked, in a state of [W]. *)
Definition hoare {A} (W P : machine → Prop) (c : M A) (Q : A → machine → Prop)
    : Prop :=
  ∀ m o m', P m → c m = (o, m') →
    match o with
    | Done a => Q a m'
    | _ => W m'
    end.

(** The global size limiter, when it has a cap: the cap is an [int64],
    the limiter is within it and not below the total size of the
    entries. *)
Definition size_tracked (m : machine) : Prop :=
  0 < limit (sizeLimiter m) →
  limit (sizeLimiter m) ≤ int64_max
  ∧ content_size (disk m) ≤ value (sizeLimiter m) ≤ limit (sizeLimiter m).

(** Every entry has its metadata, and the server has the property [S]. *)
Definition keeps (S : machine → Prop) (m : machine) : Prop :=
  with_metadata (disk m) ∧ S m.

(** On the way through an upload to [id]: the entry has been removed. *)
Definition keeps_off (S : machine → Prop) (id : string) (m : machine) : Prop :=
  keeps S m ∧ disk m !! id = None.

(** On the way through an upload to [id]: its metadata has been written. *)
Definition keeps_meta (S : machine → Prop) (id : string) (m : machine) : Prop :=
  keeps S m ∧ is_Some (disk m !! (id +:+ ":meta")).

(** The directory [d'] is [d] but for the entry [id] and its metadata. *)
Definition agree_off (id : string) (d d' : gmap string node) : Prop :=
  ∀ k, k ≠ id → k ≠ id +:+ ":meta" → d' !! k = d !! k.

(** ** Further reference collaborators *)

Definition b64_char (z : Z) : ascii :=
  ascii_of_nat
    (Z.to_nat (if z <? 26 then z + 65
               else if z <? 52 then z + 71
               else if z <? 62 then z - 4
               else if z =? 62 then 43 else 47)).

Definition Z_of_byte (b : byte) : Z := Z.of_N (Byte.to_N b).

Fixpoint b64_encode (b : list byte) : string :=
  match b with
  | [] => EmptyString
  | [x] =>
      let x := Z_of_byte x in
      String (b64_char (x `div` 4))
        (String (b64_char (x `mod` 4 * 16)) "==")
  | [x; y] =>
      let x := Z_of_byte x in
      let y := Z_of_byte y in
      String (b64_char (x `div` 4))
        (String (b64_char (x `mod` 4 * 16 + y `div` 16))
           (String (b64_char (y `mod` 16 * 4)) "="))
  | x :: y :: z :: rest =>
      let x := Z_of_byte x in
      let y := Z_of_byte y in
      let z := Z_of_byte z in
      String (b64_char (x `div` 4))
        (String (b64_char (x `mod` 4 * 16 + y `div` 16))
           (String (b64_char (y `mod` 16 * 4 + z `div` 64))
              (String (b64_char (z `mod` 64)) (b64_encode rest))))
  end.

(** The texts of the status codes this file uses. *)
Definition example_StatusText (code : Z) : string :=
  if code =? 200 then "OK"
  else if code =? 206 then "Partial Content"
  else if code =? 400 then "Bad Request"
  else if code =? 401 then "Unauthorized"
  else if code =? 404 then "Not Found"
  else if code =? 405 then "Method Not Allowed"
  else if code =? 413 then "Request Entity Too Large"
  else if code =? 429 then "Too Many Requests"
  else if code =? 500 then "Internal Server Error"
  else EmptyString.

Definition example_Encode_httpResponseInfo (i : httpResponseInfo) : list byte :=
  bytes_of ("{" +:+ dquote +:+ "serverAddr" +:+ dquote +:+ ":" +:+ dquote
            +:+ InfoServerAddr i +:+ dquote +:+ "," +:+ dquote +:+ "salt"
            +:+ dquote +:+ ":" +:+ dquote +:+ InfoSalt i +:+ dquote +:+ "}"
            +:+ String "010" EmptyString).

Global Instance example_Web : Web := {|
  StatusText := example_StatusText;
  base64_EncodeToString := b64_encode;
  json_Encode_httpResponseInfo := example_Encode_httpResponseInfo;
|}.

Definition example_web : WebConfig :=
  {| ServerAddr := "pcopy.example:2586"; WebUI := false |}.

(** Stand-ins for the root page and the static files. *)
Definition example_page (r : Request) : M unit := mret ().

(** ** Further example data *)

(** The entry [abc123] with an expiry stamp a minute after its upload. *)
Definition example_disk_expiring : gmap string node :=
  {[ "abc123" := Regular (bytes_of "hello") (1700000000 * Second);
     "abc123:meta" :=
       Regular (example_Encode_metaFile {| Mode := "rw"; Expires := 1700000060 |})
         (1700000000 * Second) ]}.

(** The entry [abc123], read-only. *)
Definition example_disk_read_only : gmap string node :=
  {[ "abc123" := Regular (bytes_of "hello") (1600000000 * Second);
     "abc123:meta" :=
       Regular (example_Encode_metaFile {| Mode := "ro"; Expires := 0 |})
         (1600000000 * Second) ]}.

(** Metadata whose entry is gone. *)
Definition example_disk_orphan : gmap string node :=
  {[ "abc123:meta" :=
       Regular (example_Encode_metaFile {| Mode := "rw"; Expires := 1700000060 |})
         (1700000000 * Second) ]}.

(** A server on [example_disk_one] that has seen the visitor of the
    example requests ten times. *)
Definition example_server_busy : machine :=
  set_visitors
    (insert "192.0.2.7"
       {| visitorCountLimiter := {| value := 10; limit := 10 |};
          lastSeen := 1700000000 * Second |})
    (newServer example_config example_disk_one).

Definition example_env_client_gone : Env :=
  {| now := 1700000000 * Second; now_done := 1700000001 * Second;
     mkfifo_fails := false; open_meta_fails := false; open_file_fails := false;
     client_gone := true; readdir_fails := false |}.

(** [PUT /abc123?t=60] and [PUT /abc123] with a mode the server does not
    allow. *)
Definition example_put_ttl (content : string) : Request :=
  example_request "PUT" "/abc123" [("t", "60")] [] (Some (example_body content)).

Definition example_put_mode (content mode : string) : Request :=
  example_request "PUT" "/abc123" [] [("X-Mode", mode)]
    (Some (example_body content)).

(** A streamed upload to [abc124], the read that takes it from the pipe,
    a plain upload to [abc123], and a sweep of the janitor. *)
Definition example_history : list event :=
  [ Write example_env
      (example_request "PUT" "/abc124" [] [("X-Stream", "yes")]
         (Some (example_body "streamed")))
      "abc124";
    Read example_env "abc124";
    Write example_env (example_put "hello") "abc123";
    Tick (1700000100 * Second) false ].

(** * Properties of the authorisation *)

Ltac int64_lia :=
  unfold int64_min, int64_max, defaultMaxAuthAge, visitorExpungeAfter, Minute,
    Second in *; lia.

Lemma sat64_gt (z bound : Z) :
  int64_min ≤ bound → bound < int64_max → bound < sat64 z ↔ bound < z.
Proof. unfold sat64. int64_lia. Qed.

Lemma wrap64_small (z : Z) : int64_min ≤ z ≤ int64_max → wrap64 z = z.
Proof.
  unfold wrap64. intros Hz. rewrite Z.mod_small by int64_lia. lia.
Qed.

Section AuthorisationProperties.
Context `{Crypto}.

Lemma authorizeHmac_codes key now r m :
  authorizeHmac key now r m = None
  ∨ authorizeHmac key now r m = Some ErrHTTPUnauthorized.
Proof.
  destruct m as [[m1 m2] m3]. unfold authorizeHmac.
  repeat case_match; auto.
Qed.

(** As long as [time.Unix] stores the timestamp without wrapping around
    and the window in nanoseconds fits [time.Duration], that is up to
    9223372036 seconds, the signed-request check is the one the protocol
    describes: the signature is the keyed hash of the four fields and the
    age is within the window. *)
Lemma authorizeHmac_in_range key now r m1 m2 m3 ts ttl hash :
  Atoi m1 = Some ts → Atoi m2 = Some ttl →
  base64_DecodeString m3 = Some hash →
  ts + unixToInternal ≤ int64_max →
  0 ≤ ttl ≤ 9223372036 →
  authorizeHmac key now r (m1, m2, m3) = None
  ↔ hash = hmac_sha256 (Bytes key) (hmac_data ts ttl r)
    ∧ now - ts * Second ≤ auth_window ttl.
Proof.
  intros Hts Httl Hh _ Hr. unfold authorizeHmac. rewrite Hts, Httl, Hh.
  unfold ConstantTimeCompare, auth_window.
  assert (Hw : (if 0 <? ttl then wrap64 (Second * ttl) else defaultMaxAuthAge)
               = (if 0 <? ttl then ttl * Second else defaultMaxAuthAge)).
  { destruct (0 <? ttl); [|done]. rewrite wrap64_small; [lia|int64_lia]. }
  rewrite Hw. clear Hw.
  set (w := if 0 <? ttl then ttl * Second else defaultMaxAuthAge).
  assert (Hwpos : 0 < w ∧ w < int64_max).
  { subst w. destruct (0 <? ttl) eqn:E; [apply Z.ltb_lt in E|]; int64_lia. }
  clearbody w.
  case_bool_decide as Heq; simpl.
  - assert (Hz : (0 <? w) = true) by (apply Z.ltb_lt; lia). rewrite Hz. simpl.
    unfold time_Since_Unix.
    destruct (w <? sat64 (now - ts * Second)) eqn:E.
    + apply Z.ltb_lt in E. rewrite sat64_gt in E by int64_lia.
      split; [done|]. intros [_ ?]. lia.
    + apply Z.ltb_ge in E. split; [|done]. intros _. split; [done|].
      destruct (Z.le_gt_cases (now - ts * Second) w) as [?|Hgt]; [done|].
      rewrite <- (sat64_gt _ w) in Hgt by int64_lia. lia.
  - split; [done|]. intros [? _]. done.
Qed.


(** [strings.Split] *)

Lemma Split_length s sep : length (Split s sep) = S (count_char sep s).
Proof.
  induction s as [|c s IH]; simpl; [done|].
  destruct (Ascii.eqb c sep); simpl; [by rewrite IH|].
  destruct (Split s sep); simpl in *; lia.
Qed.

Lemma count_char_app sep s t :
  count_char sep (s +:+ t) = (count_char sep s + count_char sep t)%nat.
Proof. induction s as [|c s IH]; simpl; [done|]. rewrite IH. lia. Qed.

Lemma count_char_none s : all_chars no_colon s = true ↔ count_char ":" s = 0%nat.
Proof.
  induction s as [|c s IH]; simpl; [done|]. unfold no_colon at 1.
  destruct (Ascii.eqb c ":"); simpl; [split; [done|lia]|done].
Qed.

Lemma Split_one s : all_chars no_colon s = true → Split s ":" = [s].
Proof.
  induction s as [|c s IH]; simpl; [done|].
  intros [Hc Hs]%andb_true_iff. unfold no_colon in Hc.
  apply negb_true_iff in Hc. rewrite Hc. by rewrite (IH Hs).
Qed.

Lemma Split_two user password :
  all_chars no_colon user = true → all_chars no_colon password = true →
  Split (user +:+ ":" +:+ password) ":" = [user; password].
Proof.
  intros Hu Hp. induction user as [|c u IH].
  - change (Split (String ":" password) ":" = [EmptyString; password]).
    simpl. by rewrite (Split_one _ Hp).
  - simpl in Hu. apply andb_true_iff in Hu as [Hc Hu].
    unfold no_colon in Hc. apply negb_true_iff in Hc.
    change (String c u +:+ ":" +:+ password)
      with (String c (u +:+ ":" +:+ password)).
    simpl. rewrite Hc. by rewrite (IH Hu).
Qed.

Lemma authorizeBasic_codes key cred :
  authorizeBasic key cred = None
  ∨ authorizeBasic key cred = Some ErrHTTPUnauthorized.
Proof. unfold authorizeBasic. repeat case_match; auto. Qed.

Lemma authorizeBasic_accepts_iff key cred user password :
  base64_DecodeString cred = Some (bytes_of (user +:+ ":" +:+ password)) →
  authorizeBasic key cred = None
  ↔ all_chars no_colon user = true
    ∧ all_chars no_colon password = true
    ∧ DeriveKey (bytes_of password) (Salt key) = Bytes key.
Proof.
  intros Hd. unfold authorizeBasic. rewrite Hd. unfold string_of, bytes_of.
  rewrite String.string_of_list_byte_of_string. split.
  - intros Hok.
    assert (Hlen : length (Split (user +:+ ":" +:+ password) ":") = 2%nat).
    { destruct (Split (user +:+ ":" +:+ password) ":") as [|a [|b [|c l]]];
        simpl; done. }
    rewrite Split_length, !count_char_app in Hlen. simpl in Hlen.
    assert (Hu : all_chars no_colon user = true) by (apply count_char_none; lia).
    assert (Hp : all_chars no_colon password = true)
      by (apply count_char_none; lia).
    rewrite (Split_two _ _ Hu Hp) in Hok. unfold ConstantTimeCompare in Hok.
    case_bool_decide; done.
  - intros (Hu & Hp & Hk). rewrite (Split_two _ _ Hu Hp).
    unfold ConstantTimeCompare. by rewrite bool_decide_eq_true_2.
Qed.

(** A string with one colon is a user name and a password. *)
Lemma one_colon s :
  count_char ":" s = 1%nat →
  ∃ user password,
    s = user +:+ ":" +:+ password
    ∧ all_chars no_colon user = true ∧ all_chars no_colon password = true.
Proof.
  induction s as [|c s IH]; simpl; [done|].
  destruct (Ascii.eqb c ":") eqn:Hc; simpl.
  - apply Ascii.eqb_eq in Hc as ->. intros Hs.
    exists EmptyString, s. split; [done|]. split; [done|].
    apply count_char_none. lia.
  - intros (user & password & -> & Hu & Hp)%IH.
    exists (String c user), password. split; [done|]. split; [|done].
    simpl. rewrite Hu. unfold no_colon. by rewrite Hc.
Qed.

(** C4 (as amended): a shared-password credential is accepted if and only
    if it decodes to [user:password] where neither part contains a colon
    and the password derives the configured key, whatever the user name
    is; every other credential, one that does not decode or that has no
    colon or more than one included, is answered 401. *)
Theorem C4_basic_password_only key cred :
  (authorizeBasic key cred = None
   ↔ ∃ user password,
       base64_DecodeString cred = Some (bytes_of (user +:+ ":" +:+ password))
       ∧ all_chars no_colon user = true
       ∧ all_chars no_colon password = true
       ∧ DeriveKey (bytes_of password) (Salt key) = Bytes key)
  ∧ (authorizeBasic key cred = None
     ∨ authorizeBasic key cred = Some ErrHTTPUnauthorized).
Proof.
  split; [|apply authorizeBasic_codes]. split.
  - intros Hok.
    destruct (base64_DecodeString cred) as [decoded|] eqn:Hd;
      [|by unfold authorizeBasic in Hok; rewrite Hd in Hok].
    assert (Hlen : length (Split (string_of decoded) ":") = 2%nat).
    { unfold authorizeBasic in Hok. rewrite Hd in Hok.
      by destruct (Split (string_of decoded) ":") as [|a [|b [|c l]]]. }
    rewrite Split_length in Hlen.
    destruct (one_colon (string_of decoded)) as (user & password & Hs & _);
      [lia|].
    assert (Hbytes : decoded = bytes_of (user +:+ ":" +:+ password)).
    { rewrite <- Hs. unfold bytes_of, string_of.
      by rewrite String.list_byte_of_string_of_list_byte. }
    subst decoded. exists user, password. split; [done|].
    by apply (authorizeBasic_accepts_iff key cred).
  - intros (user & password & Hd & Hcond).
    by apply (authorizeBasic_accepts_iff key cred user password Hd).
Qed.

End AuthorisationProperties.

(** C4, the claim as stated: the password [pa:ss] derives the configured
    key, and the credential [bob:pa:ss] is rejected all the same. *)
Lemma C4_counterexample_colon_in_password :
  base64_DecodeString "Ym9iOnBhOnNz" = Some (bytes_of ("bob" +:+ ":" +:+ "pa:ss"))
  ∧ DeriveKey (bytes_of "pa:ss") (Salt example_key_colon) = Bytes example_key_colon
  ∧ authorizeBasic example_key_colon "Ym9iOnBhOnNz" = Some ErrHTTPUnauthorized.
Proof. vm_compute. done. Qed.

Lemma C4_basic_password_only_witness :
  authorizeBasic example_key "Ym9iOmh1bnRlcjI=" = None.
Proof.
  apply (proj1 (C4_basic_password_only example_key "Ym9iOmh1bnRlcjI=")).
  exists "bob", "hunter2". repeat split; reflexivity.
Defined.

Section SignedRequests.
Context `{Crypto}.

(** C3: a signed request one second old, signed for a window of
    18446744074 seconds, is turned away: the window in nanoseconds wraps
    around [int64] to 290448384, less than a third of a second.  The
    signature is the right one and the request is well inside the window it
    names. *)
Theorem C3_hmac_window_wraps key r sig :
  base64_DecodeString sig
    = Some (hmac_sha256 (Bytes key) (hmac_data 1700000000 18446744074 r)) →
  authorizeHmac key (1700000001 * Second) r ("1700000000", "18446744074", sig)
    = Some ErrHTTPUnauthorized
  ∧ 1700000001 * Second - 1700000000 * Second ≤ auth_window 18446744074.
Proof.
  intros Hsig. split; [|by vm_compute].
  unfold authorizeHmac.
  change (Atoi "1700000000") with (Some 1700000000).
  change (Atoi "18446744074") with (Some 18446744074).
  rewrite Hsig. unfold ConstantTimeCompare.
  rewrite bool_decide_eq_true_2 by done. reflexivity.
Qed.

(** C10: with the [a] query parameter present the header is not looked
    at: the decoded parameter is the credential, and a parameter that does
    not decode is rejected. *)
Theorem C10_query_auth_replaces_header config key now r v vs :
  ConfigKey config = Some key →
  values_of queryParamAuth (URL_Query r) = v :: vs →
  (∀ h, authorize config now (set_Header h r) = authorize config now r)
  ∧ authorize config now r
    = match base64_DecodeString v with
      | None => Some ErrHTTPUnauthorized
      | Some queryAuth => authorize_value key now r (string_of queryAuth)
      end.
Proof.
  intros Hkey Hq. split.
  - intros h. unfold authorize. simpl. rewrite Hkey, Hq.
    destruct (base64_DecodeString v); reflexivity.
  - unfold authorize. rewrite Hkey, Hq. reflexivity.
Qed.

End SignedRequests.

Lemma C3_hmac_window_wraps_witness :
  authorizeHmac example_key (1700000001 * Second)
    (example_request "GET" "/abc123" [] [] None)
    ("1700000000", "18446744074",
     "c2FsdGh1bnRlcjIxNzAwMDAwMDAwOjE4NDQ2NzQ0MDc0OkdFVDovYWJjMTIz")
  = Some ErrHTTPUnauthorized.
Proof.
  apply (C3_hmac_window_wraps example_key
           (example_request "GET" "/abc123" [] [] None)).
  vm_compute. reflexivity.
Defined.

Lemma C10_query_auth_replaces_header_witness :
  authorize example_config_protected (1700000000 * Second)
    (example_get_basic []) = None
  ∧ authorize example_config_protected (1700000000 * Second)
      (example_get_basic [("a", "!!")]) = Some ErrHTTPUnauthorized.
Proof.
  split; [vm_compute; reflexivity|].
  rewrite (proj2 (C10_query_auth_replaces_header example_config_protected
                    example_key (1700000000 * Second)
                    (example_get_basic [("a", "!!")]) "!!" []
                    eq_refl eq_refl)).
  reflexivity.
Defined.

(** * Running the handler monad *)

Lemma bind_Done {A B} (c : M A) (k : A → M B) m a m1 :
  c m = (Done a, m1) → (c ≫= k) m = k a m1.
Proof. intros Hc. unfold mbind, M_bind. by rewrite Hc. Qed.

Lemma bind_Fail {A B} (c : M A) (k : A → M B) m err m1 :
  c m = (Fail err, m1) → (c ≫= k) m = (Fail err, m1).
Proof. intros Hc. unfold mbind, M_bind. by rewrite Hc. Qed.

Lemma bind_Blocked {A B} (c : M A) (k : A → M B) m m1 :
  c m = (Blocked, m1) → (c ≫= k) m = (Blocked, m1).
Proof. intros Hc. unfold mbind, M_bind. by rewrite Hc. Qed.

Lemma bind_Done_inv {A B} (c : M A) (k : A → M B) m b m' :
  (c ≫= k) m = (Done b, m') →
  ∃ a m1, c m = (Done a, m1) ∧ k a m1 = (Done b, m').
Proof.
  unfold mbind, M_bind. destruct (c m) as [[a|err|] m1]; [eauto|done..].
Qed.

Lemma bind_Blocked_inv {A B} (c : M A) (k : A → M B) m m' :
  (c ≫= k) m = (Blocked, m') →
  c m = (Blocked, m') ∨ ∃ a m1, c m = (Done a, m1) ∧ k a m1 = (Blocked, m').
Proof.
  unfold mbind, M_bind. destruct (c m) as [[a|err|] m1]; [eauto|done|].
  intros [= ->]. by left.
Qed.

Lemma machine_eq (m m' : machine) :
  countLimiter m = countLimiter m' → sizeLimiter m = sizeLimiter m' →
  visitors m = visitors m' → disk m = disk m' →
  w_header m = w_header m' → w_body m = w_body m' → m = m'.
Proof. destruct m, m'; simpl; congruence. Qed.

(** * The response to an upload *)

Section Response.
Context `{Services}.

Lemma repeat_w_Write_ e p n m :
  client_gone e = false →
  repeat_M n (w_Write_ e p) m
  = (Done (), set_w_body (λ b, b ++ mjoin (replicate n p)) m).
Proof.
  intros He. revert m. induction n as [|n IH]; intros m; simpl.
  - unfold mret, M_ret. f_equal. apply machine_eq; simpl; try done.
    by rewrite app_nil_r.
  - erewrite bind_Done; [|unfold w_Write_; by rewrite He].
    rewrite IH. f_equal. apply machine_eq; simpl; try done.
    by rewrite <- app_assoc.
Qed.

(** C1: what [writePutOutput] writes to the body is the link and a line
    feed (or the JSON document), and after it nine hundred bytes more: the
    line [hi there] a hundred times. *)
Theorem C1_writePutOutput_body config e id expires ttl format url m :
  GenerateClipURL config id ttl = Some url →
  client_gone e = false →
  ∃ m', writePutOutput config e id expires ttl format m = (Done (), m')
    ∧ w_body m'
      = w_body m
        ++ (if bool_decide (format = "json")
            then json_Encode_httpResponsePut
                   {| URL := url; ResponseExpires := expires |}
            else bytes_of (url +:+ String "010" EmptyString))
        ++ hi_there_padding
    ∧ length hi_there_padding = 900%nat
    ∧ w_body m'
      ≠ w_body m
        ++ (if bool_decide (format = "json")
            then json_Encode_httpResponsePut
                   {| URL := url; ResponseExpires := expires |}
            else bytes_of (url +:+ String "010" EmptyString)).
Proof.
  intros Hurl He. unfold writePutOutput. rewrite Hurl.
  unfold Header_Set, modify.
  do 3 (erewrite bind_Done; [|reflexivity]).
  set (first := if bool_decide (format = "json")
                then json_Encode_httpResponsePut
                       {| URL := url; ResponseExpires := expires |}
                else bytes_of (url +:+ String "010" EmptyString)).
  erewrite (bind_Done _ _ _ () (set_w_body (λ b, b ++ first) _)).
  2:{ subst first. destruct (bool_decide (format = "json"));
        unfold w_Write; by rewrite He. }
  rewrite repeat_w_Write_ by done.
  eexists. split; [reflexivity|].
  assert (Hlen : length hi_there_padding = 900%nat) by (vm_compute; reflexivity).
  match goal with
  | |- w_body ?m' = _ ∧ _ =>
      change (w_body m') with ((w_body m ++ first) ++ hi_there_padding)
  end.
  split; [by rewrite app_assoc|]. split; [done|].
  intros Heq. apply (f_equal length) in Heq.
  rewrite !length_app, Hlen in Heq. lia.
Qed.

End Response.

Lemma C1_writePutOutput_body_witness :
  ∃ m', writePutOutput example_config example_env "abc123" 0 0 "text"
          (newServer example_config ∅) = (Done (), m')
    ∧ w_body m'
      = bytes_of (String.append "https://pcopy.example/abc123"
                    (String "010" EmptyString)) ++ hi_there_padding
    ∧ w_body m' ≠ bytes_of (String.append "https://pcopy.example/abc123"
                              (String "010" EmptyString)).
Proof.
  assert (Hurl : GenerateClipURL example_config "abc123" 0
                 = Some "https://pcopy.example/abc123") by reflexivity.
  destruct (C1_writePutOutput_body example_config example_env "abc123" 0 0
              "text" "https://pcopy.example/abc123" (newServer example_config ∅)
              Hurl eq_refl) as (m' & Hrun & Hbody & Hlen & _).
  exists m'. split; [exact Hrun|]. split; [exact Hbody|].
  rewrite Hbody. vm_compute. discriminate.
Defined.

(** * Names in the clipboard directory *)

Lemma string_length_app s t :
  String.length (s +:+ t) = (String.length s + String.length t)%nat.
Proof.
  induction s as [|c s IH]; simpl; [done|].
  change (String c s +:+ t) with (String c (s +:+ t)). simpl. by rewrite IH.
Qed.

Lemma string_app_inj_r s1 s2 t : s1 +:+ t = s2 +:+ t → s1 = s2.
Proof.
  revert s2. induction s1 as [|a s1 IH]; intros [|b s2] Heq.
  - done.
  - apply (f_equal String.length) in Heq.
    rewrite !string_length_app in Heq. simpl in Heq. lia.
  - apply (f_equal String.length) in Heq.
    rewrite !string_length_app in Heq. simpl in Heq. lia.
  - change (String a (s1 +:+ t) = String b (s2 +:+ t)) in Heq.
    injection Heq as -> Heq. by rewrite (IH _ Heq).
Qed.

Lemma name_ne_meta id : id ≠ id +:+ ":meta".
Proof.
  intros Heq. apply (f_equal String.length) in Heq.
  rewrite string_length_app in Heq. simpl in Heq. lia.
Qed.

Lemma HasSuffix_cons c s suffix :
  HasSuffix (String c s) suffix
  = if String.eqb (String c s) suffix then true else HasSuffix s suffix.
Proof. reflexivity. Qed.

Lemma HasSuffix_refl s : HasSuffix s s = true.
Proof. destruct s; [done|]. by rewrite HasSuffix_cons, String.eqb_refl. Qed.

Lemma HasSuffix_app s suffix : HasSuffix (s +:+ suffix) suffix = true.
Proof.
  induction s as [|c s IH].
  - apply HasSuffix_refl.
  - change (String c s +:+ suffix) with (String c (s +:+ suffix)).
    rewrite HasSuffix_cons, IH. by destruct (String.eqb _ _).
Qed.

Lemma is_meta_app id : is_meta (id +:+ ":meta") = true.
Proof. apply HasSuffix_app. Qed.

Lemma all_chars_impl (p q : ascii → bool) s :
  (∀ c, p c = true → q c = true) → all_chars p s = true → all_chars q s = true.
Proof.
  intros Hpq. induction s as [|c s IH]; simpl; [done|].
  intros [Hc Hs]%andb_true_iff. by rewrite (Hpq _ Hc), (IH Hs).
Qed.

Lemma HasSuffix_colon s : HasSuffix s ":meta" = true → all_chars no_colon s = false.
Proof.
  induction s as [|c s IH]; [done|].
  rewrite HasSuffix_cons. destruct (String.eqb (String c s) ":meta") eqn:E.
  - apply String.eqb_eq in E. by rewrite E.
  - intros Hs. simpl. rewrite (IH Hs). apply andb_false_r.
Qed.

Lemma is_id_char_no_colon c : is_id_char c = true → no_colon c = true.
Proof. destruct c as [[] [] [] [] [] [] [] []]; vm_compute; congruence. Qed.

Lemma permitted_no_colon id : permitted_id id = true → all_chars no_colon id = true.
Proof.
  destruct id as [|c rest]; [done|]. unfold permitted_id.
  rewrite !andb_true_iff. intros [[[Hc Hrest] _] _]. simpl.
  rewrite (all_chars_impl _ _ _ is_id_char_no_colon Hrest), andb_true_r.
  apply is_id_char_no_colon. unfold is_id_char. by rewrite Hc.
Qed.

Lemma permitted_not_meta id : permitted_id id = true → is_meta id = false.
Proof.
  intros Hp. destruct (is_meta id) eqn:E; [|done].
  apply HasSuffix_colon in E. by rewrite (permitted_no_colon _ Hp) in E.
Qed.

(** * The sweep *)

Section Sweep.
Context `{Services}.

Local Arguments sweep_step : simpl never.

Lemma sweep_step_unfold config now d n t f :
  sweep_step config now (d, n, t) f
  = if HasSuffix (Name f) ":meta" then (d, n, t)
    else let '(expired, d') := maybeExpire config now f d in
         if negb expired then (d', n + 1, wrap64 (t + Size f))
         else (d', n, t).
Proof. reflexivity. Qed.

Lemma Name_stat_of name n : Name (stat_of name n) = name.
Proof. by destruct n. Qed.

Lemma elem_of_ReadDir d f :
  f ∈ ReadDir d → ∃ n, d !! Name f = Some n ∧ f = stat_of (Name f) n.
Proof.
  unfold ReadDir. intros ([name n] & -> & Hin)%list_elem_of_fmap.
  rewrite merge_sort_Permutation in Hin.
  apply elem_of_map_to_list in Hin. simpl. rewrite Name_stat_of. eauto.
Qed.

Lemma ReadDir_count d :
  Z.of_nat (length (filter (λ f, is_meta (Name f) = false) (ReadDir d)))
  = content_count d.
Proof.
  unfold ReadDir, content_count. f_equal.
  rewrite <- (merge_sort_Permutation entry_le (map_to_list d)) at 2.
  induction (merge_sort entry_le (map_to_list d)) as [|[name n] l IH]; [done|].
  rewrite fmap_cons, !filter_cons. simpl. rewrite Name_stat_of.
  destruct (decide (is_meta name = false)); simpl; by rewrite IH.
Qed.

Lemma sat64_nonpos z : z ≤ 0 → sat64 z ≤ 0.
Proof. unfold sat64. int64_lia. Qed.

Lemma sat64_pos z : 0 < z → 0 < sat64 z.
Proof. unfold sat64. int64_lia. Qed.

Lemma unexpired_mono t T x : t ≤ T → unexpired T x → unexpired t x.
Proof. unfold unexpired. lia. Qed.

Lemma isExpired_unexpired config now d info metafile mf :
  readMetaFile d metafile = Some mf → unexpired now (Expires mf) →
  isExpired config now d info metafile = false.
Proof.
  intros Hmf Hlive. unfold isExpired. rewrite Hmf.
  destruct (0 <? Expires mf) eqn:E; [|done]. apply Z.ltb_lt in E.
  apply Z.ltb_ge, sat64_nonpos. unfold unexpired in Hlive. lia.
Qed.

(** What [maybeExpire] leaves of the directory. *)
Lemma maybeExpire_cases config now f d :
  maybeExpire config now f d = (false, d)
  ∨ isExpired config now d f (Name f +:+ ":meta") = true
    ∧ (maybeExpire config now f d
       = (true, delete (Name f +:+ ":meta") (delete (Name f) d))
       ∨ maybeExpire config now f d = (false, delete (Name f) d)
         ∧ d !! (Name f +:+ ":meta") = None).
Proof.
  unfold maybeExpire, os_Remove.
  destruct (isExpired config now d f (Name f +:+ ":meta")); simpl; [|by left].
  destruct (d !! Name f) eqn:Hf; [|by left]. right. split; [done|].
  rewrite lookup_delete_ne by apply name_ne_meta.
  destruct (d !! (Name f +:+ ":meta")) eqn:Hm; auto.
Qed.

Lemma sweep_step_subseteq config now d n t f :
  (sweep_step config now (d, n, t) f).1.1 ⊆ d.
Proof.
  unfold sweep_step. destruct (HasSuffix (Name f) ":meta"); [done|].
  destruct (maybeExpire_cases config now f d) as [->|[_ [->|[-> _]]]]; simpl.
  - done.
  - etrans; apply delete_subseteq.
  - apply delete_subseteq.
Qed.

Lemma sweep_fold_subseteq config now files d n t :
  (foldl (sweep_step config now) (d, n, t) files).1.1 ⊆ d.
Proof.
  revert d n t. induction files as [|f files IH]; intros d n t; [done|].
  simpl. pose proof (sweep_step_subseteq config now d n t f) as Hstep.
  destruct (sweep_step config now (d, n, t) f) as [[d' n'] t']. simpl in Hstep.
  etrans; [apply IH|done].
Qed.

(** The sweep never makes an entry. *)
Lemma updateStatsAndExpire_subseteq config now err m :
  disk (updateStatsAndExpire config now err m) ⊆ disk m.
Proof.
  unfold updateStatsAndExpire. destruct err; [done|]. simpl.
  pose proof (sweep_fold_subseteq config now (ReadDir (disk m)) (disk m) 0 0) as Hsub.
  by destruct (foldl _ _ _) as [[d n] t].
Qed.

Lemma updateStatsAndExpire_absent config now err m name :
  disk m !! name = None → disk (updateStatsAndExpire config now err m) !! name = None.
Proof.
  intros Hn. eapply lookup_weaken_None; [exact Hn|].
  apply updateStatsAndExpire_subseteq.
Qed.

(** A failed directory read leaves the limiters and the directory alone. *)
Lemma updateStatsAndExpire_readdir_fails config now m :
  countLimiter (updateStatsAndExpire config now true m) = countLimiter m
  ∧ sizeLimiter (updateStatsAndExpire config now true m) = sizeLimiter m
  ∧ disk (updateStatsAndExpire config now true m) = disk m.
Proof. done. Qed.

(** An entry whose expiry stamp has not passed survives the sweep, with
    its metadata. *)
Lemma sweep_step_keeps config now name mf d0 d n t f :
  is_meta name = false →
  readMetaFile d0 (name +:+ ":meta") = Some mf → unexpired now (Expires mf) →
  d !! name = d0 !! name → d !! (name +:+ ":meta") = d0 !! (name +:+ ":meta") →
  let d' := (sweep_step config now (d, n, t) f).1.1 in
  d' !! name = d0 !! name ∧ d' !! (name +:+ ":meta") = d0 !! (name +:+ ":meta").
Proof.
  intros Hname Hmf Hlive Hd Hdm. unfold sweep_step.
  destruct (HasSuffix (Name f) ":meta") eqn:Hf; [done|].
  destruct (maybeExpire_cases config now f d) as [->|[Hexp Hcase]]; [done|].
  assert (Hne : Name f ≠ name).
  { intros Heq. rewrite Heq in Hexp.
    rewrite (isExpired_unexpired _ _ _ _ _ mf) in Hexp; [done| |done].
    unfold readMetaFile in *. by rewrite Hdm. }
  assert (Name f +:+ ":meta" ≠ name).
  { intros Heq. by rewrite <- Heq, is_meta_app in Hname. }
  assert (Name f ≠ name +:+ ":meta").
  { intros Heq. unfold is_meta in *. by rewrite Heq, HasSuffix_app in Hf. }
  assert (Name f +:+ ":meta" ≠ name +:+ ":meta").
  { intros Heq. by apply string_app_inj_r in Heq. }
  destruct Hcase as [->|[-> _]]; simpl;
    by rewrite ?lookup_delete_ne by done.
Qed.

Lemma sweep_fold_keeps config now name mf d0 files d n t :
  is_meta name = false →
  readMetaFile d0 (name +:+ ":meta") = Some mf → unexpired now (Expires mf) →
  d !! name = d0 !! name → d !! (name +:+ ":meta") = d0 !! (name +:+ ":meta") →
  let d' := (foldl (sweep_step config now) (d, n, t) files).1.1 in
  d' !! name = d0 !! name ∧ d' !! (name +:+ ":meta") = d0 !! (name +:+ ":meta").
Proof.
  intros Hname Hmf Hlive. revert d n t.
  induction files as [|f files IH]; intros d n t Hd Hdm; [done|].
  simpl.
  pose proof (sweep_step_keeps config now name mf d0 d n t f Hname Hmf Hlive Hd Hdm)
    as [Hd' Hdm'].
  destruct (sweep_step config now (d, n, t) f) as [[d' n'] t'].
  by apply IH.
Qed.

Lemma updateStatsAndExpire_keeps config now err m name mf :
  is_meta name = false →
  readMetaFile (disk m) (name +:+ ":meta") = Some mf →
  unexpired now (Expires mf) →
  disk (updateStatsAndExpire config now err m) !! name = disk m !! name
  ∧ disk (updateStatsAndExpire config now err m) !! (name +:+ ":meta")
    = disk m !! (name +:+ ":meta").
Proof.
  intros Hname Hmf Hlive. unfold updateStatsAndExpire. destruct err; [done|].
  simpl.
  pose proof (sweep_fold_keeps config now name mf (disk m) (ReadDir (disk m))
                (disk m) 0 0 Hname Hmf Hlive eq_refl eq_refl) as Hk.
  by destruct (foldl _ _ _) as [[d n] t].
Qed.

(** In a directory of live entries the sweep deletes nothing and counts
    every entry that is not a metadata side-file. *)
Lemma sweep_fold_live config now T d files n t :
  now ≤ T → live_dir T d →
  Forall (λ f, is_Some (d !! Name f)) files →
  ∃ t', foldl (sweep_step config now) (d, n, t) files
        = (d, n + Z.of_nat (length (filter (λ f, is_meta (Name f) = false) files)), t').
Proof.
  intros Hnow Hlive. revert n t.
  induction files as [|f files IH]; intros n t Hfiles.
  - exists t. simpl. f_equal. f_equal. lia.
  - apply Forall_cons in Hfiles as [[nd Hf] Hfiles]. simpl.
    rewrite filter_cons, sweep_step_unfold.
    destruct (HasSuffix (Name f) ":meta") eqn:Hmeta.
    + destruct (decide (is_meta (Name f) = false)) as [Hc|_];
        [unfold is_meta in Hc; congruence|].
      by apply IH.
    + destruct (decide (is_meta (Name f) = false)) as [_|Hc]; [|done].
      destruct (Hlive _ _ Hf Hmeta) as (mf & Hmf & Hun).
      unfold maybeExpire.
      rewrite (isExpired_unexpired _ _ _ _ _ mf Hmf (unexpired_mono _ _ _ Hnow Hun)).
      simpl. destruct (IH (n + 1) (wrap64 (t + Size f)) Hfiles) as [t' ->].
      exists t'. f_equal. f_equal. simpl. lia.
Qed.

Lemma updateStatsAndExpire_live config now T m :
  now ≤ T → live_dir T (disk m) →
  disk (updateStatsAndExpire config now false m) = disk m
  ∧ value (countLimiter (updateStatsAndExpire config now false m))
    = content_count (disk m).
Proof.
  intros Hnow Hlive. unfold updateStatsAndExpire. simpl.
  destruct (sweep_fold_live config now T (disk m) (ReadDir (disk m)) 0 0 Hnow Hlive)
    as [t' ->].
  - apply Forall_forall. intros f (n & Hf & _)%elem_of_ReadDir. eauto.
  - simpl. by rewrite ReadDir_count.
Qed.

Lemma updateStatsAndExpire_limits config now err m :
  limit (countLimiter (updateStatsAndExpire config now err m))
  = limit (countLimiter m)
  ∧ limit (sizeLimiter (updateStatsAndExpire config now err m))
    = limit (sizeLimiter m).
Proof.
  unfold updateStatsAndExpire. destruct err; [done|].
  by destruct (foldl _ _ _) as [[d n] t].
Qed.

(** The slip in [maybeExpire]: an expired file without a metadata file is
    removed, and reported as not removed. *)
Lemma maybeExpire_without_metadata config now f d n :
  d !! Name f = Some n → d !! (Name f +:+ ":meta") = None →
  isExpired config now d f (Name f +:+ ":meta") = true →
  maybeExpire config now f d = (false, delete (Name f) d).
Proof.
  intros Hf Hm Hexp. unfold maybeExpire, os_Remove. rewrite Hexp, Hf. simpl.
  by rewrite lookup_delete_ne, Hm by apply name_ne_meta.
Qed.

End Sweep.

(** C9: a sweep over a directory holding one expired file that has no
    metadata file removes the file and then sets the two limiters to one
    file and five bytes, where no file survives. *)
Theorem C9_sweep_counts_removed_file :
  let m := updateStatsAndExpire example_config_maxage (1700000000 * Second) false
             (newServer example_config_maxage example_disk_stale) in
  disk m = ∅ ∧ value (countLimiter m) = 1 ∧ value (sizeLimiter m) = 5.
Proof. vm_compute. done. Qed.

(** * Steps of a handler *)

Lemma modify_run f m : modify f m = (Done (), f m).
Proof. done. Qed.

Lemma gets_run {A} (f : machine → A) m : gets f m = (Done (f m), m).
Proof. done. Qed.

Lemma lift_err_Done {A} (r : error + A) m a m' :
  lift_err r m = (Done a, m') → r = inr a ∧ m' = m.
Proof. destruct r; simpl; [done|]. by intros [= -> ->]. Qed.

Lemma lift_err_not_Blocked {A} (r : error + A) m m' : lift_err r m ≠ (Blocked, m').
Proof. by destruct r. Qed.

Lemma with_defer_Done {A} d (body : M A) m a m1 :
  body m = (Done a, m1) → with_defer d body m = (Done a, d m1).
Proof. intros Hb. unfold with_defer. by rewrite Hb. Qed.

Lemma with_defer_Fail {A} d (body : M A) m err m1 :
  body m = (Fail err, m1) → with_defer d body m = (Fail err, d m1).
Proof. intros Hb. unfold with_defer. by rewrite Hb. Qed.

Lemma with_defer_Done_inv {A} d (body : M A) m a m' :
  with_defer d body m = (Done a, m') → ∃ m1, body m = (Done a, m1) ∧ m' = d m1.
Proof.
  unfold with_defer. destruct (body m) as [[a'|err|] m1]; [|done..].
  intros [= -> <-]. eauto.
Qed.

Lemma on_error_Done_inv {A} cleanup (c : M A) m a m' :
  on_error cleanup c m = (Done a, m') → c m = (Done a, m').
Proof. unfold on_error. by destruct (c m) as [[a'|err|] m1]. Qed.

Lemma same_server_refl m : same_server m m.
Proof. done. Qed.

Lemma same_server_trans m1 m2 m3 :
  same_server m1 m2 → same_server m2 m3 → same_server m1 m3.
Proof. unfold same_server. intros (-> & -> & -> & ->) (-> & -> & -> & ->). done. Qed.

Lemma fresh_response_same m : same_server m (fresh_response m).
Proof. done. Qed.

Lemma writes_only_bind {A B} (c : M A) (k : A → M B) :
  writes_only c → (∀ a, writes_only (k a)) → writes_only (c ≫= k).
Proof.
  intros Hc Hk m o m'. unfold mbind, M_bind.
  destruct (c m) as [[a|err|] m1] eqn:E; destruct (Hc _ _ _ E) as [Hs Hb].
  - intros Hka. destruct (Hk _ _ _ _ Hka). split; [|done].
    by eapply same_server_trans.
  - by intros [= <- <-].
  - done.
Qed.

Section Handlers.
Context `{Services}.

Lemma writes_only_Header_Set k v : writes_only (Header_Set k v).
Proof. intros m o m' [= <- <-]. done. Qed.

Lemma writes_only_w_Write e p : writes_only (w_Write e p).
Proof. intros m o m'. unfold w_Write. destruct (client_gone e); by intros [= <- <-]. Qed.

Lemma writes_only_w_Write_ e p : writes_only (w_Write_ e p).
Proof. intros m o m'. unfold w_Write_. destruct (client_gone e); by intros [= <- <-]. Qed.

Lemma writes_only_repeat n (c : M unit) : writes_only c → writes_only (repeat_M n c).
Proof.
  intros Hc. induction n as [|n IH]; simpl.
  - by intros m o m' [= <- <-].
  - by apply writes_only_bind.
Qed.

Lemma writes_only_writePutOutput config e id expires ttl format :
  writes_only (writePutOutput config e id expires ttl format).
Proof.
  unfold writePutOutput. destruct (GenerateClipURL config id ttl).
  - do 3 (apply writes_only_bind; [apply writes_only_Header_Set|intros _]).
    apply writes_only_bind; [|intros _].
    + destruct (bool_decide _); apply writes_only_w_Write.
    + apply writes_only_repeat, writes_only_w_Write_.
  - by intros m o m' [= <- <-].
Qed.

(** ** The copy of the body *)

Lemma Add_value l n l' : Add l n = Some l' → value l' = value l + n ∧ limit l' = limit l.
Proof. unfold Add. case_match; [|done]. by intros [= <-]. Qed.

Lemma Add_within l n l' : Add l n = Some l' → 0 < limit l → value l' ≤ limit l.
Proof.
  unfold Add. destruct (limit l =? 0) eqn:E0; simpl.
  - apply Z.eqb_eq in E0. lia.
  - destruct (value l + n <=? limit l) eqn:E; [|done].
    apply Z.leb_le in E. intros [= <-]. simpl. lia.
Qed.

Lemma Add_breach l n : 0 < limit l → limit l < value l + n → Add l n = None.
Proof.
  intros Hl Hn. unfold Add.
  destruct (limit l =? 0) eqn:E0; [apply Z.eqb_eq in E0; lia|].
  destruct (value l + n <=? limit l) eqn:E; [apply Z.leb_le in E; lia|done].
Qed.

(** A copy without an error has written every byte of the body. *)
Lemma io_Copy_ok sink fl sl written cs rf written' sl' :
  io_Copy sink fl sl written cs rf = (written', sl', None) →
  written' = written ++ mjoin cs ∧ limit sl' = limit sl.
Proof.
  revert sink fl sl written. induction cs as [|c cs IH]; intros sink fl sl written.
  - simpl. destruct rf; [done|]. intros [= <- <-]. by rewrite app_nil_r.
  - simpl. destruct c as [|b c]; [apply IH|].
    destruct (limitWriter_charge fl sl _) as [[fl1 sl1]|] eqn:Hc; [|done].
    assert (limit sl1 = limit sl) as Hl.
    { unfold limitWriter_charge in Hc.
      destruct (Add fl _); [|done]. simpl in Hc.
      destruct (Add sl _) eqn:Hs; [|done]. injection Hc as <- <-.
      by apply Add_value in Hs as []. }
    destruct sink as [[|k]|]; [done| |];
      intros [-> Hl']%IH; rewrite <- app_assoc; split; congruence.
Qed.

(** A destination that takes every write, and a body that breaches one
    of the two caps: the copy ends with [errLimitReached]. *)
Lemma io_Copy_breach fl sl written cs rf :
  0 < Z.of_nat (length (mjoin cs)) →
  (0 < limit fl ∧ limit fl < value fl + Z.of_nat (length (mjoin cs)))
  ∨ (0 < limit sl ∧ limit sl < value sl + Z.of_nat (length (mjoin cs))) →
  ∃ written' sl',
    io_Copy None fl sl written cs rf = (written', sl', Some errLimitReached).
Proof.
  revert fl sl written. induction cs as [|c cs IH]; intros fl sl written Hpos Hcap.
  - simpl in Hpos. lia.
  - simpl. destruct c as [|b c]; [by apply IH|].
    set (n := Z.of_nat (length (b :: c))).
    assert (Hlen : Z.of_nat (length (mjoin ((b :: c) :: cs)))
                   = n + Z.of_nat (length (mjoin cs))).
    { subst n. change (mjoin ((b :: c) :: cs)) with ((b :: c) ++ mjoin cs).
      rewrite length_app. lia. }
    rewrite Hlen in Hcap, Hpos.
    unfold limitWriter_charge.
    destruct (Add fl n) as [fl1|] eqn:Hfl; simpl; [|eauto].
    destruct (Add sl n) as [sl1|] eqn:Hsl; simpl; [|eauto].
    destruct (Add_value _ _ _ Hfl) as [Hv1 Hl1].
    destruct (Add_value _ _ _ Hsl) as [Hv2 Hl2].
    apply IH.
    + destruct Hcap as [[Hl Hc]|[Hl Hc]].
      * pose proof (Add_within _ _ _ Hfl Hl). lia.
      * pose proof (Add_within _ _ _ Hsl Hl). lia.
    + destruct Hcap as [[Hl Hc]|[Hl Hc]]; [left|right]; lia.
Qed.

(** ** From the deferred sweep on *)

Lemma put_copy_breach config e stream id file body expires ttl format pipe m :
  default None pipe = None →
  exceeds_caps config (sizeLimiter m) body →
  ∃ m', put_copy config e stream id file body expires ttl format pipe m
        = (Fail ErrHTTPPayloadTooLarge, m')
    ∧ disk m' !! file = None.
Proof.
  intros Hpipe [Hpos Hcap].
  destruct (io_Copy_breach (newLimiter (FileSizeLimit config)) (sizeLimiter m) []
              (chunks body) (read_fails body) Hpos) as (written & sl' & Hio).
  { destruct Hcap as [Hc|Hc]; [left|right]; simpl; unfold body_length, body_bytes in Hc; lia. }
  unfold put_copy. rewrite Hpipe.
  destruct pipe as [sink|]; (eexists; split;
    [apply with_defer_Fail; unfold mbind, M_bind, gets; rewrite Hio; reflexivity
    |apply updateStatsAndExpire_absent; simpl; apply lookup_delete_eq]).
Qed.

Lemma put_copy_not_Blocked config e stream id file body expires ttl format pipe m m' :
  put_copy config e stream id file body expires ttl format pipe m ≠ (Blocked, m').
Proof.
  unfold put_copy, with_defer, mbind, M_bind, gets.
  destruct (io_Copy _ _ _ _ _ _) as [[written sl'] err].
  destruct pipe, err as [[]|]; simpl; try done;
    destruct (close_fails body); simpl; try done;
    destruct stream; simpl; try done;
    unfold on_error;
    destruct (writePutOutput _ _ _ _ _ _ _) as [[]] eqn:E; try done;
    by apply writes_only_writePutOutput in E as [_ ?].
Qed.

(** A plain upload that returns [nil] has written the whole body to the
    file, and then the deferred sweep has run. *)
Lemma put_copy_Done config e stream id file body expires ttl format m m' :
  put_copy config e stream id file body expires ttl format None m = (Done (), m') →
  ∃ m1, m' = updateStatsAndExpire config (now_done e) (readdir_fails e) m1
    ∧ disk m1 = <[file := Regular (body_bytes body) (now e)]> (disk m)
    ∧ countLimiter m1 = countLimiter m
    ∧ visitors m1 = visitors m
    ∧ limit (sizeLimiter m1) = limit (sizeLimiter m).
Proof.
  unfold put_copy. intros (m1 & Hbody & ->)%with_defer_Done_inv.
  exists m1. split; [done|]. revert Hbody.
  unfold mbind, M_bind, gets. simpl.
  destruct (io_Copy _ _ _ _ _ _) as [[written sl'] err] eqn:Hio. simpl.
  destruct err as [[]|]; try done.
  apply io_Copy_ok in Hio as [-> Hlim]. simpl in Hlim.
  destruct (close_fails body); [done|].
  destruct stream; simpl.
  - intros [= <-]. done.
  - intros Hw%on_error_Done_inv.
    apply writes_only_writePutOutput in Hw as [(Hc & Hs & Hv & Hd) _].
    simpl in *. rewrite Hc, Hs, Hv, Hd. done.
Qed.

End Handlers.

(** * The upload handler up to the open destination *)

Section Setup.
Context `{Services}.

Lemma getClipboardFile_inr id file metafile :
  getClipboardFile id = inr (file, metafile) →
  (id ∉ reservedFiles) ∧ file = id ∧ metafile = id +:+ ":meta".
Proof.
  unfold getClipboardFile. case_bool_decide; [done|]. by intros [= <- <-].
Qed.

Lemma getClipboardFile_ok id :
  id ∉ reservedFiles → getClipboardFile id = inr (id, id +:+ ":meta").
Proof. intros Hid. unfold getClipboardFile. by rewrite bool_decide_eq_false_2. Qed.

Lemma getVisitor_run e r m :
  ∃ v, getVisitor e r m
       = (Done (visitor_key r), set_visitors (insert (visitor_key r) v) m)
    ∧ visitorCountLimiter v
      = default (newLimiter visitorCountLimit)
          (visitorCountLimiter <$> visitors m !! visitor_key r).
Proof.
  unfold getVisitor. destruct (visitors m !! visitor_key r) as [v|]; simpl; eauto.
Qed.

(** The count check of a new entry: one [Add(1)] on the global limiter,
    nothing else. *)
Lemma put_charge_new e r file metafile m :
  disk m !! file = None →
  put_charge e r file metafile m
  = match Add (countLimiter m) 1 with
    | Some l => (Done (), set_countLimiter (λ _, l) m)
    | None => (Fail ErrHTTPTooManyRequests, m)
    end.
Proof.
  intros Hf. unfold put_charge, mbind, M_bind, gets. rewrite Hf.
  unfold count_Add. by destruct (Add (countLimiter m) 1).
Qed.

(** The count check of an existing entry: one [Add(1)] on the limiter of
    the requesting visitor; the global limiters and the directory are as
    before. *)
Lemma put_charge_existing e r file metafile m n o m' :
  disk m !! file = Some n →
  put_charge e r file metafile m = (o, m') →
  countLimiter m' = countLimiter m ∧ sizeLimiter m' = sizeLimiter m
  ∧ disk m' = disk m ∧ w_header m' = w_header m ∧ w_body m' = w_body m
  ∧ o ≠ Blocked
  ∧ (∀ ip, ip ≠ visitor_key r → visitors m' !! ip = visitors m !! ip)
  ∧ match Add (default (newLimiter visitorCountLimit)
                 (visitorCountLimiter <$> visitors m !! visitor_key r)) 1 with
    | None => o = Fail ErrHTTPTooManyRequests
    | Some l =>
        visitorCountLimiter <$> visitors m' !! visitor_key r = Some l
        ∧ o = match readMetaFile (disk m) metafile with
              | None => Fail (errIO "readMetaFile")
              | Some mf =>
                  if bool_decide (Mode mf = modeReadOnly)
                  then Fail ErrHTTPMethodNotAllowed else Done ()
              end
    end.
Proof.
  intros Hf. unfold put_charge, mbind, M_bind, gets. rewrite Hf.
  destruct (getVisitor_run e r m) as (v & -> & Hv). rewrite <- Hv.
  unfold visitor_Add. simpl. rewrite lookup_insert_eq.
  destruct (Add (visitorCountLimiter v) 1) as [l|]; simpl.
  - destruct (readMetaFile (disk m) metafile) as [mf|]; simpl.
    + destruct (bool_decide (Mode mf = modeReadOnly)); intros [= <- <-]; simpl;
        rewrite lookup_insert_eq; repeat split; try done;
        intros ip Hip; by rewrite !lookup_insert_ne.
    + intros [= <- <-]; simpl.
      rewrite lookup_insert_eq; repeat split; try done;
        intros ip Hip; by rewrite !lookup_insert_ne.
  - intros [= <- <-]; simpl. repeat split; try done.
    intros ip Hip; by rewrite !lookup_insert_ne.
Qed.

Lemma put_charge_frame e r file metafile m o m' :
  put_charge e r file metafile m = (o, m') →
  sizeLimiter m' = sizeLimiter m ∧ disk m' = disk m
  ∧ limit (countLimiter m') = limit (countLimiter m)
  ∧ w_header m' = w_header m ∧ w_body m' = w_body m ∧ o ≠ Blocked.
Proof.
  destruct (disk m !! file) as [n|] eqn:Hf.
  - intros Hc. destruct (put_charge_existing _ _ _ _ _ _ _ _ Hf Hc)
      as (-> & -> & -> & -> & -> & ? & _). done.
  - rewrite (put_charge_new _ _ _ _ _ Hf).
    destruct (Add (countLimiter m) 1) as [l|] eqn:Hadd; intros [= <- <-]; [|done].
    apply Add_value in Hadd as [_ Hl]. done.
Qed.

(** A set-up that returns has made the metadata file and an empty regular
    file; the request was not a streaming one. *)
Lemma put_setup_Done config e r id m x m1 :
  put_setup config e r id m = (Done x, m1) →
  ∃ body mode ttl ma,
    (id ∉ reservedFiles) ∧ Body r = Some body
    ∧ getFileMode config r = inr mode ∧ getTTL config r = inr ttl
    ∧ isStream r = false
    ∧ x = (id, body, expires_at e ttl, ttl, outputFormat r)
    ∧ put_charge e r id (id +:+ ":meta") m = (Done (), ma)
    ∧ countLimiter m1 = countLimiter ma ∧ sizeLimiter m1 = sizeLimiter m
    ∧ visitors m1 = visitors ma
    ∧ w_header m1 = w_header m ∧ w_body m1 = w_body m
    ∧ disk m1
      = <[id := Regular [] (now e)]>
          (<[id +:+ ":meta" :=
               Regular (json_Encode_metaFile
                          {| Mode := mode; Expires := expires_at e ttl |}) (now e)]>
             (disk m)).
Proof.
  unfold put_setup. intros Hrun.
  destruct (getClipboardFile id) as [|[file metafile]] eqn:Hid; [done|].
  apply getClipboardFile_inr in Hid as (Hid & -> & ->).
  destruct (Body r) as [body|]; [|done].
  apply bind_Done_inv in Hrun as ([] & ma & Hcharge & Hrun).
  destruct (put_charge_frame _ _ _ _ _ _ _ Hcharge) as (Hs & Hd & _ & Hwh & Hwb & _).
  apply bind_Done_inv in Hrun as ([] & mb & [= <-] & Hrun).
  apply bind_Done_inv in Hrun as ([] & mc & [= <-] & Hrun).
  apply bind_Done_inv in Hrun as (mode & md & [Hmode ->]%lift_err_Done & Hrun).
  apply bind_Done_inv in Hrun as (ttl & me & [Httl ->]%lift_err_Done & Hrun).
  apply bind_Done_inv in Hrun as ([] & mf & Hmeta & Hrun).
  destruct (open_meta_fails e); [done|]. injection Hmeta as <-.
  apply bind_Done_inv in Hrun as ([] & mg & Hstream & Hrun).
  apply bind_Done_inv in Hrun as ([] & mh & Hopen & [= <- <-]).
  exists body, mode, ttl, ma.
  destruct (isStream r) eqn:Hst.
  - (* a streaming request blocks in the open *)
    apply bind_Done_inv in Hstream as ([] & mi & Hfifo & Hout).
    destruct (mkfifo_fails e); [done|]. injection Hfifo as <-.
    apply on_error_Done_inv, writes_only_writePutOutput in Hout
      as [(_ & _ & _ & Hdisk) _].
    unfold open_destination in Hopen. destruct (open_file_fails e); [done|].
    rewrite Hdisk in Hopen. simpl in Hopen. by rewrite lookup_insert_eq in Hopen.
  - injection Hstream as <-.
    unfold open_destination in Hopen. destruct (open_file_fails e); [done|].
    simpl in Hopen.
    rewrite lookup_insert_ne, lookup_delete_ne, lookup_delete_eq in Hopen
      by (apply not_eq_sym, name_ne_meta).
    injection Hopen as <-. simpl.
    repeat split; try done.
    rewrite Hd. apply map_eq. intros k.
    destruct (decide (k = id)) as [->|Hk]; [by rewrite !lookup_insert_eq|].
    rewrite !(lookup_insert_ne _ id) by done.
    destruct (decide (k = id +:+ ":meta")) as [->|Hk'];
      [by rewrite !lookup_insert_eq|].
    by rewrite !lookup_insert_ne, !lookup_delete_ne.
Qed.

(** A set-up that blocks is a streaming one: the pipe has been made, the
    early response written, and the upload is parked in the pipe. *)
Lemma put_setup_Blocked config e r id m m1 :
  put_setup config e r id m = (Blocked, m1) →
  ∃ body t,
    (id ∉ reservedFiles) ∧ Body r = Some body ∧ isStream r = true
    ∧ disk m1 !! id = Some (Fifo (Some body) t).
Proof.
  unfold put_setup. intros Hrun.
  destruct (getClipboardFile id) as [|[file metafile]] eqn:Hid; [done|].
  apply getClipboardFile_inr in Hid as (Hid & -> & ->).
  destruct (Body r) as [body|]; [|done].
  apply bind_Blocked_inv in Hrun as [Hrun|([] & ma & Hcharge & Hrun)].
  { by apply put_charge_frame in Hrun as (_ & _ & _ & _ & _ & ?). }
  apply bind_Blocked_inv in Hrun as [Hrun|([] & mb & [= <-] & Hrun)]; [done|].
  apply bind_Blocked_inv in Hrun as [Hrun|([] & mc & [= <-] & Hrun)]; [done|].
  apply bind_Blocked_inv in Hrun
    as [Hrun|(mode & md & [Hmode ->]%lift_err_Done & Hrun)].
  { by apply lift_err_not_Blocked in Hrun. }
  apply bind_Blocked_inv in Hrun
    as [Hrun|(ttl & me & [Httl ->]%lift_err_Done & Hrun)].
  { by apply lift_err_not_Blocked in Hrun. }
  apply bind_Blocked_inv in Hrun as [Hrun|([] & mf & Hmeta & Hrun)].
  { by destruct (open_meta_fails e). }
  destruct (open_meta_fails e); [done|]. injection Hmeta as <-.
  apply bind_Blocked_inv in Hrun as [Hrun|([] & mg & Hstream & Hrun)].
  { destruct (isStream r); [|done].
    apply bind_Blocked_inv in Hrun as [Hrun|([] & mi & Hfifo & Hout)].
    - by destruct (mkfifo_fails e).
    - unfold on_error in Hout.
      destruct (writePutOutput _ _ _ _ _ _ _) as [[]] eqn:E; try done.
      by apply writes_only_writePutOutput in E as [_ ?]. }
  apply bind_Blocked_inv in Hrun as [Hopen|([] & mh & Hopen & Hrun)]; [|done].
  unfold open_destination in Hopen. destruct (open_file_fails e); [done|].
  destruct (isStream r) eqn:Hst.
  - destruct (disk mg !! id) as [[|w t]|] eqn:Hn; try done.
    injection Hopen as <-. exists body, t. simpl.
    by rewrite lookup_insert_eq.
  - injection Hstream as <-. simpl in Hopen.
    rewrite lookup_insert_ne, lookup_delete_ne, lookup_delete_eq in Hopen
      by (apply not_eq_sym, name_ne_meta).
    done.
Qed.

(** ** The whole upload *)

Lemma handleClipboardPut_Done config e r id m m' :
  handleClipboardPut config e r id m = (Done (), m') →
  ∃ body mode ttl ma m1,
    (id ∉ reservedFiles) ∧ Body r = Some body
    ∧ getFileMode config r = inr mode ∧ getTTL config r = inr ttl
    ∧ isStream r = false
    ∧ put_charge e r id (id +:+ ":meta") m = (Done (), ma)
    ∧ m' = updateStatsAndExpire config (now_done e) (readdir_fails e) m1
    ∧ countLimiter m1 = countLimiter ma ∧ visitors m1 = visitors ma
    ∧ limit (sizeLimiter m1) = limit (sizeLimiter m)
    ∧ disk m1
      = <[id := Regular (body_bytes body) (now e)]>
          (<[id +:+ ":meta" :=
               Regular (json_Encode_metaFile
                          {| Mode := mode; Expires := expires_at e ttl |}) (now e)]>
             (disk m)).
Proof.
  unfold handleClipboardPut.
  intros (x & ms & Hsetup & Hcopy)%bind_Done_inv.
  apply put_setup_Done in Hsetup
    as (body & mode & ttl & ma & Hid & Hbody & Hmode & Httl & Hst & -> & Hcharge
        & Hc & Hs & Hv & _ & _ & Hd).
  rewrite Hst in Hcopy.
  apply put_copy_Done in Hcopy as (m1 & -> & Hd1 & Hc1 & Hv1 & Hl1).
  exists body, mode, ttl, ma, m1. repeat split; try done; try congruence.
  rewrite Hd1, Hd. apply insert_insert_eq.
Qed.

Lemma handleClipboardPut_Blocked config e r id m m1 :
  handleClipboardPut config e r id m = (Blocked, m1) →
  ∃ body t,
    (id ∉ reservedFiles) ∧ Body r = Some body ∧ isStream r = true
    ∧ disk m1 !! id = Some (Fifo (Some body) t).
Proof.
  unfold handleClipboardPut.
  intros [Hsetup|(x & ms & _ & Hcopy)]%bind_Blocked_inv.
  - by apply put_setup_Blocked in Hsetup.
  - destruct x as [[[[file body] expires] ttl] format].
    by apply put_copy_not_Blocked in Hcopy.
Qed.

End Setup.

(** * Reading an entry *)

Section Reading.
Context `{Services}.

Lemma janitor_cons config tb sweeps m :
  janitor config (tb :: sweeps) m
  = janitor config sweeps (updateStatsAndExpire config tb.1 tb.2 m).
Proof. reflexivity. Qed.

Lemma janitor_absent config sweeps m name :
  disk m !! name = None → disk (janitor config sweeps m) !! name = None.
Proof.
  revert m. induction sweeps as [|tb sweeps IH]; intros m Hn; [done|].
  rewrite janitor_cons. by apply IH, updateStatsAndExpire_absent.
Qed.

Lemma handleClipboardGet_absent config e id m :
  id ∉ reservedFiles → disk m !! id = None →
  handleClipboardGet config e id m = (Fail ErrHTTPNotFound, m).
Proof.
  intros Hid Hn. unfold handleClipboardGet. rewrite (getClipboardFile_ok _ Hid).
  unfold mbind, M_bind, gets. by rewrite Hn.
Qed.

Lemma handleClipboardGet_regular config e id m content t :
  id ∉ reservedFiles → disk m !! id = Some (Regular content t) →
  client_gone e = false →
  ∃ m', handleClipboardGet config e id m = (Done (), m')
    ∧ w_body m' = w_body m ++ content ∧ same_server m m'.
Proof.
  intros Hid Hn He. unfold handleClipboardGet. rewrite (getClipboardFile_ok _ Hid).
  unfold mbind, M_bind, gets, Header_Set, modify, w_Write. rewrite Hn, He.
  destruct content as [|b content]; eexists; (split; [reflexivity|]); simpl.
  - by rewrite app_nil_r.
  - done.
Qed.

(** A read of a pipe that returns has removed the pipe. *)
Lemma handleClipboardGet_pipe config e id m w t m' :
  id ∉ reservedFiles → disk m !! id = Some (Fifo w t) →
  handleClipboardGet config e id m = (Done (), m') →
  disk m' !! id = None.
Proof.
  intros Hid Hn. unfold handleClipboardGet. rewrite (getClipboardFile_ok _ Hid).
  intros (stat & m0 & [= <- <-] & Hrun)%bind_Done_inv. rewrite Hn in Hrun.
  destruct w as [body|]; [|done].
  apply bind_Done_inv in Hrun as ([] & m1 & _ & Hrun).
  apply bind_Done_inv in Hrun as (sl & m2 & _ & Hrun).
  destruct (io_Copy _ _ _ _ _ _) as [[piped sl'] err].
  apply bind_Done_inv in Hrun as (res & m3 & _ & Hrun).
  apply bind_Done_inv in Hrun as ([] & m4 & _ & [= <-]).
  simpl. apply lookup_delete_eq.
Qed.

(** C8: an entry made by a streaming upload is a pipe with the upload
    parked in it; a read that drains it removes the pipe, and every later
    read, whatever sweeps ran in between, finds nothing. *)
Theorem C8_streamed_entry_read_once config e r id m0 m e1 m1 :
  handleClipboardPut config e r id m0 = (Blocked, m) →
  handleClipboardGet config e1 id (fresh_response m) = (Done (), m1) →
  disk m1 !! id = None
  ∧ ∀ sweeps e2,
      handleClipboardGet config e2 id (fresh_response (janitor config sweeps m1))
      = (Fail ErrHTTPNotFound, fresh_response (janitor config sweeps m1)).
Proof.
  intros (body & t & Hid & _ & _ & Hfifo)%handleClipboardPut_Blocked Hget.
  assert (Hgone : disk m1 !! id = None).
  { eapply (handleClipboardGet_pipe _ _ _ (fresh_response m)); [done| |exact Hget].
    exact Hfifo. }
  split; [done|]. intros sweeps e2.
  apply handleClipboardGet_absent; [done|]. simpl.
  by apply janitor_absent.
Qed.

(** ** Size caps *)

(** C7: an upload whose body breaches the per-upload cap or the global
    size cap is reported as 413 and leaves no file under its name, whether
    it writes to a regular file or, resumed by a reader, into a pipe. *)
Theorem C7_cap_breach config sl body :
  exceeds_caps config sl body →
  (∀ e r id m x m1,
     Body r = Some body → sizeLimiter m = sl →
     put_setup config e r id m = (Done x, m1) →
     ∃ m', handleClipboardPut config e r id m
           = (Fail ErrHTTPPayloadTooLarge, m')
       ∧ disk m' !! id = None)
  ∧ (∀ e id m,
       sizeLimiter m = sl →
       ∃ m', resume_writer config e id body None m
             = (Done (Some ErrHTTPPayloadTooLarge), m')
         ∧ disk m' !! id = None).
Proof.
  intros Hcap. split.
  - intros e r id m x m1 Hbody Hsl Hsetup. unfold handleClipboardPut.
    rewrite (bind_Done _ _ _ _ _ Hsetup).
    apply put_setup_Done in Hsetup
      as (body' & mode & ttl & ma & _ & Hbody' & _ & _ & _ & -> & _ & _ & Hs & _).
    assert (body' = body) as -> by congruence.
    apply put_copy_breach; [done|]. by rewrite Hs, Hsl.
  - intros e id m Hsl. unfold resume_writer.
    destruct (put_copy_breach config e true id id body 0 0 "text" (Some None) m)
      as (m' & -> & Hd); [done|by rewrite Hsl|]. eauto.
Qed.

End Reading.

Lemma C7_cap_breach_witness :
  ∃ m', handleClipboardPut example_config example_env
          (example_put "hello world")
          "abc123" (newServer example_config ∅)
        = (Fail ErrHTTPPayloadTooLarge, m')
    ∧ disk m' !! "abc123" = None.
Proof.
  assert (Hcap : exceeds_caps example_config
                   (sizeLimiter (newServer example_config ∅))
                   (example_body "hello world")).
  { unfold exceeds_caps. vm_compute. split; [done|]. left. done. }
  eapply (proj1 (C7_cap_breach example_config _ _ Hcap) example_env).
  - reflexivity.
  - reflexivity.
  - vm_compute. reflexivity.
Defined.

Lemma C8_streamed_entry_read_once_witness :
  let put :=
    handleClipboardPut example_config example_env
      (example_put_stream "hello")
      "abc123" (newServer example_config ∅) in
  let get := handleClipboardGet example_config example_env "abc123"
               (fresh_response put.2) in
  put.1 = Blocked ∧ get.1 = Done ()
  ∧ w_body get.2 = bytes_of "hello"
  ∧ disk get.2 !! "abc123" = None
  ∧ handleClipboardGet example_config example_env "abc123"
      (fresh_response (janitor example_config [] get.2))
    = (Fail ErrHTTPNotFound, fresh_response (janitor example_config [] get.2)).
Proof.
  intros put get.
  assert (Hput : put = (Blocked, put.2)) by (vm_compute; reflexivity).
  assert (Hget : get = (Done (), get.2)) by (vm_compute; reflexivity).
  destruct (C8_streamed_entry_read_once example_config example_env _ "abc123"
              _ _ example_env _ Hput Hget) as [Hgone Hlater].
  split; [by rewrite Hput|]. split; [by rewrite Hget|].
  split; [vm_compute; reflexivity|]. split; [exact Hgone|].
  exact (Hlater [] example_env).
Defined.

(** * Failure of the streaming set-up *)

Section StreamSetup.
Context `{Services}.

Lemma writePutOutput_fails config e id expires ttl format m :
  client_gone e = true ∨ GenerateClipURL config id ttl = None →
  ∃ err m', writePutOutput config e id expires ttl format m = (Fail err, m')
    ∧ same_server m m'.
Proof.
  intros Hfail.
  destruct (writePutOutput config e id expires ttl format m) as [o m'] eqn:E.
  pose proof (writes_only_writePutOutput _ _ _ _ _ _ _ _ _ E) as [Hs Hb].
  destruct o as [[]|err|]; [|eauto|done]. exfalso.
  unfold writePutOutput in E.
  destruct (GenerateClipURL config id ttl) as [url|]; [|done].
  destruct Hfail as [Hgone|]; [|done].
  do 3 (apply bind_Done_inv in E as ([] & ? & _ & E)).
  apply bind_Done_inv in E as ([] & ? & Hw & _).
  unfold w_Write in Hw. rewrite Hgone in Hw. by destruct (bool_decide _).
Qed.

(** The part of the set-up both kinds of write share: after the count
    check, up to the streaming step. *)
Lemma put_setup_stream_fails config e r id body mode ttl m ma :
  id ∉ reservedFiles → Body r = Some body →
  put_charge e r id (id +:+ ":meta") m = (Done (), ma) →
  getFileMode config r = inr mode → getTTL config r = inr ttl →
  open_meta_fails e = false → isStream r = true →
  mkfifo_fails e = true ∨ client_gone e = true
    ∨ GenerateClipURL config id ttl = None →
  ∃ err m', handleClipboardPut config e r id m = (Fail err, m')
    ∧ countLimiter m' = Sub (countLimiter ma) 1
    ∧ visitors m' = visitors ma.
Proof.
  intros Hid Hbody Hcharge Hmode Httl Hmeta Hst Hfail.
  cut (∃ err m', put_setup config e r id m = (Fail err, m')
         ∧ countLimiter m' = Sub (countLimiter ma) 1 ∧ visitors m' = visitors ma).
  { intros (err & m' & Hrun & Hc & Hv). exists err, m'. split; [|done].
    unfold handleClipboardPut. by apply bind_Fail. }
  unfold put_setup.
  rewrite (getClipboardFile_ok _ Hid), Hbody, Hmode, Httl, Hmeta, Hst.
  rewrite (bind_Done _ _ _ _ _ Hcharge).
  do 5 (erewrite bind_Done; [|reflexivity]).
  destruct (mkfifo_fails e) eqn:Hfifo.
  - do 2 eexists. split; [|split].
    + apply bind_Fail, bind_Fail. erewrite bind_Done; reflexivity.
    + done.
    + done.
  - destruct Hfail as [?|Hfail]; [done|].
    match goal with
    | |- context [on_error ?f (writePutOutput ?c ?e' ?i ?x ?t ?fmt)] =>
        match goal with
        | |- context [(?blk ≫= _) ?mm] =>
            destruct (writePutOutput_fails c e' i x t fmt
                        (set_disk (insert id (Fifo None (now e))) mm) Hfail)
              as (err & m' & Hw & (Hc & _ & Hv & _))
        end
    end.
    exists err, (set_countLimiter (λ l, Sub l 1) m'). split; [|split].
    + apply bind_Fail. erewrite bind_Done; [|reflexivity].
      unfold on_error. by rewrite Hw.
    + simpl. by rewrite Hc.
    + simpl. by rewrite Hv.
Qed.

(** C6: a streaming overwrite whose set-up fails.  The count check has
    charged the put-count limiter of the visitor; the roll-back is taken
    from the global count limiter.  The global counter ends one lower than
    it started, the visitor's one higher. *)
Theorem C6_overwrite_rolls_back_wrong_limiter config e r id body n mf mode ttl
    lim m :
  id ∉ reservedFiles → Body r = Some body →
  disk m !! id = Some n →
  readMetaFile (disk m) (id +:+ ":meta") = Some mf → Mode mf ≠ modeReadOnly →
  Add (default (newLimiter visitorCountLimit)
         (visitorCountLimiter <$> visitors m !! visitor_key r)) 1 = Some lim →
  getFileMode config r = inr mode → getTTL config r = inr ttl →
  open_meta_fails e = false → isStream r = true →
  mkfifo_fails e = true ∨ client_gone e = true
    ∨ GenerateClipURL config id ttl = None →
  ∃ err m', handleClipboardPut config e r id m = (Fail err, m')
    ∧ value (countLimiter m') = value (countLimiter m) - 1
    ∧ visitor_count m' (visitor_key r)
      = Some (value (default (newLimiter visitorCountLimit)
                       (visitorCountLimiter <$> visitors m !! visitor_key r)) + 1).
Proof.
  intros Hid Hbody Hn Hmf Hmode_rw Hadd Hmode Httl Hmeta Hst Hfail.
  destruct (put_charge e r id (id +:+ ":meta") m) as [o ma] eqn:Hcharge.
  destruct (put_charge_existing _ _ _ _ _ _ _ _ Hn Hcharge)
    as (Hc & _ & _ & _ & _ & _ & _ & Hvis).
  rewrite Hadd, Hmf, bool_decide_eq_false_2 in Hvis by done.
  destruct Hvis as [Hv ->].
  destruct (put_setup_stream_fails config e r id body mode ttl m ma
              Hid Hbody Hcharge Hmode Httl Hmeta Hst Hfail)
    as (err & m' & Hrun & Hc' & Hv').
  exists err, m'. split; [done|]. split.
  - rewrite Hc', Hc. done.
  - unfold visitor_count. rewrite Hv'.
    destruct (visitors ma !! visitor_key r) as [v|]; [|done].
    simpl in *. injection Hv as ->. by apply Add_value in Hadd as [-> _].
Qed.

(** The same failure on a new entry: the global count limiter was charged
    and is the one rolled back. *)
Lemma new_entry_stream_failure_rolls_back config e r id body mode ttl lim m :
  id ∉ reservedFiles → Body r = Some body →
  disk m !! id = None → Add (countLimiter m) 1 = Some lim →
  getFileMode config r = inr mode → getTTL config r = inr ttl →
  open_meta_fails e = false → isStream r = true →
  mkfifo_fails e = true ∨ client_gone e = true
    ∨ GenerateClipURL config id ttl = None →
  ∃ err m', handleClipboardPut config e r id m = (Fail err, m')
    ∧ value (countLimiter m') = value (countLimiter m)
    ∧ visitors m' = visitors m.
Proof.
  intros Hid Hbody Hn Hadd Hmode Httl Hmeta Hst Hfail.
  pose proof (put_charge_new e r id (id +:+ ":meta") m Hn) as Hcharge.
  rewrite Hadd in Hcharge.
  destruct (put_setup_stream_fails config e r id body mode ttl m _
              Hid Hbody Hcharge Hmode Httl Hmeta Hst Hfail)
    as (err & m' & Hrun & Hc' & Hv').
  exists err, m'. split; [done|]. split; [|done].
  rewrite Hc'. simpl. apply Add_value in Hadd as [-> _]. lia.
Qed.

End StreamSetup.

Lemma C6_overwrite_rolls_back_wrong_limiter_witness :
  let m := updateStatsAndExpire example_config (1650000000 * Second) false
             (newServer example_config example_disk_one) in
  ∃ err m',
    handleClipboardPut example_config example_env_mkfifo_fails
      (example_put_stream "hello")
      "abc123" m = (Fail err, m')
    ∧ value (countLimiter m) = 1 ∧ value (countLimiter m') = 0
    ∧ visitor_count m "192.0.2.7" = None
    ∧ visitor_count m' "192.0.2.7" = Some 1.
Proof.
  intros m.
  destruct (C6_overwrite_rolls_back_wrong_limiter example_config
              example_env_mkfifo_fails
              (example_put_stream "hello")
              "abc123" (example_body "hello")
              (Regular (bytes_of "hello") (1600000000 * Second))
              {| Mode := "rw"; Expires := 0 |} "rw" 0
              {| value := 1; limit := 10 |} m)
    as (err & m' & Hrun & Hc & Hv).
  - vm_compute. intros Hin. repeat (apply elem_of_cons in Hin as [?|Hin]; [done|]).
    by apply elem_of_nil in Hin.
  - reflexivity.
  - vm_compute. reflexivity.
  - vm_compute. reflexivity.
  - vm_compute. discriminate.
  - vm_compute. reflexivity.
  - vm_compute. reflexivity.
  - vm_compute. reflexivity.
  - reflexivity.
  - vm_compute. reflexivity.
  - left. reflexivity.
  - exists err, m'. split; [exact Hrun|].
    split; [vm_compute; reflexivity|]. split; [rewrite Hc; vm_compute; reflexivity|].
    split; [vm_compute; reflexivity|].
    change "192.0.2.7" with (visitor_key (example_put_stream "hello")).
    rewrite Hv. vm_compute. reflexivity.
Defined.

(** * An upload and the reads after it *)

Section RoundTrip.
Context `{Services}.

Lemma readMetaFile_lookup d d' metafile :
  d' !! metafile = d !! metafile → readMetaFile d' metafile = readMetaFile d metafile.
Proof. unfold readMetaFile. by intros ->. Qed.

Lemma readMetaFile_insert d metafile mf t :
  readMetaFile (<[metafile := Regular (json_Encode_metaFile mf) t]> d) metafile
  = Some mf.
Proof.
  unfold readMetaFile. rewrite lookup_insert_eq. apply json_metaFile_roundtrip.
Qed.

Lemma janitor_keeps config sweeps m name mf :
  is_meta name = false →
  readMetaFile (disk m) (name +:+ ":meta") = Some mf →
  Forall (λ tb, unexpired tb.1 (Expires mf)) sweeps →
  disk (janitor config sweeps m) !! name = disk m !! name.
Proof.
  intros Hname. revert m.
  induction sweeps as [|tb sweeps IH]; intros m Hmf Hlive; [done|].
  apply Forall_cons in Hlive as [Htb Hlive]. rewrite janitor_cons.
  destruct (updateStatsAndExpire_keeps config tb.1 tb.2 m name mf Hname Hmf Htb)
    as [Hk Hkm].
  rewrite IH; [done| |done].
  by rewrite (readMetaFile_lookup _ _ _ Hkm).
Qed.

(** What an upload that returned [nil] leaves under its name. *)
Lemma handleClipboardPut_stored config e r id body m m1 :
  permitted_id id = true → Body r = Some body →
  handleClipboardPut config e r id m = (Done (), m1) →
  unexpired (now_done e) (expiry_of config e r) →
  (id ∉ reservedFiles)
  ∧ disk m1 !! id = Some (Regular (body_bytes body) (now e))
  ∧ ∃ mode, readMetaFile (disk m1) (id +:+ ":meta")
            = Some {| Mode := mode; Expires := expiry_of config e r |}.
Proof.
  intros Hperm Hbody Hput Hlive.
  apply handleClipboardPut_Done in Hput
    as (body' & mode & ttl & ma & m0 & Hid & Hbody' & _ & Httl & _ & _ & -> & _ & _
        & _ & Hd).
  assert (body' = body) as -> by congruence.
  unfold expiry_of in *. rewrite Httl in *.
  assert (Hmf : readMetaFile (disk m0) (id +:+ ":meta")
                = Some {| Mode := mode; Expires := expires_at e ttl |}).
  { rewrite Hd. erewrite readMetaFile_lookup;
      [apply readMetaFile_insert|].
    by rewrite lookup_insert_ne by apply name_ne_meta. }
  destruct (updateStatsAndExpire_keeps config (now_done e) (readdir_fails e) m0 id
              _ (permitted_not_meta _ Hperm) Hmf Hlive) as [Hk Hkm].
  split; [done|]. split.
  - rewrite Hk, Hd. apply lookup_insert_eq.
  - exists mode. by rewrite (readMetaFile_lookup _ _ _ Hkm).
Qed.

(** C2: an upload that returned [nil], followed by a read of the same
    identifier, gives back the bytes of the uploaded body, provided the
    entry has not expired at the sweep the upload ends with, nor at any
    sweep of the janitor in between. *)
Theorem C2_put_then_get config e r id body m m1 sweeps e2 :
  permitted_id id = true → Body r = Some body →
  handleClipboardPut config e r id m = (Done (), m1) →
  unexpired (now_done e) (expiry_of config e r) →
  Forall (λ tb, unexpired tb.1 (expiry_of config e r)) sweeps →
  client_gone e2 = false →
  ∃ m2, handleClipboardGet config e2 id (fresh_response (janitor config sweeps m1))
        = (Done (), m2)
    ∧ w_body m2 = body_bytes body.
Proof.
  intros Hperm Hbody Hput Hlive Hsweeps Hclient.
  destruct (handleClipboardPut_stored _ _ _ _ _ _ _ Hperm Hbody Hput Hlive)
    as (Hid & Hfile & mode & Hmf).
  pose proof (janitor_keeps config sweeps m1 id _ (permitted_not_meta _ Hperm)
                Hmf Hsweeps) as Hkeep.
  rewrite Hfile in Hkeep.
  destruct (handleClipboardGet_regular config e2 id
              (fresh_response (janitor config sweeps m1)) _ _ Hid Hkeep Hclient)
    as (m2 & Hget & Hbytes & _).
  exists m2. split; [done|]. by rewrite Hbytes.
Qed.

End RoundTrip.

Lemma C2_put_then_get_witness :
  let put := handleClipboardPut example_config example_env (example_put "hello")
               "abc123" (newServer example_config ∅) in
  ∃ m2, handleClipboardGet example_config example_env "abc123"
          (fresh_response
             (janitor example_config [(1700000030 * Second, false)] put.2))
        = (Done (), m2)
    ∧ w_body m2 = bytes_of "hello".
Proof.
  intros put.
  assert (Hput : put = (Done (), put.2)) by (vm_compute; reflexivity).
  apply (C2_put_then_get example_config example_env (example_put "hello")
           "abc123" (example_body "hello") (newServer example_config ∅) put.2
           [(1700000030 * Second, false)] example_env).
  - reflexivity.
  - reflexivity.
  - exact Hput.
  - left. vm_compute. discriminate.
  - constructor; [left; vm_compute; discriminate|constructor].
  - reflexivity.
Defined.

(** * A streamed upload and its one read *)

Section Streamed.
Context `{Services}.

Lemma resume_writer_Done config e file body sink m :
  ∃ res m', resume_writer config e file body sink m = (Done res, m').
Proof.
  unfold resume_writer.
  destruct (put_copy _ _ _ _ _ _ _ _ _ _ _) as [[[]|err|] m']; eauto.
Qed.

(** The reader of a pipe receives what the parked upload got through the
    limiting writer: the whole body when the copy ended without an error. *)
Lemma streamed_upload_read config e r id body m0 m e1 :
  handleClipboardPut config e r id m0 = (Blocked, m) →
  Body r = Some body → client_gone e1 = false →
  ∃ m1 written sl' err,
    io_Copy None (newLimiter (FileSizeLimit config)) (sizeLimiter m) []
      (chunks body) (read_fails body) = (written, sl', err)
    ∧ handleClipboardGet config e1 id (fresh_response m) = (Done (), m1)
    ∧ w_body m1 = written
    ∧ (err = None → written = body_bytes body).
Proof.
  intros (body' & t & Hid & Hbody' & _ & Hfifo)%handleClipboardPut_Blocked
    Hbody Hclient.
  assert (body' = body) as -> by congruence.
  destruct (io_Copy None (newLimiter (FileSizeLimit config)) (sizeLimiter m) []
              (chunks body) (read_fails body)) as [[written sl'] err] eqn:Hio.
  unfold handleClipboardGet. rewrite (getClipboardFile_ok _ Hid).
  erewrite bind_Done; [|reflexivity]. simpl. rewrite Hfifo.
  erewrite bind_Done; [|reflexivity].
  erewrite bind_Done; [|reflexivity]. simpl. rewrite Hclient, Hio.
  destruct (resume_writer_Done config e1 id body None
              (set_disk (insert id (Fifo None t)) (fresh_response m)))
    as (res & m2 & Hres).
  erewrite bind_Done; [|exact Hres].
  assert (Hw : ∃ m3, (match written with
                      | [] => mret ()
                      | _ => w_Write e1 written
                      end) m2 = (Done (), m3)
                     ∧ w_body m3 = w_body m2 ++ written).
  { unfold w_Write. rewrite Hclient.
    destruct written; eexists; (split; [reflexivity|]); simpl; [|done].
    by rewrite app_nil_r. }
  destruct Hw as (m3 & Hw & Hb3).
  exists (set_disk (delete id) m3), written, sl', err.
  split; [done|]. split; [|split].
  - erewrite bind_Done; [|exact Hw]. reflexivity.
  - simpl. rewrite Hb3.
    cut (w_body m2 = []); [by intros ->|].
    revert Hres. unfold resume_writer, put_copy, with_defer, mbind, M_bind, gets.
    simpl. rewrite Hio. simpl.
    destruct err as [[]|]; simpl; try (intros [= _ <-]; by destruct (readdir_fails e1));
      destruct (close_fails body); simpl; intros [= _ <-];
      unfold updateStatsAndExpire; destruct (readdir_fails e1); simpl; try done;
      by destruct (foldl _ _ _) as [[? ?] ?].
  - intros ->. by apply io_Copy_ok in Hio as [-> _].
Qed.

End Streamed.

(** The example of the specification: on an open server, [PUT /abc123]
    with the body [hello] returns [nil], sets the two headers, and writes
    the link followed by the padding; [GET /abc123] then gives [hello]. *)
Example put_abc123_then_get :
  let put := handleClipboardPut example_config example_env (example_put "hello")
               "abc123" (newServer example_config ∅) in
  let get := handleClipboardGet example_config example_env "abc123"
               (fresh_response put.2) in
  put.1 = Done ()
  ∧ Get (w_header put.2) headerURL = "https://pcopy.example/abc123"
  ∧ Get (w_header put.2) headerExpires = "0"
  ∧ w_body put.2
    = bytes_of (String.append "https://pcopy.example/abc123"
                  (String "010" EmptyString)) ++ hi_there_padding
  ∧ get.1 = Done () ∧ w_body get.2 = bytes_of "hello".
Proof. vm_compute. repeat split. Qed.

(** * The global count cap *)

Lemma content_count_empty : content_count ∅ = 0.
Proof. unfold content_count. by rewrite map_to_list_empty. Qed.

Lemma content_count_perm (d : gmap string node) l :
  map_to_list d ≡ₚ l →
  content_count d = Z.of_nat (length (filter (λ kv, is_meta kv.1 = false) l)).
Proof. intros Hp. unfold content_count. by rewrite Hp. Qed.

Lemma content_count_insert_new (d : gmap string node) k v :
  d !! k = None →
  content_count (<[k:=v]> d) = content_count d + (if is_meta k then 0 else 1).
Proof.
  intros Hk. rewrite (content_count_perm _ _ (map_to_list_insert d k v Hk)).
  rewrite filter_cons. simpl. unfold content_count.
  destruct (decide (is_meta k = false)) as [Hm|Hm]; simpl.
  - rewrite Hm. lia.
  - destruct (is_meta k); [lia|done].
Qed.

Lemma content_count_insert_existing (d : gmap string node) k v v0 :
  d !! k = Some v0 → content_count (<[k:=v]> d) = content_count d.
Proof.
  intros Hk. rewrite <- (insert_delete_eq d k v).
  rewrite (content_count_insert_new (delete k d) k v) by apply lookup_delete_eq.
  rewrite (content_count_perm d ((k, v0) :: map_to_list (delete k d)))
    by (symmetry; by apply map_to_list_delete).
  rewrite filter_cons. simpl. unfold content_count.
  destruct (decide (is_meta k = false)) as [Hm|Hm]; simpl.
  - rewrite Hm. lia.
  - destruct (is_meta k); [lia|done].
Qed.

Lemma content_count_insert_meta (d : gmap string node) k v :
  is_meta k = true → content_count (<[k:=v]> d) = content_count d.
Proof.
  intros Hm. destruct (d !! k) as [v0|] eqn:Hk.
  - by eapply content_count_insert_existing.
  - rewrite content_count_insert_new, Hm by done. lia.
Qed.

Section CountCap.
Context `{Services}.

Lemma tracked_newServer config T : tracked config T (newServer config ∅).
Proof.
  split; [|split].
  - intros name n Hn. simpl in Hn. by rewrite lookup_empty in Hn.
  - simpl. by rewrite content_count_empty.
  - done.
Qed.

(** A directory of live entries stays one when an entry and its metadata
    are written. *)
Lemma live_dir_insert T d id content t mf tm :
  is_meta id = false → live_dir T d → unexpired T (Expires mf) →
  live_dir T (<[id := Regular content t]>
                (<[id +:+ ":meta" := Regular (json_Encode_metaFile mf) tm]> d)).
Proof.
  intros Hid Hlive Hun name n Hn Hname.
  destruct (decide (name = id)) as [->|Hne].
  - exists mf. split; [|done].
    erewrite readMetaFile_lookup; [apply readMetaFile_insert|].
    by rewrite lookup_insert_ne by apply name_ne_meta.
  - rewrite lookup_insert_ne in Hn by done.
    rewrite lookup_insert_ne in Hn.
    2:{ intros Heq. by rewrite <- Heq, is_meta_app in Hname. }
    destruct (Hlive _ _ Hn Hname) as (mf' & Hmf' & Hun').
    exists mf'. split; [|done]. rewrite <- Hmf'.
    apply readMetaFile_lookup. rewrite !lookup_insert_ne; [done| |].
    + intros Heq. by apply string_app_inj_r in Heq.
    + intros Heq. by rewrite Heq, is_meta_app in Hid.
Qed.

Lemma content_count_put d id content t meta tm :
  is_meta id = false →
  content_count (<[id := Regular content t]>
                   (<[id +:+ ":meta" := Regular meta tm]> d))
  = content_count d + (if d !! id is None then 1 else 0).
Proof.
  intros Hid.
  destruct (d !! id) as [n|] eqn:Hn.
  - erewrite content_count_insert_existing.
    2:{ rewrite lookup_insert_ne; [exact Hn|]. apply not_eq_sym, name_ne_meta. }
    rewrite content_count_insert_meta by apply is_meta_app. lia.
  - rewrite content_count_insert_new.
    2:{ rewrite lookup_insert_ne; [exact Hn|]. apply not_eq_sym, name_ne_meta. }
    rewrite content_count_insert_meta by apply is_meta_app. by rewrite Hid.
Qed.

(** One upload that returns [nil] keeps the count limiter on the number
    of entries; the number grows exactly when the entry was absent. *)
Lemma tracked_upload config T u m m' :
  tracked config T m → admissible config T (Upload u) →
  handleClipboardPut config (up_env u) (up_request u) (up_id u) (fresh_response m)
    = (Done (), m') →
  tracked config T m'
  ∧ value (countLimiter m')
    = value (countLimiter m) + (if disk m !! up_id u is None then 1 else 0).
Proof.
  intros (Hlive & Hcount & Hlimit) (Hperm & Hnow & Hun) Hput.
  destruct u as [e r id]. simpl in *.
  pose proof (permitted_not_meta _ Hperm) as Hid.
  apply handleClipboardPut_Done in Hput
    as (body & mode & ttl & ma & m0 & _ & _ & _ & Httl & _ & Hcharge & -> & Hc0 & _
        & _ & Hd).
  simpl in Hd. unfold expiry_of in Hun. rewrite Httl in Hun.
  assert (Hlive0 : live_dir T (disk m0)).
  { rewrite Hd. by apply live_dir_insert. }
  assert (Hcount0 : value (countLimiter m0)
                    = value (countLimiter m) + (if disk m !! id is None then 1 else 0)
                    ∧ limit (countLimiter m0) = limit (countLimiter m)).
  { rewrite Hc0. destruct (disk m !! id) as [n|] eqn:Hn.
    - destruct (put_charge_existing _ _ _ _ (fresh_response m) _ _ _ Hn Hcharge)
        as (-> & _). simpl. split; [lia|done].
    - rewrite (put_charge_new _ _ _ _ (fresh_response m) Hn) in Hcharge.
      simpl in Hcharge.
      destruct (Add (countLimiter m) 1) as [l|] eqn:Hadd; [|done].
      injection Hcharge as <-. simpl. by apply Add_value in Hadd. }
  destruct Hcount0 as [Hv0 Hl0].
  assert (Hcc : content_count (disk m0)
                = content_count (disk m) + (if disk m !! id is None then 1 else 0)).
  { rewrite Hd. by apply content_count_put. }
  destruct (readdir_fails e) eqn:Hrd.
  - split; [split; [|split]|]; simpl; try done; lia.
  - destruct (updateStatsAndExpire_live config (now_done e) T m0 Hnow Hlive0)
      as [Hdisk Hval].
    destruct (updateStatsAndExpire_limits config (now_done e) false m0) as [Hlim _].
    split; [split; [|split]|].
    + by rewrite Hdisk.
    + by rewrite Hdisk.
    + congruence.
    + rewrite Hval. lia.
Qed.

Lemma tracked_sweep config T t readdir_err m :
  tracked config T m → t ≤ T →
  tracked config T (updateStatsAndExpire config t readdir_err m)
  ∧ value (countLimiter (updateStatsAndExpire config t readdir_err m))
    = value (countLimiter m).
Proof.
  intros (Hlive & Hcount & Hlimit) Ht. destruct readdir_err; [done|].
  destruct (updateStatsAndExpire_live config t T m Ht Hlive) as [Hdisk Hval].
  destruct (updateStatsAndExpire_limits config t false m) as [Hlim _].
  split; [split; [|split]|].
  - by rewrite Hdisk.
  - by rewrite Hdisk.
  - congruence.
  - congruence.
Qed.

Lemma tracked_run config T steps m0 k m :
  tracked config T m0 → Forall (admissible config T) steps →
  run config steps m0 = Some (k, m) →
  tracked config T m ∧ value (countLimiter m) = value (countLimiter m0) + k.
Proof.
  revert m0 k m. induction steps as [|[u|t err] steps IH]; intros m0 k m Htr Hadm Hrun.
  - injection Hrun as <- <-. split; [done|lia].
  - apply Forall_cons in Hadm as [Hu Hadm]. simpl in Hrun.
    destruct (handleClipboardPut _ _ _ _ _) as [[[]| |] m1] eqn:Hput; try done.
    destruct (run config steps m1) as [[k' m2]|] eqn:Hrest; [|done].
    simpl in Hrun. injection Hrun as <- <-.
    destruct (tracked_upload _ _ _ _ _ Htr Hu Hput) as [Htr1 Hv1].
    destruct (IH _ _ _ Htr1 Hadm Hrest) as [Htr2 Hv2].
    split; [done|]. lia.
  - apply Forall_cons in Hadm as [Ht Hadm]. simpl in Hrun, Ht.
    destruct (tracked_sweep config T t err m0 Htr Ht) as [Htr1 Hv1].
    destruct (IH _ _ _ Htr1 Hadm Hrun) as [Htr2 Hv2].
    split; [done|]. lia.
Qed.

(** C5: the count check charges the global count limiter for a new entry
    and the visitor's put-count limiter for an existing one; after a run of
    uploads and sweeps on an empty directory, nothing expiring meanwhile,
    the global counter is the number of uploads that made a new entry,
    overwrites not counted; when that number is the cap, the next upload of
    a new entry is answered 429. *)
Theorem C5_count_cap config T steps k m :
  0 < ClipboardCountLimit config →
  Forall (admissible config T) steps →
  run config steps (newServer config ∅) = Some (k, m) →
  (∀ e r file metafile m0,
     disk m0 !! file = None →
     put_charge e r file metafile m0
     = match Add (countLimiter m0) 1 with
       | Some l => (Done (), set_countLimiter (λ _, l) m0)
       | None => (Fail ErrHTTPTooManyRequests, m0)
       end)
  ∧ (∀ e r file metafile m0 n o m0',
       disk m0 !! file = Some n →
       put_charge e r file metafile m0 = (o, m0') →
       countLimiter m0' = countLimiter m0
       ∧ match Add (default (newLimiter visitorCountLimit)
                      (visitorCountLimiter <$> visitors m0 !! visitor_key r)) 1 with
         | None => o = Fail ErrHTTPTooManyRequests
         | Some l => visitorCountLimiter <$> visitors m0' !! visitor_key r = Some l
         end)
  ∧ value (countLimiter m) = k
  ∧ (k = ClipboardCountLimit config →
     ∀ e r id body,
       id ∉ reservedFiles → Body r = Some body → disk m !! id = None →
       handleClipboardPut config e r id (fresh_response m)
       = (Fail ErrHTTPTooManyRequests, fresh_response m)).
Proof.
  intros Hcap Hadm Hrun. split; [|split; [|split]].
  - intros e r file metafile m0. apply put_charge_new.
  - intros e r file metafile m0 n o m0' Hn Hcharge.
    destruct (put_charge_existing _ _ _ _ _ _ _ _ Hn Hcharge)
      as (Hc & _ & _ & _ & _ & _ & _ & Hv).
    split; [done|]. destruct (Add _ 1); [by destruct Hv|done].
  - destruct (tracked_run config T steps _ k m (tracked_newServer config T) Hadm Hrun)
      as [_ Hv]. simpl in Hv. lia.
  - intros Hk e r id body Hid Hbody Hn.
    destruct (tracked_run config T steps _ k m (tracked_newServer config T) Hadm Hrun)
      as [(_ & _ & Hlim) Hv]. simpl in Hv.
    unfold handleClipboardPut. apply bind_Fail.
    unfold put_setup. rewrite (getClipboardFile_ok _ Hid), Hbody.
    apply bind_Fail. rewrite put_charge_new by done. simpl.
    rewrite Add_breach; [done| |]; lia.
Qed.

End CountCap.

Lemma C5_count_cap_witness :
  ∃ m, run example_config example_run (newServer example_config ∅)
       = Some (2, m)
    ∧ value (countLimiter m) = 2
    ∧ handleClipboardPut example_config example_env
        (example_request "PUT" "/abc125" [] [] (Some (example_body "more")))
        "abc125" (fresh_response m)
      = (Fail ErrHTTPTooManyRequests, fresh_response m).
Proof.
  set (res := run example_config example_run (newServer example_config ∅)).
  set (m := default (newServer example_config ∅) (snd <$> res)).
  assert (Hrun : res = Some (2, m)) by (vm_compute; reflexivity).
  assert (Hadm : Forall (admissible example_config (now_done example_env))
                   example_run).
  { repeat constructor; simpl; try (left; vm_compute; discriminate);
      vm_compute; discriminate. }
  destruct (C5_count_cap example_config (now_done example_env) example_run
              2 m eq_refl Hadm Hrun) as (_ & _ & Hv & Hnext).
  exists m. split; [exact Hrun|]. split; [exact Hv|].
  apply (Hnext eq_refl _ _ _ (example_body "more")).
  - vm_compute. intros Hin.
    repeat (apply elem_of_cons in Hin as [?|Hin]; [done|]).
    by apply elem_of_nil in Hin.
  - reflexivity.
  - vm_compute. reflexivity.
Defined.
(** * Further properties of the authorisation *)

(** ** Decimal numerals *)

Lemma digits_value_acc d acc :
  digits_value (Z.pos acc) (NilEmpty.string_of_uint d)
  = Z.pos (Pos.of_uint_acc d acc).
Proof.
  revert acc. induction d as [|d IH|d IH|d IH|d IH|d IH|d IH|d IH|d IH|d IH|d IH];
    intros acc; [done|..]; cbn [NilEmpty.string_of_uint digits_value Pos.of_uint_acc];
    rewrite <- IH; f_equal;
    match goal with
    | |- context [Z.of_nat (nat_of_ascii ?c)] =>
        let v := eval vm_compute in (Z.of_nat (nat_of_ascii c)) in
        change (Z.of_nat (nat_of_ascii c)) with v
    end; lia.
Qed.

Lemma digits_value_uint d :
  digits_value 0 (NilEmpty.string_of_uint d) = Z.of_uint d.
Proof.
  unfold Z.of_uint.
  induction d as [|d IH|d IH|d IH|d IH|d IH|d IH|d IH|d IH|d IH|d IH];
    [done|exact IH|..]; cbn [NilEmpty.string_of_uint digits_value Pos.of_uint];
    apply digits_value_acc.
Qed.

Lemma all_digits_uint d : all_chars is_digit (NilEmpty.string_of_uint d) = true.
Proof. induction d; simpl; auto. Qed.

(** The decimal numeral of a natural number: digits, at least one. *)
Lemma fmt_d_nonneg z :
  0 ≤ z →
  nonempty (fmt_d z) = true ∧ all_chars is_digit (fmt_d z) = true
  ∧ digits_value 0 (fmt_d z) = z.
Proof.
  intros Hz. unfold fmt_d. destruct z as [|p|p]; [done| |lia].
  cbn [Z.to_int NilZero.string_of_int].
  assert (Hs : NilZero.string_of_uint (Pos.to_uint p)
               = NilEmpty.string_of_uint (Pos.to_uint p)).
  { pose proof (Unsigned.to_uint_nonnil p). by destruct (Pos.to_uint p). }
  rewrite Hs. split_and!.
  - pose proof (Unsigned.to_uint_nonnil p). by destruct (Pos.to_uint p).
  - apply all_digits_uint.
  - rewrite digits_value_uint. apply (DecimalZ.of_to (Z.pos p)).
Qed.

Lemma parse_digits_fmt_d z : 0 ≤ z → parse_digits (fmt_d z) = Some z.
Proof.
  intros Hz. destruct (fmt_d_nonneg z Hz) as (Hne & Hd & Hv).
  unfold parse_digits. rewrite Hd, Hv. by destruct (fmt_d z).
Qed.

Lemma Atoi_digits s :
  all_chars is_digit s = true →
  Atoi s = v ← parse_digits s; if v <=? int64_max then Some v else None.
Proof.
  destruct s as [|c s]; [done|]. intros [Hc _]%andb_true_iff.
  destruct c as [[] [] [] [] [] [] [] []]; try done.
Qed.

(** [strconv.Atoi] reads back what [%d] prints. *)
Lemma Atoi_fmt_d z : 0 ≤ z ≤ int64_max → Atoi (fmt_d z) = Some z.
Proof.
  intros [Hz Hmax]. destruct (fmt_d_nonneg z Hz) as (_ & Hd & _).
  rewrite Atoi_digits by done. rewrite parse_digits_fmt_d by done. simpl.
  by apply Z.leb_le in Hmax as ->.
Qed.

Lemma strip_prefix_app p s : strip_prefix p (p +:+ s) = Some s.
Proof.
  induction p as [|c p IH]; [done|].
  change (String c p +:+ s) with (String c (p +:+ s)). simpl.
  by rewrite Ascii.eqb_refl.
Qed.

Lemma span_digits_app s rest :
  all_chars is_digit s = true →
  span_digits (s +:+ String " " rest) = (s, String " " rest).
Proof.
  induction s as [|c s IH]; [done|]. intros [Hc Hs]%andb_true_iff.
  change (String c s +:+ String " " rest) with (String c (s +:+ String " " rest)).
  simpl. rewrite Hc, (IH Hs). done.
Qed.

Lemma authHmacRegex_fmt ts ttl sig :
  0 ≤ ts → 0 ≤ ttl → nonempty sig = true → all_chars re_dot sig = true →
  authHmacRegex ("HMAC " +:+ fmt_d ts +:+ " " +:+ fmt_d ttl +:+ " " +:+ sig)
  = Some (fmt_d ts, fmt_d ttl, sig).
Proof.
  intros Hts Httl Hne Hdot.
  destruct (fmt_d_nonneg ts) as (Hn1 & Hd1 & _); [lia|].
  destruct (fmt_d_nonneg ttl) as (Hn2 & Hd2 & _); [lia|].
  unfold authHmacRegex. rewrite strip_prefix_app. simpl.
  change (" " +:+ fmt_d ttl +:+ " " +:+ sig)
    with (String " " (fmt_d ttl +:+ " " +:+ sig)).
  rewrite span_digits_app by done.
  change (" " +:+ sig) with (String " " sig).
  rewrite span_digits_app by done.
  by rewrite Hn1, Hn2, Hne, Hdot.
Qed.

(** X1.  A credential written with [authHmacFormat], ["HMAC %d %d %s"], from
    a timestamp and a time to live that are natural numbers of [int] and a
    signature text that is not empty and has no line feed, is matched by
    [authHmacRegex], and [strconv.Atoi] reads the two numbers back. *)
Theorem authHmacFormat_roundtrip ts ttl sig :
  0 ≤ ts ≤ int64_max → 0 ≤ ttl ≤ int64_max →
  nonempty sig = true → all_chars re_dot sig = true →
  ∃ m1 m2,
    authHmacRegex ("HMAC " +:+ fmt_d ts +:+ " " +:+ fmt_d ttl +:+ " " +:+ sig)
    = Some (m1, m2, sig)
    ∧ Atoi m1 = Some ts ∧ Atoi m2 = Some ttl.
Proof.
  intros Hts Httl Hne Hdot. exists (fmt_d ts), (fmt_d ttl).
  split; [|split; by apply Atoi_fmt_d].
  apply authHmacRegex_fmt; [lia|lia|done|done].
Qed.

Lemma authHmacFormat_roundtrip_witness :
  ∃ m1 m2,
    authHmacRegex ("HMAC " +:+ fmt_d 1700000000 +:+ " " +:+ fmt_d 60 +:+ " "
                   +:+ "c2lnbmF0dXJl")
    = Some (m1, m2, "c2lnbmF0dXJl")
    ∧ Atoi m1 = Some 1700000000 ∧ Atoi m2 = Some 60.
Proof.
  apply authHmacFormat_roundtrip;
    [unfold int64_max; lia|unfold int64_max; lia|reflexivity|reflexivity].
Defined.

Section AuthorisationFurther.
Context `{Crypto}.

(** X2.  [authorize] returns [nil] or [ErrHTTPUnauthorized], whatever the
    configuration, the clock and the request: no credential makes it
    report another error. *)
Theorem authorize_only_unauthorized config now r :
  authorize config now r = None
  ∨ authorize config now r = Some ErrHTTPUnauthorized.
Proof.
  unfold authorize. destruct (ConfigKey config) as [key|]; [|by left].
  assert (Hv : ∀ auth, authorize_value key now r auth = None
                       ∨ authorize_value key now r auth = Some ErrHTTPUnauthorized).
  { intros auth. unfold authorize_value.
    destruct (authHmacRegex auth); [apply authorizeHmac_codes|].
    destruct (authBasicRegex auth); [apply authorizeBasic_codes|by right]. }
  destruct (values_of queryParamAuth (URL_Query r)); [apply Hv|].
  destruct (base64_DecodeString _); [apply Hv|by right].
Qed.

(** X3.  On a protected server a request with no [Authorization] header
    and no [a] query parameter is refused by the [auth] wrapper with
    [ErrHTTPUnauthorized]: the wrapped handler does not run and nothing of
    the state changes. *)
Theorem auth_without_credentials config key now r (next : M unit) m :
  ConfigKey config = Some key →
  values_of "Authorization" (Header r) = [] →
  values_of queryParamAuth (URL_Query r) = [] →
  auth config now r next m = (Fail ErrHTTPUnauthorized, m).
Proof.
  intros Hkey Hh Hq. unfold auth, authorize, Get. by rewrite Hkey, Hq, Hh.
Qed.

(** X4.  The signed-request scheme end to end.  On a protected server, for
    a request without [a] query parameter whose [Authorization] header is
    written with [authHmacFormat], with a timestamp that [time.Unix] stores
    without wrapping around, at most 9223371974719179007, and a time to
    live of at most 9223372036 seconds, [authorize] returns [nil] exactly
    when the decoded signature is the keyed hash of
    [timestamp:ttl:method:path] and the request is not older than the time
    to live, one minute when that is zero. *)
Theorem authorize_signed_request config key now r ts ttl sig hash :
  ConfigKey config = Some key →
  values_of queryParamAuth (URL_Query r) = [] →
  Get (Header r) "Authorization"
  = "HMAC " +:+ fmt_d ts +:+ " " +:+ fmt_d ttl +:+ " " +:+ sig →
  0 ≤ ts → ts + unixToInternal ≤ int64_max → 0 ≤ ttl ≤ 9223372036 →
  nonempty sig = true → all_chars re_dot sig = true →
  base64_DecodeString sig = Some hash →
  authorize config now r = None
  ↔ hash = hmac_sha256 (Bytes key) (hmac_data ts ttl r)
    ∧ now - ts * Second ≤ auth_window ttl.
Proof.
  intros Hkey Hq Hauth Hts Hunix Httl Hne Hdot Hdec.
  unfold authorize. rewrite Hkey, Hq, Hauth. unfold authorize_value.
  rewrite authHmacRegex_fmt by (done || lia).
  assert (ts ≤ int64_max) by (unfold unixToInternal in Hunix; lia).
  apply authorizeHmac_in_range; [by apply Atoi_fmt_d| |done|done|done].
  apply Atoi_fmt_d. unfold int64_max. lia.
Qed.

End AuthorisationFurther.

Lemma auth_without_credentials_witness :
  auth example_config_protected (1700000000 * Second)
    (example_request "GET" "/abc123" [] [] None) (mret ())
    (newServer example_config_protected ∅)
  = (Fail ErrHTTPUnauthorized, newServer example_config_protected ∅).
Proof. by apply (auth_without_credentials _ example_key). Defined.

Lemma authorize_signed_request_witness :
  authorize example_config_protected (1700000030 * Second)
    (example_request "GET" "/abc123" []
       [("Authorization",
         "HMAC 1700000000 60 c2FsdGh1bnRlcjIxNzAwMDAwMDAwOjYwOkdFVDovYWJjMTIz")]
       None)
  = None.
Proof.
  apply (authorize_signed_request example_config_protected example_key _ _
           1700000000 60
           "c2FsdGh1bnRlcjIxNzAwMDAwMDAwOjYwOkdFVDovYWJjMTIz"
           (bytes_of "salthunter21700000000:60:GET:/abc123"));
    [reflexivity|reflexivity|reflexivity|lia
    |unfold unixToInternal, int64_max; lia|lia
    |reflexivity|reflexivity|reflexivity|].
  split; [reflexivity|]. unfold auth_window, Second. simpl. lia.
Defined.
(** * Further properties of the sweep *)

Section SweepFurther.
Context `{Services}.

Local Arguments sweep_step : simpl never.

Lemma ReadDir_elem d name n : d !! name = Some n → stat_of name n ∈ ReadDir d.
Proof.
  intros Hn. unfold ReadDir. apply list_elem_of_fmap.
  exists (name, n). split; [done|].
  rewrite merge_sort_Permutation. by apply elem_of_map_to_list.
Qed.

Lemma ReadDir_NoDup d : NoDup (Name <$> ReadDir d).
Proof.
  unfold ReadDir. rewrite <- list_fmap_compose.
  rewrite (list_fmap_ext _ fst (merge_sort entry_le (map_to_list d)));
    [|intros i [name n] _; apply Name_stat_of].
  rewrite merge_sort_Permutation. apply NoDup_fst_map_to_list.
Qed.

Lemma ReadDir_Forall d :
  Forall (λ f, ∃ nd, d !! Name f = Some nd ∧ f = stat_of (Name f) nd) (ReadDir d).
Proof. apply Forall_forall. intros f Hf. by apply elem_of_ReadDir. Qed.

Lemma swept_nil config now d k : swept config now d [] k = false.
Proof. unfold swept. apply bool_decide_eq_false. by intros ?%Exists_nil. Qed.

Lemma swept_snoc config now d l f k :
  swept config now d (l ++ [f]) k
  = swept config now d l k
    || (expired_entry config now d (Name f)
        && (bool_decide (k = Name f) || bool_decide (k = Name f +:+ ":meta"))).
Proof.
  unfold swept. apply eq_true_iff_eq.
  rewrite orb_true_iff, andb_true_iff, orb_true_iff, !bool_decide_eq_true.
  rewrite Exists_app, Exists_cons, Exists_nil. tauto.
Qed.

Lemma expired_entry_meta config now d name :
  expired_entry config now d name = true → is_meta name = false.
Proof. unfold expired_entry. by intros [?%negb_true_iff _]%andb_true_iff. Qed.

(** A file the sweep has not reached is still there, with its metadata. *)
Lemma swept_not_reached config now d l name :
  name ∉ Name <$> l → is_meta name = false →
  swept config now d l name = false
  ∧ swept config now d l (name +:+ ":meta") = false.
Proof.
  intros Hnew Hmeta. unfold swept.
  split; apply bool_decide_eq_false; intros Hex; apply Exists_exists in Hex;
    destruct Hex as (g & Hg & Hexp & [Heq|Heq]).
  - apply Hnew, list_elem_of_fmap. eauto.
  - rewrite Heq, is_meta_app in Hmeta. done.
  - apply expired_entry_meta in Hexp. rewrite <- Heq, is_meta_app in Hexp. done.
  - apply string_app_inj_r in Heq. apply Hnew, list_elem_of_fmap. eauto.
Qed.

Lemma lookup_delete_two (d : gmap string node) a b k :
  delete b (delete a d) !! k
  = if bool_decide (k = a) || bool_decide (k = b) then None else d !! k.
Proof.
  destruct (decide (k = b)) as [->|Hb].
  { rewrite lookup_delete_eq, (bool_decide_eq_true_2 (b = b)) by done.
    by rewrite orb_true_r. }
  rewrite lookup_delete_ne, (bool_decide_eq_false_2 (k = b)), orb_false_r by done.
  case_bool_decide as Ha; [subst; apply lookup_delete_eq|].
  by apply lookup_delete_ne.
Qed.

Lemma sweep_step_spec config now d0 l f d n t nd :
  d0 !! Name f = Some nd → f = stat_of (Name f) nd →
  Name f ∉ Name <$> l →
  (∀ k, d !! k = if swept config now d0 l k then None else d0 !! k) →
  ∃ d', sweep_step config now (d, n, t) f
        = (d',
           if counted config now d0 f then n + 1 else n,
           if counted config now d0 f then wrap64 (t + Size f) else t)
    ∧ ∀ k, d' !! k = if swept config now d0 (l ++ [f]) k then None else d0 !! k.
Proof.
  intros Hnd Hf Hnew Hinv. rewrite sweep_step_unfold. unfold counted.
  fold (is_meta (Name f)).
  destruct (is_meta (Name f)) eqn:Hmeta; simpl.
  { exists d. split; [done|]. intros k. rewrite swept_snoc.
    unfold expired_entry. rewrite Hmeta. simpl. rewrite orb_false_r.
    apply Hinv. }
  destruct (swept_not_reached config now d0 l (Name f) Hnew Hmeta) as [Hs1 Hs2].
  assert (Hdf : d !! Name f = Some nd) by (by rewrite Hinv, Hs1).
  assert (Hdm : d !! (Name f +:+ ":meta") = d0 !! (Name f +:+ ":meta"))
    by (by rewrite Hinv, Hs2).
  assert (Hexp : isExpired config now d f (Name f +:+ ":meta")
                 = expired_entry config now d0 (Name f)).
  { unfold expired_entry. rewrite Hmeta, Hnd. simpl. rewrite <- Hf.
    unfold isExpired. by rewrite (readMetaFile_lookup d0 d) by done. }
  unfold maybeExpire, os_Remove. rewrite Hexp.
  destruct (expired_entry config now d0 (Name f)) eqn:Hex; simpl.
  - rewrite Hdf. rewrite lookup_delete_ne by apply name_ne_meta. rewrite Hdm.
    assert (Hboth : ∀ k,
      delete (Name f +:+ ":meta") (delete (Name f) d) !! k
      = if swept config now d0 (l ++ [f]) k then None else d0 !! k).
    { intros k. rewrite lookup_delete_two, swept_snoc, Hex, Hinv. simpl.
      by destruct (swept config now d0 l k), (bool_decide (k = Name f)),
        (bool_decide (k = Name f +:+ ":meta")). }
    destruct (d0 !! (Name f +:+ ":meta")) as [mnode|] eqn:Hm0; simpl.
    + eexists. split; [done|]. exact Hboth.
    + eexists. split; [done|]. intros k. rewrite <- Hboth.
      by rewrite (delete_id (delete (Name f) d) (Name f +:+ ":meta"))
        by (by rewrite lookup_delete_ne by apply name_ne_meta).
  - exists d. split; [done|]. intros k. rewrite swept_snoc, Hex. simpl.
    rewrite orb_false_r. apply Hinv.
Qed.

Lemma sweep_fold_spec config now d0 files l d n t :
  NoDup (Name <$> (l ++ files)) →
  Forall (λ f, ∃ nd, d0 !! Name f = Some nd ∧ f = stat_of (Name f) nd) files →
  (∀ k, d !! k = if swept config now d0 l k then None else d0 !! k) →
  ∃ d', foldl (sweep_step config now) (d, n, t) files
        = (d',
           n + Z.of_nat (length (filter (λ f, counted config now d0 f = true) files)),
           foldl (λ acc f, wrap64 (acc + Size f)) t
             (filter (λ f, counted config now d0 f = true) files))
    ∧ ∀ k, d' !! k = if swept config now d0 (l ++ files) k then None else d0 !! k.
Proof.
  revert l d n t. induction files as [|f files IH]; intros l d n t Hnd Hall Hinv.
  { exists d. simpl. rewrite app_nil_r, Z.add_0_r. done. }
  apply Forall_cons in Hall as [(nd & Hf1 & Hf2) Hall].
  assert (Hnew : Name f ∉ Name <$> l).
  { rewrite fmap_app, fmap_cons in Hnd. apply NoDup_app in Hnd as (_ & Hd & _).
    intros Hin. apply (Hd _ Hin). left. }
  destruct (sweep_step_spec config now d0 l f d n t nd Hf1 Hf2 Hnew Hinv)
    as (d1 & Hstep & Hinv1).
  simpl. rewrite Hstep.
  destruct (IH (l ++ [f]) d1
              (if counted config now d0 f then n + 1 else n)
              (if counted config now d0 f then wrap64 (t + Size f) else t))
    as (d' & Hfold & Hinv'); [by rewrite <- app_assoc|done|done|].
  exists d'. rewrite Hfold, <- app_assoc in *. split; [|exact Hinv'].
  rewrite filter_cons. destruct (counted config now d0 f) eqn:Hc.
  - rewrite decide_True by done. simpl. do 2 f_equal. lia.
  - rewrite decide_False by done. done.
Qed.

(** What a sweep that reads the directory leaves of it, and what it
    counts. *)
Lemma updateStatsAndExpire_spec config now m :
  let m' := updateStatsAndExpire config now false m in
  let files := filter (λ f, counted config now (disk m) f = true) (ReadDir (disk m)) in
  (∀ k, disk m' !! k
        = if swept config now (disk m) (ReadDir (disk m)) k then None
          else disk m !! k)
  ∧ value (countLimiter m') = Z.of_nat (length files)
  ∧ value (sizeLimiter m') = foldl (λ acc f, wrap64 (acc + Size f)) 0 files.
Proof.
  unfold updateStatsAndExpire. simpl.
  destruct (sweep_fold_spec config now (disk m) (ReadDir (disk m)) [] (disk m) 0 0)
    as (d' & Hfold & Hinv).
  - apply ReadDir_NoDup.
  - apply ReadDir_Forall.
  - intros k. by rewrite swept_nil.
  - rewrite Hfold. simpl. done.
Qed.

Lemma swept_ReadDir config now d k :
  swept config now d (ReadDir d) k = true
  ↔ expired_entry config now d k = true
    ∨ ∃ b, k = b +:+ ":meta" ∧ expired_entry config now d b = true.
Proof.
  unfold swept. rewrite bool_decide_eq_true, Exists_exists. split.
  - intros (f & _ & Hexp & [->| ->]); eauto.
  - assert (Hin : ∀ b, expired_entry config now d b = true →
                       ∃ f, f ∈ ReadDir d ∧ Name f = b).
    { intros b Hb. unfold expired_entry in Hb.
      apply andb_true_iff in Hb as [_ Hb].
      destruct (d !! b) as [n|] eqn:Hn; [|done].
      exists (stat_of b n). split; [by apply ReadDir_elem|apply Name_stat_of]. }
    intros [Hk|(b & -> & Hb)].
    + destruct (Hin _ Hk) as (f & Hf & <-). eauto.
    + destruct (Hin _ Hb) as (f & Hf & <-). eauto.
Qed.

(** X5.  A sweep that reads the directory removes every expired entry
    together with its metadata side-file: an entry that is no metadata
    side-file and for which [isExpired] holds at the time of the sweep. *)
Theorem sweep_removes_expired config now m name :
  expired_entry config now (disk m) name = true →
  disk (updateStatsAndExpire config now false m) !! name = None
  ∧ disk (updateStatsAndExpire config now false m) !! (name +:+ ":meta") = None.
Proof.
  intros Hexp.
  destruct (updateStatsAndExpire_spec config now m) as (Hdisk & _).
  rewrite !Hdisk.
  assert (H1 : swept config now (disk m) (ReadDir (disk m)) name = true)
    by (apply swept_ReadDir; eauto).
  assert (H2 : swept config now (disk m) (ReadDir (disk m)) (name +:+ ":meta")
               = true) by (apply swept_ReadDir; eauto).
  by rewrite H1, H2.
Qed.

(** X6.  A sweep removes nothing else and changes no entry: a name that is
    neither an expired entry nor the metadata side-file of one has after
    the sweep what it had before; so metadata whose entry is gone is never
    collected.  This holds also when the directory cannot be read. *)
Theorem sweep_keeps_the_rest config now err m k :
  expired_entry config now (disk m) k = false →
  (∀ b, k = b +:+ ":meta" → expired_entry config now (disk m) b = false) →
  disk (updateStatsAndExpire config now err m) !! k = disk m !! k.
Proof.
  intros Hk Hb. destruct err; [done|].
  destruct (updateStatsAndExpire_spec config now m) as (Hdisk & _).
  rewrite Hdisk.
  destruct (swept config now (disk m) (ReadDir (disk m)) k) eqn:Hs; [|done].
  apply swept_ReadDir in Hs as [Hs|(b & -> & Hs)]; [congruence|].
  by rewrite (Hb b) in Hs.
Qed.

Lemma wrap64_add_l a b : wrap64 (wrap64 a + b) = wrap64 (a + b).
Proof.
  unfold wrap64. f_equal.
  replace ((a + 2 ^ 63) `mod` 2 ^ 64 - 2 ^ 63 + b + 2 ^ 63)
    with ((a + 2 ^ 63) `mod` 2 ^ 64 + b) by ring.
  rewrite Zplus_mod_idemp_l. f_equal. ring.
Qed.

Lemma total_size_cons f files :
  total_size (f :: files) = Size f + total_size files.
Proof. done. Qed.

Lemma total_size_wrap a files :
  foldl (λ acc f, wrap64 (acc + Size f)) (wrap64 a) files
  = wrap64 (a + total_size files).
Proof.
  revert a. induction files as [|f files IH]; intros a; simpl.
  { unfold total_size. simpl. by rewrite Z.add_0_r. }
  rewrite wrap64_add_l, IH, total_size_cons. f_equal. lia.
Qed.

Lemma total_size_perm l1 l2 : l1 ≡ₚ l2 → total_size l1 = total_size l2.
Proof.
  induction 1; rewrite ?total_size_cons; lia.
Qed.

(** The entries a sweep leaves, metadata side-files apart, are those it
    has counted. *)
Lemma sweep_listing config now m :
  with_metadata (disk m) →
  (λ kv, stat_of kv.1 kv.2)
    <$> filter (λ kv, is_meta kv.1 = false)
          (map_to_list (disk (updateStatsAndExpire config now false m)))
  ≡ₚ filter (λ f, counted config now (disk m) f = true) (ReadDir (disk m)).
Proof.
  intros Hmeta.
  destruct (updateStatsAndExpire_spec config now m) as (Hdisk & _).
  set (m' := updateStatsAndExpire config now false m) in *.
  set (d := disk m) in *.
  apply NoDup_Permutation.
  - apply (NoDup_fmap_1 Name). rewrite <- list_fmap_compose.
    rewrite (list_fmap_ext _ fst
               (filter (λ kv, is_meta kv.1 = false) (map_to_list (disk m'))));
      [|intros i [name n] _; apply Name_stat_of].
    apply (NoDup_fmap_2_strong fst).
    + intros [k1 v1] [k2 v2] [_ H1%elem_of_map_to_list]%list_elem_of_filter
        [_ H2%elem_of_map_to_list]%list_elem_of_filter Heq.
      simpl in Heq. subst k2. congruence.
    + apply NoDup_filter, NoDup_map_to_list.
  - apply NoDup_filter, (NoDup_fmap_1 Name), ReadDir_NoDup.
  - intros f. rewrite list_elem_of_fmap, list_elem_of_filter. split.
    + intros ([k n] & -> & [Hm Hin]%list_elem_of_filter).
      apply elem_of_map_to_list in Hin. simpl in *.
      rewrite Hdisk in Hin.
      destruct (swept config now d (ReadDir d) k) eqn:Hs; [done|].
      split; [|by apply ReadDir_elem].
      unfold counted. rewrite Name_stat_of. fold (is_meta k). rewrite Hm. simpl.
      destruct (expired_entry config now d k) eqn:Hexp; [|done].
      assert (swept config now d (ReadDir d) k = true)
        by (apply swept_ReadDir; eauto).
      congruence.
    + intros [Hc (n & Hn & Hf)%elem_of_ReadDir].
      exists (Name f, n). split; [done|].
      unfold counted in Hc. apply andb_true_iff in Hc as [Hm Hc].
      apply negb_true_iff in Hm, Hc.
      apply list_elem_of_filter. split; [done|].
      apply elem_of_map_to_list. rewrite Hdisk.
      destruct (swept config now d (ReadDir d) (Name f)) eqn:Hs; [|done].
      apply swept_ReadDir in Hs as [Hs|(b & Hb & _)].
      * rewrite Hs in Hc. simpl in Hc.
        apply bool_decide_eq_false in Hc. destruct Hc. by eapply Hmeta.
      * rewrite Hb, is_meta_app in Hm. done.
Qed.

(** X7.  In a directory in which every entry has its metadata side-file, a
    sweep that reads the directory leaves the two global limiters exact:
    the count limiter holds the number of entries that remain, metadata
    side-files not counted, and the size limiter their total size, as an
    [int64]. *)
Theorem sweep_counters_exact config now m :
  with_metadata (disk m) →
  value (countLimiter (updateStatsAndExpire config now false m))
  = content_count (disk (updateStatsAndExpire config now false m))
  ∧ value (sizeLimiter (updateStatsAndExpire config now false m))
    = wrap64 (content_size (disk (updateStatsAndExpire config now false m))).
Proof.
  intros Hmeta.
  destruct (updateStatsAndExpire_spec config now m) as (_ & Hcount & Hsize).
  pose proof (sweep_listing config now m Hmeta) as Hperm.
  split.
  - rewrite Hcount. unfold content_count. f_equal.
    rewrite <- Hperm. by rewrite length_fmap.
  - rewrite Hsize. unfold content_size. rewrite (total_size_perm _ _ Hperm).
    change 0 with (wrap64 0) at 1. by rewrite total_size_wrap.
Qed.

(** X8.  Every sweep, also one that cannot read the directory, forgets
    the visitors last seen more than [visitorExpungeAfter], three minutes,
    before it and keeps the others as they are.  A forgotten visitor who
    comes back starts with a put-count of zero. *)
Theorem sweep_expunges_idle_visitors config t err m ip v :
  visitors m !! ip = Some v →
  visitors (updateStatsAndExpire config t err m) !! ip
  = (if bool_decide (lastSeen v + visitorExpungeAfter < t) then None else Some v)
  ∧ (lastSeen v + visitorExpungeAfter < t →
     ∀ e r, visitor_key r = ip →
       ∃ m', getVisitor e r (updateStatsAndExpire config t err m) = (Done ip, m')
         ∧ visitors m' !! ip
           = Some {| visitorCountLimiter := newLimiter visitorCountLimit;
                     lastSeen := now e |}).
Proof.
  intros Hv.
  assert (Hvis : visitors (updateStatsAndExpire config t err m)
                 = filter (λ kv, ¬ visitor_idle t kv) (visitors m)).
  { unfold updateStatsAndExpire. destruct err; [done|]. simpl.
    by destruct (foldl _ _ _) as [[d n] sz]. }
  assert (Hidle : visitor_idle t (ip, v) ↔ lastSeen v + visitorExpungeAfter < t).
  { unfold visitor_idle, time_Since. simpl. rewrite sat64_gt by int64_lia. lia. }
  assert (Hlook : visitors (updateStatsAndExpire config t err m) !! ip
                  = if bool_decide (lastSeen v + visitorExpungeAfter < t)
                    then None else Some v).
  { rewrite Hvis, map_lookup_filter, Hv. simpl.
    case_bool_decide as Hi.
    - rewrite option_guard_False; [done|]. intros Hn. by apply Hn, Hidle.
    - rewrite option_guard_True; [done|]. by rewrite Hidle. }
  split; [exact Hlook|].
  intros Hi e r Hkey. rewrite bool_decide_eq_true_2 in Hlook by done.
  unfold getVisitor. rewrite Hkey, Hlook. eexists. split; [reflexivity|].
  simpl. apply lookup_insert_eq.
Qed.

End SweepFurther.

Lemma sweep_removes_expired_witness :
  disk (updateStatsAndExpire example_config (1700000061 * Second) false
          (newServer example_config example_disk_expiring)) !! "abc123" = None
  ∧ disk (updateStatsAndExpire example_config (1700000061 * Second) false
            (newServer example_config example_disk_expiring))
      !! ("abc123" +:+ ":meta") = None.
Proof. apply sweep_removes_expired. vm_compute. reflexivity. Defined.

Lemma sweep_keeps_the_rest_witness :
  disk (updateStatsAndExpire example_config (1700000061 * Second) false
          (newServer example_config example_disk_orphan)) !! "abc123:meta"
  = disk (newServer example_config example_disk_orphan) !! "abc123:meta".
Proof.
  apply sweep_keeps_the_rest.
  - vm_compute. reflexivity.
  - intros b Hb. apply (string_app_inj_r "abc123" b ":meta") in Hb as <-.
    vm_compute. reflexivity.
Defined.

Lemma sweep_counters_exact_witness :
  value (countLimiter
           (updateStatsAndExpire example_config (1700000061 * Second) false
              (newServer example_config example_disk_one)))
  = content_count
      (disk (updateStatsAndExpire example_config (1700000061 * Second) false
               (newServer example_config example_disk_one)))
  ∧ value (sizeLimiter
             (updateStatsAndExpire example_config (1700000061 * Second) false
                (newServer example_config example_disk_one)))
    = wrap64
        (content_size
           (disk (updateStatsAndExpire example_config (1700000061 * Second) false
                    (newServer example_config example_disk_one)))).
Proof.
  apply sweep_counters_exact. intros name n Hn Hmeta.
  change (disk (newServer example_config example_disk_one))
    with example_disk_one in *.
  unfold example_disk_one in Hn.
  apply lookup_insert_Some in Hn as [[<- _]|[_ Hn]].
  - vm_compute. eauto.
  - apply lookup_singleton_Some in Hn as [<- _]. vm_compute in Hmeta. done.
Defined.

Lemma sweep_expunges_idle_visitors_witness :
  visitors (updateStatsAndExpire example_config (1700000181 * Second) true
              example_server_busy) !! "192.0.2.7" = None.
Proof.
  apply (proj1 (sweep_expunges_idle_visitors example_config
                  (1700000181 * Second) true example_server_busy "192.0.2.7"
                  {| visitorCountLimiter := {| value := 10; limit := 10 |};
                     lastSeen := 1700000000 * Second |} eq_refl)).
Defined.
(** * Further properties of the clipboard handlers *)

Section HandlersFurther.
Context `{Services}.

(** The set-up of a write after its count check, up to the time to live:
    the entry and its metadata are removed before the mode and the time
    to live of the request are looked at. *)
Lemma put_setup_refused config e r id body ma m err :
  id ∉ reservedFiles → Body r = Some body →
  put_charge e r id (id +:+ ":meta") m = (Done (), ma) →
  getFileMode config r = inl err
  ∨ (∃ mode, getFileMode config r = inr mode) ∧ getTTL config r = inl err →
  put_setup config e r id m
  = (Fail err, set_disk (delete (id +:+ ":meta")) (set_disk (delete id) ma)).
Proof.
  intros Hid Hbody Hcharge Hbad. unfold put_setup.
  rewrite getClipboardFile_ok, Hbody by done.
  unfold mbind, M_bind. rewrite Hcharge. simpl.
  destruct Hbad as [->|[[mode ->] ->]]; done.
Qed.

(** The set-up of a write that is not a streaming one, after its count
    check. *)
Lemma put_setup_plain config e r id body ma m :
  id ∉ reservedFiles → Body r = Some body → isStream r = false →
  put_charge e r id (id +:+ ":meta") m = (Done (), ma) →
  put_setup config e r id m
  = let mb := set_disk (delete (id +:+ ":meta")) (set_disk (delete id) ma) in
    match getFileMode config r with
    | inl err => (Fail err, mb)
    | inr mode =>
        match getTTL config r with
        | inl err => (Fail err, mb)
        | inr ttl =>
            if open_meta_fails e then (Fail (errIO "open meta"), mb)
            else
              let mc :=
                set_disk (insert (id +:+ ":meta")
                            (Regular (json_Encode_metaFile
                                        {| Mode := mode;
                                           Expires := expires_at e ttl |})
                               (now e))) mb in
              if open_file_fails e
              then (Fail (errIO "open"), set_countLimiter (λ l, Sub l 1) mc)
              else (Done (id, body, expires_at e ttl, ttl, outputFormat r),
                    set_disk (insert id (Regular [] (now e))) mc)
        end
    end.
Proof.
  intros Hid Hbody Hst Hcharge. unfold put_setup.
  rewrite getClipboardFile_ok, Hbody, Hst by done.
  unfold mbind, M_bind. rewrite Hcharge. simpl.
  destruct (getFileMode config r) as [err|mode]; [done|]. simpl.
  destruct (getTTL config r) as [err|ttl]; [done|]. simpl.
  destruct (open_meta_fails e); [done|]. simpl.
  unfold open_destination. destruct (open_file_fails e); [done|]. simpl.
  rewrite lookup_insert_ne, lookup_delete_ne, lookup_delete_eq
    by (apply not_eq_sym, name_ne_meta).
  done.
Qed.

(** A plain upload that fails in or after the copy has removed the file. *)
Lemma put_copy_Fail config e id file body expires ttl format m err m' :
  put_copy config e false id file body expires ttl format None m = (Fail err, m') →
  disk m' !! file = None.
Proof.
  unfold put_copy, with_defer, mbind, M_bind, gets.
  destruct (io_Copy _ _ _ _ _ _) as [[written sl'] err0]. simpl.
  assert (Hgone : ∀ m0 : machine,
    disk (updateStatsAndExpire config (now_done e) (readdir_fails e)
            (set_disk (delete file) m0)) !! file = None).
  { intros m0. apply updateStatsAndExpire_absent. simpl. apply lookup_delete_eq. }
  destruct err0 as [[]|]; simpl; try (intros [= <- <-]; apply Hgone).
  destruct (close_fails body); simpl; [intros [= <- <-]; apply Hgone|].
  unfold on_error.
  destruct (writePutOutput _ _ _ _ _ _ _) as [[[]|err1|] m1]; try done.
  intros [= <- <-]. apply Hgone.
Qed.

(** X9.  A write that is not a streaming one and fails leaves no content
    file of its own behind: afterwards either the directory is what it was
    before the request, or there is no entry under the identifier. *)
Theorem failed_upload_leaves_no_file config e r id m err m' :
  isStream r = false →
  handleClipboardPut config e r id m = (Fail err, m') →
  disk m' = disk m ∨ disk m' !! id = None.
Proof.
  intros Hst. unfold handleClipboardPut.
  destruct (put_setup config e r id m) as [[x|err0|] m1] eqn:Hsetup.
  - (* the set-up is done: the failure is in the copy or after it *)
    pose proof Hsetup as Hx.
    apply put_setup_Done in Hx
      as (body & mode & ttl & ma & _ & _ & _ & _ & _ & -> & _).
    rewrite (bind_Done _ _ _ _ _ Hsetup), Hst. intros Hcopy. right.
    by eapply put_copy_Fail.
  - rewrite (bind_Fail _ _ _ _ _ Hsetup). intros [= <- <-].
    revert Hsetup. unfold put_setup.
    destruct (getClipboardFile id) as [|[file metafile]] eqn:Hid;
      [intros [= _ <-]; by left|].
    apply getClipboardFile_inr in Hid as (Hid & -> & ->).
    destruct (Body r) as [body|] eqn:Hbody; [|intros [= _ <-]; by left].
    fold (put_setup config e r id).
    destruct (put_charge e r id (id +:+ ":meta") m) as [[[]|err1|] ma] eqn:Hcharge.
    + pose proof (put_setup_plain config e r id body ma m Hid Hbody Hst Hcharge)
        as Hplain.
      unfold put_setup in Hplain.
      rewrite getClipboardFile_ok, Hbody in Hplain by done.
      rewrite Hplain. clear Hplain. simpl.
      assert (Hgone : ∀ mx : machine,
        delete (id +:+ ":meta") (delete id (disk mx)) !! id = None).
      { intros mx. rewrite lookup_delete_ne by apply not_eq_sym, name_ne_meta.
        apply lookup_delete_eq. }
      destruct (getFileMode config r); [intros [= _ <-]; right; apply Hgone|].
      destruct (getTTL config r); [intros [= _ <-]; right; apply Hgone|].
      destruct (open_meta_fails e); [intros [= _ <-]; right; apply Hgone|].
      destruct (open_file_fails e); [|done].
      intros [= _ <-]. right. simpl.
      rewrite lookup_insert_ne by apply not_eq_sym, name_ne_meta. apply Hgone.
    + unfold mbind, M_bind. rewrite Hcharge. intros [= _ <-]. left.
      by apply put_charge_frame in Hcharge as (_ & -> & _).
    + by apply put_charge_frame in Hcharge as (_ & _ & _ & _ & _ & ?).
  - by rewrite (bind_Blocked _ _ _ _ Hsetup).
Qed.

(** X10.  The reserved names are refused by both clipboard handlers with
    [ErrHTTPBadRequest], whatever the directory holds under them, and the
    refusal changes nothing. *)
Theorem reserved_names_refused config e r id m :
  id ∈ reservedFiles →
  handleClipboardGet config e id m = (Fail ErrHTTPBadRequest, m)
  ∧ handleClipboardPut config e r id m = (Fail ErrHTTPBadRequest, m).
Proof.
  intros Hid.
  assert (Hfile : ∃ err, getClipboardFile id = inl err).
  { unfold getClipboardFile. rewrite bool_decide_eq_true_2 by done. eauto. }
  destruct Hfile as [err Hfile].
  unfold handleClipboardGet, handleClipboardPut, put_setup.
  by rewrite Hfile.
Qed.

(** X11.  A read of a regular entry returns its bytes, sets the [Length]
    header to their number, and changes nothing of the server: directory,
    limiters and visitors are as before, so the entry can be read again.
    The entry's metadata is not looked at: an entry whose expiry stamp has
    passed is served until a sweep removes it. *)
Theorem read_of_regular_entry config e id m content t :
  id ∉ reservedFiles → disk m !! id = Some (Regular content t) →
  client_gone e = false →
  ∃ m', handleClipboardGet config e id m = (Done (), m')
    ∧ same_server m m'
    ∧ w_body m' = w_body m ++ content
    ∧ values_of "Length" (w_header m') = [fmt_d (Z.of_nat (length content))].
Proof.
  intros Hid Hn Hc. unfold handleClipboardGet.
  rewrite getClipboardFile_ok by done.
  unfold mbind, M_bind, gets, Header_Set, modify, w_Write. rewrite Hn, Hc. simpl.
  assert (Hlen : ∀ v h,
    values_of "Length" (("Length", v) :: filter (λ kv, kv.1 ≠ "Length") h) = [v]).
  { intros v h. unfold values_of. rewrite filter_cons_True by done.
    rewrite list_filter_filter.
    rewrite (list_filter_iff _ (λ _, False)) by (intros [k w]; simpl; tauto).
    clear. simpl. f_equal. by induction h. }
  destruct content as [|b content]; eexists; (split; [reflexivity|]); simpl.
  - rewrite app_nil_r. repeat split; try done; apply Hlen.
  - repeat split; try done; apply Hlen.
Qed.

(** X12.  A write to an existing entry whose metadata gives the mode
    [modeReadOnly] is refused with [ErrHTTPMethodNotAllowed], the visitor's
    put-count allowing it: the directory, and with it the entry and its
    metadata, the two global limiters and the response are as before. *)
Theorem write_to_read_only_entry config e r id body n mf lim m :
  id ∉ reservedFiles → Body r = Some body →
  disk m !! id = Some n →
  readMetaFile (disk m) (id +:+ ":meta") = Some mf → Mode mf = modeReadOnly →
  Add (default (newLimiter visitorCountLimit)
         (visitorCountLimiter <$> visitors m !! visitor_key r)) 1 = Some lim →
  ∃ m', handleClipboardPut config e r id m = (Fail ErrHTTPMethodNotAllowed, m')
    ∧ disk m' = disk m
    ∧ countLimiter m' = countLimiter m ∧ sizeLimiter m' = sizeLimiter m
    ∧ same_response m m'.
Proof.
  intros Hid Hbody Hn Hmf Hro Hadd.
  destruct (put_charge e r id (id +:+ ":meta") m) as [o ma] eqn:Hcharge.
  destruct (put_charge_existing _ _ _ _ _ _ _ _ Hn Hcharge)
    as (Hc & Hs & Hd & Hwh & Hwb & _ & _ & Ho).
  rewrite Hadd, Hmf, bool_decide_eq_true_2 in Ho by done. destruct Ho as [_ ->].
  exists ma. split; [|by repeat split].
  unfold handleClipboardPut, put_setup.
  rewrite getClipboardFile_ok, Hbody by done.
  unfold mbind, M_bind. by rewrite Hcharge.
Qed.

(** X13.  A write to an existing entry by a visitor whose put-count has
    reached [visitorCountLimit] is refused with [ErrHTTPTooManyRequests],
    whatever the mode of the entry; the directory, the two global
    limiters, the response and the visitor's count are as before. *)
Theorem write_over_visitor_cap config e r id body n v m :
  id ∉ reservedFiles → Body r = Some body →
  disk m !! id = Some n →
  visitors m !! visitor_key r = Some v →
  limit (visitorCountLimiter v) = visitorCountLimit →
  visitorCountLimit ≤ value (visitorCountLimiter v) →
  ∃ m', handleClipboardPut config e r id m = (Fail ErrHTTPTooManyRequests, m')
    ∧ disk m' = disk m
    ∧ countLimiter m' = countLimiter m ∧ sizeLimiter m' = sizeLimiter m
    ∧ same_response m m'
    ∧ visitor_count m' (visitor_key r) = visitor_count m (visitor_key r).
Proof.
  intros Hid Hbody Hn Hv Hlim Hval.
  assert (Hadd : Add (visitorCountLimiter v) 1 = None).
  { apply Add_breach; rewrite Hlim; unfold visitorCountLimit in *; lia. }
  exists (set_visitors
            (insert (visitor_key r)
               {| visitorCountLimiter := visitorCountLimiter v;
                  lastSeen := now e |}) m).
  split; [|repeat split; try done].
  - unfold handleClipboardPut, put_setup.
    rewrite getClipboardFile_ok, Hbody by done.
    unfold put_charge, mbind, M_bind, gets, getVisitor. rewrite Hn, Hv.
    unfold visitor_Add. simpl. rewrite lookup_insert_eq. simpl. by rewrite Hadd.
  - unfold visitor_count. simpl. by rewrite lookup_insert_eq, Hv.
Qed.

(** X14.  The handler removes the entry and its metadata before it looks
    at the mode and the time to live of the request.  A write to an
    existing writable entry that asks for a mode the server does not allow,
    or for a time to live that does not parse, is refused with the error of
    [getFileMode] or [getTTL], and the entry and its metadata are gone. *)
Theorem refused_write_removes_entry config e r id body n mf lim err m :
  id ∉ reservedFiles → Body r = Some body →
  disk m !! id = Some n →
  readMetaFile (disk m) (id +:+ ":meta") = Some mf → Mode mf ≠ modeReadOnly →
  Add (default (newLimiter visitorCountLimit)
         (visitorCountLimiter <$> visitors m !! visitor_key r)) 1 = Some lim →
  getFileMode config r = inl err
  ∨ (∃ mode, getFileMode config r = inr mode) ∧ getTTL config r = inl err →
  ∃ m', handleClipboardPut config e r id m = (Fail err, m')
    ∧ disk m' = delete (id +:+ ":meta") (delete id (disk m))
    ∧ disk m' !! id = None ∧ disk m' !! (id +:+ ":meta") = None.
Proof.
  intros Hid Hbody Hn Hmf Hrw Hadd Hbad.
  destruct (put_charge e r id (id +:+ ":meta") m) as [o ma] eqn:Hcharge.
  destruct (put_charge_existing _ _ _ _ _ _ _ _ Hn Hcharge)
    as (_ & _ & Hd & _ & _ & _ & _ & Ho).
  rewrite Hadd, Hmf, bool_decide_eq_false_2 in Ho by done. destruct Ho as [_ ->].
  eexists. split.
  - unfold handleClipboardPut.
    by rewrite (bind_Fail _ _ _ _ _
                  (put_setup_refused config e r id body ma m err Hid Hbody Hcharge Hbad)).
  - simpl. rewrite Hd. split; [done|]. split.
    + rewrite lookup_delete_ne by apply not_eq_sym, name_ne_meta.
      apply lookup_delete_eq.
    + apply lookup_delete_eq.
Qed.

Lemma getFileMode_allowed config r mode :
  getFileMode config r = inr mode → mode ∈ FileModesAllowed config.
Proof.
  unfold getFileMode. destruct (FileModesAllowed config) as [|first rest]; [done|].
  case_bool_decide; [|done]. by intros [= <-].
Qed.

Lemma getTTL_capped config r ttl :
  getTTL config r = inr ttl → 0 < FileExpireAfter config →
  ttl ≤ FileExpireAfter config.
Proof.
  unfold getTTL. intros Httl Hpos.
  destruct (if nonempty (Get (URL_Query r) queryParamTTL) then _ else _)
    as [parsed|]; [|done].
  apply Z.ltb_lt in Hpos. rewrite Hpos in Httl. simpl in Httl.
  destruct (FileExpireAfter config <? parsed) eqn:E; injection Httl as <-; [lia|].
  by apply Z.ltb_ge in E.
Qed.

(** X15.  After a write that returned [nil], the metadata side-file of the
    entry decodes to the mode and the expiry stamp of the request, provided
    the entry has not expired by the time the handler returns: the mode is
    one of [FileModesAllowed], and the stamp is that of a time to live that
    [FileExpireAfter], when it is set, bounds. *)
Theorem stored_metadata config e r id m m1 :
  is_meta id = false →
  handleClipboardPut config e r id m = (Done (), m1) →
  unexpired (now_done e) (expiry_of config e r) →
  ∃ mode ttl,
    getFileMode config r = inr mode ∧ getTTL config r = inr ttl
    ∧ readMetaFile (disk m1) (id +:+ ":meta")
      = Some {| Mode := mode; Expires := expires_at e ttl |}
    ∧ mode ∈ FileModesAllowed config
    ∧ (0 < FileExpireAfter config → ttl ≤ FileExpireAfter config).
Proof.
  intros Hmeta Hput Hlive.
  apply handleClipboardPut_Done in Hput
    as (body & mode & ttl & ma & m0 & Hid & Hbody & Hmode & Httl & _ & _ & -> & _ & _
        & _ & Hd).
  exists mode, ttl. unfold expiry_of in Hlive. rewrite Httl in Hlive.
  assert (Hmf : readMetaFile (disk m0) (id +:+ ":meta")
                = Some {| Mode := mode; Expires := expires_at e ttl |}).
  { rewrite Hd. erewrite readMetaFile_lookup; [apply readMetaFile_insert|].
    by rewrite lookup_insert_ne by apply name_ne_meta. }
  destruct (updateStatsAndExpire_keeps config (now_done e) (readdir_fails e) m0 id
              _ Hmeta Hmf Hlive) as [_ Hkm].
  split_and!; [done|done| |by eapply getFileMode_allowed|by apply (getTTL_capped config r)].
  by rewrite (readMetaFile_lookup _ _ _ Hkm).
Qed.

(** An entry with readable metadata whose expiry stamp has passed is
    expired. *)
Lemma expired_entry_stamp config now d name n mf :
  is_meta name = false → d !! name = Some n →
  readMetaFile d (name +:+ ":meta") = Some mf →
  0 < Expires mf → Expires mf * Second < now →
  expired_entry config now d name = true.
Proof.
  intros Hmeta Hn Hmf Hpos Hpast. unfold expired_entry, isExpired.
  rewrite Hmeta, Hn, Hmf. simpl.
  apply Z.ltb_lt in Hpos as ->. apply Z.ltb_lt, sat64_pos. lia.
Qed.

(** X16.  An entry written with an expiry stamp is gone, with its metadata,
    after the first sweep that reads the directory at a time later than the
    stamp. *)
Theorem upload_expires config e r id m m1 t :
  is_meta id = false →
  handleClipboardPut config e r id m = (Done (), m1) →
  0 < expiry_of config e r → expiry_of config e r * Second < t →
  disk (updateStatsAndExpire config t false m1) !! id = None
  ∧ disk (updateStatsAndExpire config t false m1) !! (id +:+ ":meta") = None.
Proof.
  intros Hmeta Hput Hpos Hpast.
  apply handleClipboardPut_Done in Hput
    as (body & mode & ttl & ma & m0 & Hid & Hbody & Hmode & Httl & _ & _ & -> & _ & _
        & _ & Hd).
  unfold expiry_of in *. rewrite Httl in *.
  set (m1 := updateStatsAndExpire config (now_done e) (readdir_fails e) m0).
  assert (Hmf : readMetaFile (disk m0) (id +:+ ":meta")
                = Some {| Mode := mode; Expires := expires_at e ttl |}).
  { rewrite Hd. erewrite readMetaFile_lookup; [apply readMetaFile_insert|].
    by rewrite lookup_insert_ne by apply name_ne_meta. }
  assert (Hfile : disk m0 !! id = Some (Regular (body_bytes body) (now e)))
    by (rewrite Hd; apply lookup_insert_eq).
  (* after the handler's own sweep the entry is gone, or as written *)
  assert (Hcases :
    (disk m1 !! id = None ∧ disk m1 !! (id +:+ ":meta") = None)
    ∨ (disk m1 !! id = disk m0 !! id
       ∧ disk m1 !! (id +:+ ":meta") = disk m0 !! (id +:+ ":meta"))).
  { subst m1. destruct (readdir_fails e); [by right|].
    destruct (updateStatsAndExpire_spec config (now_done e) m0) as (Hdisk & _).
    rewrite !Hdisk.
    destruct (expired_entry config (now_done e) (disk m0) id) eqn:Hexp.
    - left.
      assert (H1 : swept config (now_done e) (disk m0) (ReadDir (disk m0)) id
                   = true) by (apply swept_ReadDir; eauto).
      assert (H2 : swept config (now_done e) (disk m0) (ReadDir (disk m0))
                     (id +:+ ":meta") = true) by (apply swept_ReadDir; eauto).
      by rewrite H1, H2.
    - right.
      assert (H1 : swept config (now_done e) (disk m0) (ReadDir (disk m0)) id
                   = false).
      { apply not_true_is_false. intros [Hs|(b & Hb & _)]%swept_ReadDir;
          [congruence|]. by rewrite Hb, is_meta_app in Hmeta. }
      assert (H2 : swept config (now_done e) (disk m0) (ReadDir (disk m0))
                     (id +:+ ":meta") = false).
      { apply not_true_is_false. intros [Hs|(b & Hb & Hs)]%swept_ReadDir.
        - apply expired_entry_meta in Hs. by rewrite is_meta_app in Hs.
        - apply string_app_inj_r in Hb as <-. congruence. }
      by rewrite H1, H2. }
  destruct Hcases as [[H1 H2]|[H1 H2]].
  - split; by apply updateStatsAndExpire_absent.
  - destruct (updateStatsAndExpire_spec config t m1) as (Hdisk & _).
    rewrite !Hdisk.
    assert (Hexp : expired_entry config t (disk m1) id = true).
    { apply (expired_entry_stamp config t (disk m1) id
               (Regular (body_bytes body) (now e))
               {| Mode := mode; Expires := expires_at e ttl |});
        [done|by rewrite H1| |done|done].
      by rewrite (readMetaFile_lookup _ _ _ H2). }
    assert (H3 : swept config t (disk m1) (ReadDir (disk m1)) id = true)
      by (apply swept_ReadDir; eauto).
    assert (H4 : swept config t (disk m1) (ReadDir (disk m1)) (id +:+ ":meta")
                 = true) by (apply swept_ReadDir; eauto).
    by rewrite H3, H4.
Qed.

Lemma values_of_Header_Set k v k' h :
  values_of k' ((k, v) :: filter (λ kv, kv.1 ≠ k) h)
  = if bool_decide (k' = k) then [v] else values_of k' h.
Proof.
  unfold values_of. rewrite filter_cons. simpl.
  rewrite list_filter_filter. case_bool_decide as Hk.
  - subst k'. rewrite decide_True by done.
    rewrite (list_filter_iff _ (λ _, False)) by (intros [a b]; simpl; tauto).
    simpl. f_equal. clear. by induction h.
  - rewrite decide_False by (by apply not_eq_sym).
    f_equal. apply list_filter_iff. intros [a b]. simpl. split; [tauto|].
    intros ->. done.
Qed.

(** X17.  Once the URL of the entry is made, [writePutOutput] sets three
    response headers, whether or not the body can be written after them:
    [Content-Type] is [application/octet-stream], [X-Url] is the URL and
    [X-Expires] is the expiry stamp in decimal, each with exactly one
    value; every other header is as before. *)
Theorem writePutOutput_headers config e id expires ttl format url m o m' :
  GenerateClipURL config id ttl = Some url →
  writePutOutput config e id expires ttl format m = (o, m') →
  values_of "Content-Type" (w_header m') = ["application/octet-stream"]
  ∧ values_of headerURL (w_header m') = [url]
  ∧ values_of headerExpires (w_header m') = [fmt_d expires]
  ∧ ∀ k, k ≠ "Content-Type" → k ≠ headerURL → k ≠ headerExpires →
      values_of k (w_header m') = values_of k (w_header m).
Proof.
  intros Hurl. unfold writePutOutput. rewrite Hurl.
  do 3 (erewrite bind_Done by reflexivity).
  set (m0 := set_w_header _ (set_w_header _ (set_w_header _ m))).
  set (h := ("X-Expires", fmt_d expires)
            :: filter (λ kv, kv.1 ≠ "X-Expires")
                 (("X-Url", url)
                  :: filter (λ kv, kv.1 ≠ "X-Url")
                       (("Content-Type", "application/octet-stream")
                        :: filter (λ kv, kv.1 ≠ "Content-Type") (w_header m)))).
  assert (Hm0 : w_header m0 = h) by done. clearbody m0.
  intros Hrun.
  assert (Hh : w_header m' = h).
  { rewrite <- Hm0. revert Hrun.
    set (first := if bool_decide (format = "json")
                  then json_Encode_httpResponsePut
                         {| URL := url; ResponseExpires := expires |}
                  else bytes_of (url +:+ String "010" EmptyString)).
    assert (Hfirst : (if bool_decide (format = "json")
                      then w_Write e (json_Encode_httpResponsePut
                                        {| URL := url; ResponseExpires := expires |})
                      else w_Write e (bytes_of (url +:+ String "010" EmptyString)))
                     = w_Write e first) by (subst first; by destruct (bool_decide _)).
    rewrite Hfirst. clear Hfirst. clearbody first.
    destruct (client_gone e) eqn:Hgone.
    - erewrite bind_Fail; [by intros [= _ <-]|].
      unfold w_Write. by rewrite Hgone.
    - erewrite (bind_Done _ _ _ () (set_w_body (λ b, b ++ first) m0));
        [|unfold w_Write; by rewrite Hgone].
      rewrite repeat_w_Write_ by done. by intros [= _ <-]. }
  rewrite Hh. subst h. unfold headerURL, headerExpires.
  rewrite !values_of_Header_Set. simpl. split_and!; try done.
  intros k H1 H2 H3. rewrite !values_of_Header_Set.
  by rewrite !bool_decide_eq_false_2 by done.
Qed.


(** X18.  A streaming write to a new identifier whose early response
    cannot be written, the pipe having been made, fails with the pipe and
    the metadata left in the directory and the count of the global limiter
    taken back.  A read of the identifier then blocks in [os.Open], no
    writer being at the pipe. *)
Theorem failed_stream_setup_leaves_pipe config e r id body mode ttl lim m :
  id ∉ reservedFiles → Body r = Some body → isStream r = true →
  disk m !! id = None → Add (countLimiter m) 1 = Some lim →
  getFileMode config r = inr mode → getTTL config r = inr ttl →
  open_meta_fails e = false → mkfifo_fails e = false →
  client_gone e = true ∨ GenerateClipURL config id ttl = None →
  ∃ err m', handleClipboardPut config e r id m = (Fail err, m')
    ∧ disk m' !! id = Some (Fifo None (now e))
    ∧ readMetaFile (disk m') (id +:+ ":meta")
      = Some {| Mode := mode; Expires := expires_at e ttl |}
    ∧ value (countLimiter m') = value (countLimiter m)
    ∧ ∀ e2, handleClipboardGet config e2 id (fresh_response m')
            = (Blocked, fresh_response m').
Proof.
  intros Hid Hbody Hst Hnew Hadd Hmode Httl Hmeta Hfifo Hout.
  set (m3 := set_disk (insert id (Fifo None (now e)))
               (set_disk (insert (id +:+ ":meta")
                            (Regular (json_Encode_metaFile
                                        {| Mode := mode;
                                           Expires := expires_at e ttl |})
                               (now e)))
                  (set_disk (delete (id +:+ ":meta"))
                     (set_disk (delete id)
                        (set_countLimiter (λ _, lim) m))))).
  destruct (writePutOutput_fails config e id (expires_at e ttl) ttl
              (outputFormat r) m3 Hout) as (err & m4 & Hw & Hc & Hs & Hv & Hd).
  exists err, (set_countLimiter (λ l, Sub l 1) m4).
  assert (Hsetup : put_setup config e r id m
                   = (Fail err, set_countLimiter (λ l, Sub l 1) m4)).
  { unfold put_setup. rewrite getClipboardFile_ok, Hbody, Hst by done.
    unfold mbind, M_bind. rewrite (put_charge_new _ _ _ _ _ Hnew), Hadd. simpl.
    rewrite Hmode, Httl. simpl. rewrite Hmeta, Hfifo. simpl.
    unfold on_error. fold (expires_at e ttl). fold m3. by rewrite Hw. }
  split; [unfold handleClipboardPut; by rewrite (bind_Fail _ _ _ _ _ Hsetup)|].
  assert (Hpipe : disk m4 !! id = Some (Fifo None (now e)))
    by (rewrite Hd; apply lookup_insert_eq).
  simpl. split_and!.
  - done.
  - rewrite Hd. subst m3. simpl.
    erewrite readMetaFile_lookup; [apply readMetaFile_insert|].
    by rewrite lookup_insert_ne by apply name_ne_meta.
  - rewrite Hc. simpl. apply Add_value in Hadd as [-> _]. lia.
  - intros e2. unfold handleClipboardGet. rewrite getClipboardFile_ok by done.
    unfold mbind, M_bind, gets. simpl. by rewrite Hpipe.
Qed.

End HandlersFurther.

Ltac not_reserved :=
  let Hin := fresh "Hin" in
  vm_compute; intros Hin;
  repeat (apply elem_of_cons in Hin as [?|Hin]; [done|]);
  by apply elem_of_nil in Hin.

Lemma failed_upload_leaves_no_file_witness :
  disk (handleClipboardPut example_config example_env
          (example_put "hello world") "abc123"
          (newServer example_config ∅)).2
  = disk (newServer example_config ∅)
  ∨ disk (handleClipboardPut example_config example_env
            (example_put "hello world") "abc123"
            (newServer example_config ∅)).2 !! "abc123" = None.
Proof.
  apply (failed_upload_leaves_no_file example_config example_env
           (example_put "hello world") "abc123" (newServer example_config ∅)
           ErrHTTPPayloadTooLarge).
  - reflexivity.
  - vm_compute. reflexivity.
Defined.

Lemma reserved_names_refused_witness :
  handleClipboardGet example_config example_env "static"
    (newServer example_config ∅)
  = (Fail ErrHTTPBadRequest, newServer example_config ∅)
  ∧ handleClipboardPut example_config example_env (example_put "hello") "static"
      (newServer example_config ∅)
    = (Fail ErrHTTPBadRequest, newServer example_config ∅).
Proof.
  apply reserved_names_refused. unfold reservedFiles.
  repeat (first [apply list_elem_of_here|apply list_elem_of_further]).
Defined.

Lemma read_of_regular_entry_witness :
  ∃ m', handleClipboardGet example_config example_env "abc123"
          (newServer example_config example_disk_expiring) = (Done (), m')
    ∧ same_server (newServer example_config example_disk_expiring) m'
    ∧ w_body m' = [] ++ bytes_of "hello"
    ∧ values_of "Length" (w_header m') = [fmt_d (Z.of_nat (length (bytes_of "hello")))].
Proof.
  apply (read_of_regular_entry example_config example_env "abc123"
           (newServer example_config example_disk_expiring)
           (bytes_of "hello") (1700000000 * Second)).
  - not_reserved.
  - vm_compute. reflexivity.
  - reflexivity.
Defined.

Lemma write_to_read_only_entry_witness :
  ∃ m', handleClipboardPut example_config example_env (example_put "new") "abc123"
          (newServer example_config example_disk_read_only)
        = (Fail ErrHTTPMethodNotAllowed, m')
    ∧ disk m' = disk (newServer example_config example_disk_read_only)
    ∧ countLimiter m' = countLimiter (newServer example_config example_disk_read_only)
    ∧ sizeLimiter m' = sizeLimiter (newServer example_config example_disk_read_only)
    ∧ same_response (newServer example_config example_disk_read_only) m'.
Proof.
  apply (write_to_read_only_entry example_config example_env (example_put "new")
           "abc123" (example_body "new")
           (Regular (bytes_of "hello") (1600000000 * Second))
           {| Mode := "ro"; Expires := 0 |} {| value := 1; limit := 10 |}).
  - not_reserved.
  - reflexivity.
  - vm_compute. reflexivity.
  - vm_compute. reflexivity.
  - reflexivity.
  - vm_compute. reflexivity.
Defined.

Lemma write_over_visitor_cap_witness :
  ∃ m', handleClipboardPut example_config example_env (example_put "new") "abc123"
          example_server_busy
        = (Fail ErrHTTPTooManyRequests, m')
    ∧ disk m' = disk example_server_busy
    ∧ countLimiter m' = countLimiter example_server_busy
    ∧ sizeLimiter m' = sizeLimiter example_server_busy
    ∧ same_response example_server_busy m'
    ∧ visitor_count m' (visitor_key (example_put "new"))
      = visitor_count example_server_busy (visitor_key (example_put "new")).
Proof.
  apply (write_over_visitor_cap example_config example_env (example_put "new")
           "abc123" (example_body "new")
           (Regular (bytes_of "hello") (1600000000 * Second))
           {| visitorCountLimiter := {| value := 10; limit := 10 |};
              lastSeen := 1700000000 * Second |}).
  - not_reserved.
  - reflexivity.
  - vm_compute. reflexivity.
  - vm_compute. reflexivity.
  - reflexivity.
  - vm_compute. discriminate.
Defined.

Lemma refused_write_removes_entry_witness :
  ∃ m', handleClipboardPut example_config example_env
          (example_put_mode "new" "zz") "abc123"
          (newServer example_config example_disk_one)
        = (Fail ErrHTTPBadRequest, m')
    ∧ disk m'
      = delete ("abc123" +:+ ":meta")
          (delete "abc123" (disk (newServer example_config example_disk_one)))
    ∧ disk m' !! "abc123" = None ∧ disk m' !! ("abc123" +:+ ":meta") = None.
Proof.
  apply (refused_write_removes_entry example_config example_env
           (example_put_mode "new" "zz") "abc123" (example_body "new")
           (Regular (bytes_of "hello") (1600000000 * Second))
           {| Mode := "rw"; Expires := 0 |} {| value := 1; limit := 10 |}).
  - not_reserved.
  - reflexivity.
  - vm_compute. reflexivity.
  - vm_compute. reflexivity.
  - vm_compute. discriminate.
  - vm_compute. reflexivity.
  - left. vm_compute. reflexivity.
Defined.

Lemma stored_metadata_witness :
  ∃ mode ttl,
    getFileMode example_config (example_put_ttl "hello") = inr mode
    ∧ getTTL example_config (example_put_ttl "hello") = inr ttl
    ∧ readMetaFile
        (disk (handleClipboardPut example_config example_env
                 (example_put_ttl "hello") "abc123"
                 (newServer example_config ∅)).2) ("abc123" +:+ ":meta")
      = Some {| Mode := mode; Expires := expires_at example_env ttl |}
    ∧ mode ∈ FileModesAllowed example_config
    ∧ (0 < FileExpireAfter example_config → ttl ≤ FileExpireAfter example_config).
Proof.
  apply (stored_metadata example_config example_env (example_put_ttl "hello")
           "abc123" (newServer example_config ∅)).
  - reflexivity.
  - vm_compute. reflexivity.
  - right. vm_compute. discriminate.
Defined.

Lemma upload_expires_witness :
  disk (updateStatsAndExpire example_config (1700000061 * Second) false
          (handleClipboardPut example_config example_env
             (example_put_ttl "hello") "abc123"
             (newServer example_config ∅)).2) !! "abc123" = None
  ∧ disk (updateStatsAndExpire example_config (1700000061 * Second) false
            (handleClipboardPut example_config example_env
               (example_put_ttl "hello") "abc123"
               (newServer example_config ∅)).2) !! ("abc123" +:+ ":meta") = None.
Proof.
  apply (upload_expires example_config example_env (example_put_ttl "hello")
           "abc123" (newServer example_config ∅)).
  - reflexivity.
  - vm_compute. reflexivity.
  - vm_compute. reflexivity.
  - vm_compute. reflexivity.
Defined.

Lemma writePutOutput_headers_witness :
  values_of "Content-Type"
    (w_header (writePutOutput example_config example_env_client_gone "abc123"
                 1700000060 (60 * Second) "text"
                 (newServer example_config ∅)).2)
  = ["application/octet-stream"]
  ∧ values_of headerURL
      (w_header (writePutOutput example_config example_env_client_gone "abc123"
                   1700000060 (60 * Second) "text"
                   (newServer example_config ∅)).2)
    = ["https://pcopy.example/abc123"]
  ∧ values_of headerExpires
      (w_header (writePutOutput example_config example_env_client_gone "abc123"
                   1700000060 (60 * Second) "text"
                   (newServer example_config ∅)).2)
    = [fmt_d 1700000060].
Proof.
  assert (Hurl : GenerateClipURL example_config "abc123" (60 * Second)
                 = Some "https://pcopy.example/abc123") by reflexivity.
  destruct (writePutOutput_headers example_config example_env_client_gone "abc123"
              1700000060 (60 * Second) "text" "https://pcopy.example/abc123"
              (newServer example_config ∅) _ _ Hurl (surjective_pairing _))
    as (H1 & H2 & H3 & _).
  auto.
Defined.

Lemma failed_stream_setup_leaves_pipe_witness :
  ∃ err m',
    handleClipboardPut example_config example_env_client_gone
      (example_put_stream "hello") "abc123" (newServer example_config ∅)
    = (Fail err, m')
    ∧ disk m' !! "abc123" = Some (Fifo None (now example_env_client_gone))
    ∧ readMetaFile (disk m') ("abc123" +:+ ":meta")
      = Some {| Mode := "rw"; Expires := expires_at example_env_client_gone 0 |}
    ∧ value (countLimiter m') = value (countLimiter (newServer example_config ∅))
    ∧ ∀ e2, handleClipboardGet example_config e2 "abc123" (fresh_response m')
            = (Blocked, fresh_response m').
Proof.
  apply (failed_stream_setup_leaves_pipe example_config example_env_client_gone
           (example_put_stream "hello") "abc123" (example_body "hello") "rw" 0
           {| value := 1; limit := 2 |}).
  - not_reserved.
  - reflexivity.
  - vm_compute. reflexivity.
  - vm_compute. reflexivity.
  - vm_compute. reflexivity.
  - vm_compute. reflexivity.
  - vm_compute. reflexivity.
  - reflexivity.
  - reflexivity.
  - left. reflexivity.
Defined.
(** * Properties of the routing *)

(** ** The identifiers the clipboard routes admit *)

Lemma is_id_char_plain c :
  is_id_char c = true → no_colon c = true ∧ no_slash c = true.
Proof. destruct c as [[] [] [] [] [] [] [] []]; by cbv. Qed.

Lemma id_tail_chars k s n :
  (String.length s ≤ k)%nat → id_tail s = Some n →
  all_chars no_colon s = true ∧ all_chars no_slash s = true
  ∧ (n ≤ String.length s ≤ 3 * n)%nat.
Proof.
  revert s n. induction k as [|k IH]; intros s n Hlen.
  { destruct s; simpl in Hlen; [|lia]. intros [= <-]. simpl. split_and!; done || lia. }
  destruct s as [|c rest]; [intros [= <-]; simpl; split_and!; done || lia|].
  simpl in Hlen. cbn [id_tail].
  destruct (is_id_char c) eqn:Hc.
  { destruct (id_tail rest) as [n'|] eqn:Hrest; [|done]. intros [= <-].
    destruct (IH rest n') as (H1 & H2 & H3); [lia|done|].
    destruct (is_id_char_plain c Hc) as [Hc1 Hc2].
    simpl. rewrite Hc1, Hc2, H1, H2. split_and!; done || lia. }
  destruct rest as [|c2 rest2]; [done|].
  destruct (Ascii.eqb c "197" && Ascii.eqb c2 "191") eqn:Hs.
  { apply andb_true_iff in Hs as [->%Ascii.eqb_eq ->%Ascii.eqb_eq].
    destruct (id_tail rest2) as [n'|] eqn:Hrest; [|done]. intros [= <-].
    destruct (IH rest2 n') as (H1 & H2 & H3); [simpl in Hlen; lia|done|].
    simpl. rewrite H1, H2. simpl in *. split_and!; done || lia. }
  destruct rest2 as [|c3 rest3]; [done|].
  destruct (Ascii.eqb c "226" && Ascii.eqb c2 "132" && Ascii.eqb c3 "170") eqn:Hk;
    [|done].
  apply andb_true_iff in Hk as [[->%Ascii.eqb_eq ->%Ascii.eqb_eq]%andb_true_iff
                                  ->%Ascii.eqb_eq].
  destruct (id_tail rest3) as [n'|] eqn:Hrest; [|done]. intros [= <-].
  destruct (IH rest3 n') as (H1 & H2 & H3); [simpl in Hlen; lia|done|].
  simpl. rewrite H1, H2. simpl in *. split_and!; done || lia.
Qed.

Lemma folded_rune_chars id rest :
  folded_rune is_alnum id = Some rest →
  ∃ first, id = first +:+ rest
    ∧ all_chars no_colon first = true ∧ all_chars no_slash first = true
    ∧ (1 ≤ String.length first ≤ 3)%nat.
Proof.
  destruct id as [|c s]; [done|]. cbn [folded_rune].
  destruct (is_alnum c) eqn:Hc.
  { intros [= <-]. exists (String c EmptyString).
    assert (is_id_char c = true) as [H1 H2]%is_id_char_plain
      by (unfold is_id_char; by rewrite Hc).
    simpl. rewrite H1, H2. split_and!; done || lia. }
  destruct s as [|c2 s2]; [done|].
  destruct (Ascii.eqb c "197" && Ascii.eqb c2 "191") eqn:Hs.
  { apply andb_true_iff in Hs as [->%Ascii.eqb_eq ->%Ascii.eqb_eq].
    intros [= <-]. exists (String "197" (String "191" EmptyString)).
    simpl. split_and!; done || lia. }
  destruct s2 as [|c3 s3]; [done|].
  destruct (Ascii.eqb c "226" && Ascii.eqb c2 "132" && Ascii.eqb c3 "170") eqn:Hk;
    [|done].
  apply andb_true_iff in Hk as [[->%Ascii.eqb_eq ->%Ascii.eqb_eq]%andb_true_iff
                                  ->%Ascii.eqb_eq].
  intros [= <-]. exists (String "226" (String "132" (String "170" EmptyString))).
  simpl. split_and!; done || lia.
Qed.

Lemma all_chars_app p s t :
  all_chars p (s +:+ t) = all_chars p s && all_chars p t.
Proof.
  induction s as [|c s IH]; [done|].
  change (String c s +:+ t) with (String c (s +:+ t)). simpl.
  by rewrite IH, andb_assoc.
Qed.

Lemma id_tail_ascii s :
  all_chars is_id_char s = true → id_tail s = Some (String.length s).
Proof.
  induction s as [|c s IH]; [done|]. intros [Hc Hs]%andb_true_iff.
  cbn [id_tail]. rewrite Hc, (IH Hs). done.
Qed.

Lemma re_clipboard_inv path fields :
  re_clipboard path = Some fields →
  ∃ id, fields = [id] ∧ path = String "/" id
    ∧ all_chars no_colon id = true ∧ all_chars no_slash id = true
    ∧ (2 ≤ String.length id ≤ 303)%nat.
Proof.
  unfold re_clipboard.
  destruct path as [|c id]; [done|].
  destruct (Ascii.eqb c "/") eqn:Hc;
    [apply Ascii.eqb_eq in Hc as ->
    |destruct c as [[] [] [] [] [] [] [] []]; done || discriminate Hc].
  destruct (folded_rune is_alnum id) as [rest|] eqn:Hhead; [|done].
  cbn -[Nat.leb].
  destruct (id_tail rest) as [n|] eqn:Htail; [|done]. cbn -[Nat.leb].
  destruct ((1 <=? n)%nat && (n <=? 100)%nat) eqn:Hn; [|done].
  intros [= <-]. exists id.
  apply andb_true_iff in Hn as [Hn1%Nat.leb_le Hn2%Nat.leb_le].
  apply folded_rune_chars in Hhead as (first & -> & Hf1 & Hf2 & Hf3).
  destruct (id_tail_chars (String.length rest) rest n) as (Ht1 & Ht2 & Ht3);
    [lia|done|].
  rewrite !all_chars_app, Hf1, Hf2, Ht1, Ht2, string_length_app.
  split_and!; done || lia.
Qed.

Lemma strip_prefix_Some p s rest : strip_prefix p s = Some rest → s = p +:+ rest.
Proof.
  revert s. induction p as [|a p IH]; intros s; [by intros [= ->]|].
  destruct s as [|b s]; [done|]. simpl.
  destruct (Ascii.eqb a b) eqn:E; [|done]. apply Ascii.eqb_eq in E as ->.
  intros ->%IH. done.
Qed.

(** A path of the clipboard pattern is not the root and no static path. *)
Lemma re_clipboard_apart path fields :
  re_clipboard path = Some fields →
  String.eqb path "/" = false ∧ re_static path = None.
Proof.
  intros (id & -> & -> & _ & Hslash & Hlen)%re_clipboard_inv. split.
  - destruct id; [simpl in Hlen; lia|done].
  - unfold re_static.
    destruct (strip_prefix "/static/" (String "/" id)) as [rest|] eqn:Hp; [|done].
    apply strip_prefix_Some in Hp.
    change ("/static/" +:+ rest) with (String "/" ("static/" +:+ rest)) in Hp.
    injection Hp as ->. rewrite all_chars_app in Hslash. done.
Qed.

(** X19.  The identifiers of the clipboard routes.  A path matches the
    pattern [/(?i)([a-z0-9][-_.a-z0-9]{1,100})] with one field, the path
    without its leading slash; that identifier has no colon and no slash,
    so it is no metadata name and names one file of the clipboard
    directory, and it is 2 to 303 bytes long.  Every identifier of 2 to 101
    ASCII letters, digits, [-], [_] and [.] that starts with a letter or
    digit is matched. *)
Theorem clipboard_route_identifiers :
  (∀ path fields,
     re_clipboard path = Some fields →
     ∃ id, fields = [id] ∧ path = "/" +:+ id
       ∧ all_chars no_colon id = true ∧ all_chars no_slash id = true
       ∧ is_meta id = false ∧ id +:+ ":meta" ≠ id
       ∧ (2 ≤ String.length id ≤ 303)%nat)
  ∧ (∀ id, permitted_id id = true → re_clipboard ("/" +:+ id) = Some [id]).
Proof.
  split.
  - intros path fields (id & -> & -> & Hcolon & Hslash & Hlen)%re_clipboard_inv.
    exists id. split_and!; try done; try lia.
    + destruct (is_meta id) eqn:Hm; [|done].
      apply HasSuffix_colon in Hm. congruence.
    + apply not_eq_sym, name_ne_meta.
  - intros id Hid. unfold permitted_id in Hid.
    destruct id as [|c rest]; [done|].
    apply andb_true_iff in Hid as [[[Hc Hrest]%andb_true_iff Hlo]%andb_true_iff Hhi].
    change ("/" +:+ String c rest) with (String "/" (String c rest)).
    unfold re_clipboard. cbn [folded_rune]. rewrite Hc. cbn -[Nat.leb].
    rewrite (id_tail_ascii _ Hrest). cbn -[Nat.leb]. by rewrite Hlo, Hhi.
Qed.

Section RoutingProperties.
Context `{Crypto} `{Services} `{Web}.
Variables (config : Config) (web : WebConfig) (e : Env) (allow : bool).
Variables (rnd : string) (hRoot hStatic : Request → M unit).

(** The route of a [GET] request. *)
Lemma find_route_GET r :
  Method r = "GET" →
  find_route (routeList config web e allow rnd hRoot hStatic) r
  = if String.eqb (URL_Path r) "/" then Some (hRoot r)
    else match re_static (URL_Path r) with
         | Some fields => Some (onlyIfWebUI web (λ _ r, hStatic r) fields r)
         | None =>
             if String.eqb (URL_Path r) "/info"
             then Some (rate_limit e allow (λ _ _, handleInfo config web e) [] r)
             else if String.eqb (URL_Path r) "/verify"
             then Some (rate_limit e allow
                          (λ _ r, auth config (now e) r handleVerify) [] r)
             else match re_clipboard (URL_Path r) with
                  | Some fields =>
                      Some (rate_limit e allow
                              (λ fields r, auth config (now e) r
                                 (id ← first_field fields;
                                  handleClipboardGet config e id)) fields r)
                  | None => None
                  end
         end.
Proof.
  intros Hm. unfold routeList.
  cbn [find_route regex method handler newRoute]. unfold re_literal. rewrite Hm.
  rewrite (bool_decide_eq_true_2 ("GET" = "GET")) by done.
  rewrite !(bool_decide_eq_false_2 ("GET" = "PUT")) by done.
  rewrite !(bool_decide_eq_false_2 ("GET" = "POST")) by done.
  destruct (String.eqb (URL_Path r) "/"); [done|].
  destruct (re_static (URL_Path r)); [done|].
  destruct (String.eqb (URL_Path r) "/info"); [done|].
  destruct (String.eqb (URL_Path r) "/verify"); [done|].
  by destruct (re_clipboard (URL_Path r)).
Qed.

(** The route of a [PUT] or [POST] request. *)
Lemma find_route_write r :
  Method r = "PUT" ∨ Method r = "POST" →
  find_route (routeList config web e allow rnd hRoot hStatic) r
  = if String.eqb (URL_Path r) "/"
    then Some (rate_limit e allow
                 (λ _ r, auth config (now e) r
                    (handleClipboardPutRandom config e r rnd)) [] r)
    else match re_clipboard (URL_Path r) with
         | Some fields =>
             Some (rate_limit e allow
                     (λ fields r, auth config (now e) r
                        (id ← first_field fields;
                         handleClipboardPut config e r id)) fields r)
         | None => None
         end.
Proof.
  intros Hm. unfold routeList.
  cbn [find_route regex method handler newRoute]. unfold re_literal.
  destruct Hm as [Hm|Hm]; rewrite Hm.
  - rewrite !(bool_decide_eq_false_2 ("PUT" = "GET")) by done.
    rewrite !(bool_decide_eq_true_2 ("PUT" = "PUT")) by done.
    rewrite !(bool_decide_eq_false_2 ("PUT" = "POST")) by done.
    destruct (String.eqb (URL_Path r) "/"); [done|].
    destruct (re_static (URL_Path r));
      destruct (String.eqb (URL_Path r) "/info");
      destruct (String.eqb (URL_Path r) "/verify");
      by destruct (re_clipboard (URL_Path r)).
  - rewrite !(bool_decide_eq_false_2 ("POST" = "GET")) by done.
    rewrite !(bool_decide_eq_false_2 ("POST" = "PUT")) by done.
    rewrite !(bool_decide_eq_true_2 ("POST" = "POST")) by done.
    destruct (String.eqb (URL_Path r) "/"); [done|].
    destruct (re_static (URL_Path r));
      destruct (String.eqb (URL_Path r) "/info");
      destruct (String.eqb (URL_Path r) "/verify");
      by destruct (re_clipboard (URL_Path r)).
Qed.

(** No route has another method. *)
Lemma find_route_other r :
  Method r ≠ "GET" → Method r ≠ "PUT" → Method r ≠ "POST" →
  find_route (routeList config web e allow rnd hRoot hStatic) r = None.
Proof.
  intros Hg Hp Hq. unfold routeList.
  cbn [find_route regex method handler newRoute]. unfold re_literal.
  rewrite !(bool_decide_eq_false_2 (Method r = "GET")) by done.
  rewrite !(bool_decide_eq_false_2 (Method r = "PUT")) by done.
  rewrite !(bool_decide_eq_false_2 (Method r = "POST")) by done.
  destruct (String.eqb (URL_Path r) "/");
    destruct (re_static (URL_Path r));
    destruct (String.eqb (URL_Path r) "/info");
    destruct (String.eqb (URL_Path r) "/verify");
    by destruct (re_clipboard (URL_Path r)).
Qed.

Lemma fail_run code m :
  ∃ m', fail e code m = (Done (Some code), m')
    ∧ same_server m m' ∧ w_header m' = w_header m
    ∧ (client_gone e = false
       → w_body m' = w_body m ++ bytes_of (StatusText code)).
Proof.
  unfold fail, mbind, M_bind, w_Write_.
  destruct (client_gone e); eexists; (split; [reflexivity|]);
    repeat split; done.
Qed.

Lemma respond_Fail (h : M unit) m err m1 :
  h m = (Fail err, m1) → (∀ what, err ≠ errPanic what) →
  respond e h m = fail e (status_of (Some err)) m1.
Proof.
  intros Hh Hp. unfold respond. rewrite Hh. destruct err; try done.
  by destruct (Hp what).
Qed.

Lemma respond_Done (h : M unit) m m1 :
  h m = (Done (), m1) → respond e h m = (Done None, m1).
Proof. intros Hh. unfold respond. by rewrite Hh. Qed.

(** A request the limiter or the authorisation turns away: the wrapped
    handler does not run. *)
Lemma rate_limit_auth_refused (next : list string → Request → M unit) fields r m err :
  allow = false ∨ authorize config (now e) r = Some err →
  ∃ code m',
    respond e (rate_limit e allow
                 (λ fields r, auth config (now e) r (next fields r)) fields r) m
    = (Done (Some code), m')
    ∧ (code = 429 ∨ code = 401)
    ∧ (allow = false → code = 429)
    ∧ disk m' = disk m ∧ countLimiter m' = countLimiter m
    ∧ sizeLimiter m' = sizeLimiter m ∧ w_header m' = w_header m.
Proof.
  intros Hgate.
  destruct (getVisitor_run e r m) as (v & Hv & _).
  set (mv := set_visitors (insert (visitor_key r) v) m) in *.
  destruct allow eqn:Hallow.
  - destruct Hgate as [|Hauth]; [done|].
    assert (err = ErrHTTPUnauthorized) as ->.
    { destruct (authorize_only_unauthorized config (now e) r) as [Hn|Hu];
        congruence. }
    destruct (fail_run 401 mv) as (m' & Hfail & (Hc & Hs & _ & Hd) & Hwh & _).
    exists 401, m'. split.
    + rewrite (respond_Fail _ m ErrHTTPUnauthorized mv); [exact Hfail| |done].
      unfold rate_limit. rewrite (bind_Done _ _ _ _ _ Hv).
      unfold auth. by rewrite Hauth.
    + rewrite Hc, Hs, Hd, Hwh. repeat split; auto; done.
  - destruct (fail_run 429 mv) as (m' & Hfail & (Hc & Hs & _ & Hd) & Hwh & _).
    exists 429, m'. split.
    + rewrite (respond_Fail _ m ErrHTTPTooManyRequests mv); [exact Hfail| |done].
      unfold rate_limit. by rewrite (bind_Done _ _ _ _ _ Hv).
    + rewrite Hc, Hs, Hd, Hwh. repeat split; auto; done.
Qed.

(** X20.  A request that matches no route is failed by [handle] with 404
    when its method is [GET] and with 400 otherwise: a request of a method
    other than [GET], [PUT] and [POST], or one whose path is not the root,
    does not match the clipboard pattern and for [GET] is no static path.
    No handler runs: the server is as before and the response gets the
    text of the status, nothing else. *)
Theorem unrouted_request r m :
  (Method r ≠ "GET" ∧ Method r ≠ "PUT" ∧ Method r ≠ "POST")
  ∨ (URL_Path r ≠ "/" ∧ re_clipboard (URL_Path r) = None
     ∧ (Method r = "GET" → re_static (URL_Path r) = None)) →
  ∃ m', handle config web e allow rnd hRoot hStatic r m
        = (Done (Some (if bool_decide (Method r = "GET") then 404 else 400)), m')
    ∧ same_server m m' ∧ w_header m' = w_header m
    ∧ (client_gone e = false
       → w_body m'
         = w_body m
           ++ bytes_of (StatusText
                          (if bool_decide (Method r = "GET") then 404 else 400))).
Proof.
  intros Hno.
  assert (Hroute : find_route (routeList config web e allow rnd hRoot hStatic) r
                   = None).
  { destruct (decide (Method r = "GET")) as [Hg|Hg];
      [|destruct (decide (Method r = "PUT")) as [Hp|Hp];
        [|destruct (decide (Method r = "POST")) as [Hq|Hq]]].
    - destruct Hno as [[? _]|(Hroot & Hclip & Hstatic)]; [done|].
      rewrite find_route_GET by done.
      apply String.eqb_neq in Hroot as ->. rewrite (Hstatic Hg), Hclip.
      destruct (String.eqb (URL_Path r) "/info") eqn:E1;
        [apply String.eqb_eq in E1; by rewrite E1 in Hclip|].
      destruct (String.eqb (URL_Path r) "/verify") eqn:E2;
        [apply String.eqb_eq in E2; by rewrite E2 in Hclip|]. done.
    - destruct Hno as [(_ & ? & _)|(Hroot & Hclip & _)]; [done|].
      rewrite find_route_write by auto.
      apply String.eqb_neq in Hroot as ->. by rewrite Hclip.
    - destruct Hno as [(_ & _ & ?)|(Hroot & Hclip & _)]; [done|].
      rewrite find_route_write by auto.
      apply String.eqb_neq in Hroot as ->. by rewrite Hclip.
    - by apply find_route_other. }
  unfold handle. rewrite Hroute.
  case_bool_decide; apply fail_run.
Qed.

(** X21.  On a protected server a [PUT] or [POST] request that is not
    authorised never reaches a handler: whatever its path and body,
    [handle] fails it, with 401, with 429 when the limiter refuses it first,
    or with 400 when no route matches, and the clipboard directory and the
    two global limiters are as before. *)
Theorem unauthorised_write_changes_nothing r m err :
  Method r = "PUT" ∨ Method r = "POST" →
  authorize config (now e) r = Some err →
  ∃ code m', handle config web e allow rnd hRoot hStatic r m
             = (Done (Some code), m')
    ∧ (code = 401 ∨ code = 429 ∨ code = 400)
    ∧ disk m' = disk m ∧ countLimiter m' = countLimiter m
    ∧ sizeLimiter m' = sizeLimiter m.
Proof.
  intros Hm Hauth. unfold handle. rewrite find_route_write by done.
  assert (Hno : Method r ≠ "GET") by (destruct Hm as [-> | ->]; done).
  destruct (String.eqb (URL_Path r) "/");
    [|destruct (re_clipboard (URL_Path r)) as [fields|]].
  - destruct (rate_limit_auth_refused
                (λ _ r, handleClipboardPutRandom config e r rnd) [] r m err)
      as (code & m' & Hrun & Hcode & _ & Hd & Hc & Hs & _); [by right|].
    exists code, m'. split; [exact Hrun|]. split_and!; try done. tauto.
  - destruct (rate_limit_auth_refused
                (λ fields r, id ← first_field fields;
                             handleClipboardPut config e r id) fields r m err)
      as (code & m' & Hrun & Hcode & _ & Hd & Hc & Hs & _); [by right|].
    exists code, m'. split; [exact Hrun|]. split_and!; try done. tauto.
  - rewrite bool_decide_eq_false_2 by done.
    destruct (fail_run 400 m) as (m' & Hfail & (Hc & Hs & _ & Hd) & _).
    exists 400, m'. split_and!; auto.
Qed.

(** X22.  A request the rate limiter refuses is failed with 429 before
    authorisation and before any handler: this holds for every [PUT] and
    [POST] route and for every [GET] route but the root page and the
    static files.  The clipboard directory and the two global limiters
    are as before. *)
Theorem rate_limited_request r m fields :
  allow = false →
  (Method r = "GET" ∧ re_clipboard (URL_Path r) = Some fields)
  ∨ ((Method r = "PUT" ∨ Method r = "POST")
     ∧ (URL_Path r = "/" ∨ re_clipboard (URL_Path r) = Some fields)) →
  ∃ m', handle config web e allow rnd hRoot hStatic r m = (Done (Some 429), m')
    ∧ disk m' = disk m ∧ countLimiter m' = countLimiter m
    ∧ sizeLimiter m' = sizeLimiter m.
Proof.
  intros Hallow Hroute.
  assert (Hlim : ∀ (next : list string → Request → M unit) fs,
    ∃ m', respond e (rate_limit e allow next fs r) m = (Done (Some 429), m')
      ∧ disk m' = disk m ∧ countLimiter m' = countLimiter m
      ∧ sizeLimiter m' = sizeLimiter m).
  { intros next fs.
    destruct (getVisitor_run e r m) as (v & Hv & _).
    destruct (fail_run 429 (set_visitors (insert (visitor_key r) v) m))
      as (m' & Hfail & (Hc & Hs & _ & Hd) & _).
    exists m'. split; [|by rewrite Hc, Hs, Hd].
    rewrite (respond_Fail _ m ErrHTTPTooManyRequests
               (set_visitors (insert (visitor_key r) v) m)); [done| |done].
    unfold rate_limit. rewrite (bind_Done _ _ _ _ _ Hv). by rewrite Hallow. }
  unfold handle. destruct Hroute as [[Hm Hclip]|[Hm Hpath]].
  - rewrite find_route_GET by done.
    destruct (re_clipboard_apart _ _ Hclip) as [-> ->]. rewrite Hclip.
    destruct (String.eqb (URL_Path r) "/info"); [apply Hlim|].
    destruct (String.eqb (URL_Path r) "/verify"); apply Hlim.
  - rewrite find_route_write by done. destruct Hpath as [->|Hclip].
    + simpl. apply Hlim.
    + destruct (re_clipboard_apart _ _ Hclip) as [-> _]. rewrite Hclip.
      apply Hlim.
Qed.

(** X23.  [GET /info] is answered without authorisation: on a protected
    server, whatever credentials the request carries or lacks, a request
    the limiter lets pass gets the server address and the base64 text of
    the salt of the key, the empty text on an unprotected server; the
    clipboard directory and the two global limiters are as before. *)
Theorem info_needs_no_credentials r m :
  Method r = "GET" → URL_Path r = "/info" →
  allow = true → client_gone e = false →
  ∃ m', handle config web e allow rnd hRoot hStatic r m = (Done None, m')
    ∧ w_body m'
      = w_body m
        ++ json_Encode_httpResponseInfo
             {| InfoServerAddr := ServerAddr web;
                InfoSalt := match ConfigKey config with
                            | Some key => base64_EncodeToString (Salt key)
                            | None => EmptyString
                            end |}
    ∧ disk m' = disk m ∧ countLimiter m' = countLimiter m
    ∧ sizeLimiter m' = sizeLimiter m.
Proof.
  intros Hm Hpath Hallow Hclient. unfold handle.
  rewrite find_route_GET by done. rewrite Hpath. simpl.
  destruct (getVisitor_run e r m) as (v & Hv & _).
  eexists. split.
  - apply respond_Done. unfold rate_limit.
    rewrite (bind_Done _ _ _ _ _ Hv), Hallow.
    unfold handleInfo, w_Write. rewrite Hclient. reflexivity.
  - done.
Qed.

(** X24.  [GET /verify] tells whether the credentials of the request
    authorise: a request the limiter lets pass is answered without an
    error exactly when [authorize] accepts it, and failed with 401
    otherwise.  Nothing of the server but the visitor's record changes,
    and an accepted request gets an empty body. *)
Theorem verify_reports_authorisation r m :
  Method r = "GET" → URL_Path r = "/verify" → allow = true →
  ∃ m', handle config web e allow rnd hRoot hStatic r m
        = (Done (if authorize config (now e) r is None then None else Some 401),
           m')
    ∧ disk m' = disk m ∧ countLimiter m' = countLimiter m
    ∧ sizeLimiter m' = sizeLimiter m
    ∧ (authorize config (now e) r = None → w_body m' = w_body m).
Proof.
  intros Hm Hpath Hallow. unfold handle.
  rewrite find_route_GET by done. rewrite Hpath. simpl.
  destruct (getVisitor_run e r m) as (v & Hv & _).
  set (mv := set_visitors (insert (visitor_key r) v) m) in *.
  destruct (authorize config (now e) r) as [err|] eqn:Hauth.
  - assert (err = ErrHTTPUnauthorized) as ->.
    { destruct (authorize_only_unauthorized config (now e) r); congruence. }
    destruct (fail_run 401 mv) as (m' & Hfail & (Hc & Hs & _ & Hd) & _).
    exists m'. split; [|by rewrite Hc, Hs, Hd].
    rewrite (respond_Fail _ m ErrHTTPUnauthorized mv); [done| |done].
    unfold rate_limit. rewrite (bind_Done _ _ _ _ _ Hv), Hallow.
    unfold auth. by rewrite Hauth.
  - exists mv. split; [|done].
    apply respond_Done. unfold rate_limit.
    rewrite (bind_Done _ _ _ _ _ Hv), Hallow. unfold auth. by rewrite Hauth.
Qed.

(** X25.  The clipboard routes.  A path of the clipboard pattern reaches,
    behind the limiter and the authorisation, [handleClipboardGet] with its
    identifier when the method is [GET], unless the path is [/info] or
    [/verify], whose routes come first, and [handleClipboardPut] with its
    identifier when the method is [PUT] or [POST]. *)
Theorem clipboard_dispatch r id m :
  re_clipboard (URL_Path r) = Some [id] →
  (Method r = "GET" → id ≠ "info" → id ≠ "verify" →
   handle config web e allow rnd hRoot hStatic r m
   = respond e (rate_limit e allow
                  (λ _ r, auth config (now e) r (handleClipboardGet config e id))
                  [] r) m)
  ∧ (Method r = "PUT" ∨ Method r = "POST" →
     handle config web e allow rnd hRoot hStatic r m
     = respond e (rate_limit e allow
                    (λ _ r, auth config (now e) r
                       (handleClipboardPut config e r id)) [] r) m).
Proof.
  intros Hclip. destruct (re_clipboard_apart _ _ Hclip) as [Hroot Hstatic].
  pose proof Hclip as (id' & [= <-] & Hpath & _)%re_clipboard_inv.
  unfold handle. split.
  - intros Hm Hinfo Hverify. rewrite find_route_GET by done.
    rewrite Hroot, Hstatic, Hclip, Hpath.
    destruct (String.eqb (String "/" id) "/info") eqn:E1;
      [apply String.eqb_eq in E1; congruence|].
    destruct (String.eqb (String "/" id) "/verify") eqn:E2;
      [apply String.eqb_eq in E2; congruence|]. done.
  - intros Hm. rewrite find_route_write by done. by rewrite Hroot, Hclip.
Qed.

End RoutingProperties.

Lemma unrouted_request_witness :
  ∃ m', handle example_config example_web example_env true "rnd123"
          example_page example_page
          (example_request "DELETE" "/abc123" [] [] None)
          (newServer example_config example_disk_one)
        = (Done (Some 400), m')
    ∧ same_server (newServer example_config example_disk_one) m'
    ∧ w_header m' = []
    ∧ (client_gone example_env = false
       → w_body m' = [] ++ bytes_of "Bad Request").
Proof.
  destruct (unrouted_request example_config example_web example_env true "rnd123"
              example_page example_page
              (example_request "DELETE" "/abc123" [] [] None)
              (newServer example_config example_disk_one))
    as (m' & Hrun & Hsame & Hh & Hb); [left; by split_and!|].
  exists m'. split_and!; [exact Hrun|exact Hsame|exact Hh|exact Hb].
Defined.

Lemma unauthorised_write_changes_nothing_witness :
  ∃ code m',
    handle example_config_protected example_web example_env true "rnd123"
      example_page example_page (example_put "hello")
      (newServer example_config_protected ∅)
    = (Done (Some code), m')
    ∧ (code = 401 ∨ code = 429 ∨ code = 400)
    ∧ disk m' = disk (newServer example_config_protected ∅)
    ∧ countLimiter m' = countLimiter (newServer example_config_protected ∅)
    ∧ sizeLimiter m' = sizeLimiter (newServer example_config_protected ∅).
Proof.
  apply (unauthorised_write_changes_nothing example_config_protected example_web
           example_env true "rnd123" example_page example_page
           (example_put "hello") _ ErrHTTPUnauthorized).
  - by left.
  - reflexivity.
Defined.

Lemma rate_limited_request_witness :
  ∃ m', handle example_config example_web example_env false "rnd123"
          example_page example_page
          (example_request "GET" "/abc123" [] [] None)
          (newServer example_config example_disk_one)
        = (Done (Some 429), m')
    ∧ disk m' = disk (newServer example_config example_disk_one)
    ∧ countLimiter m' = countLimiter (newServer example_config example_disk_one)
    ∧ sizeLimiter m' = sizeLimiter (newServer example_config example_disk_one).
Proof.
  apply (rate_limited_request example_config example_web example_env false
           "rnd123" example_page example_page
           (example_request "GET" "/abc123" [] [] None) _ ["abc123"]).
  - reflexivity.
  - left. split; reflexivity.
Defined.

Lemma info_needs_no_credentials_witness :
  ∃ m', handle example_config_protected example_web example_env true "rnd123"
          example_page example_page
          (example_request "GET" "/info" [] [] None)
          (newServer example_config_protected ∅)
        = (Done None, m')
    ∧ w_body m'
      = [] ++ example_Encode_httpResponseInfo
                {| InfoServerAddr := "pcopy.example:2586"; InfoSalt := "c2FsdA==" |}
    ∧ disk m' = disk (newServer example_config_protected ∅)
    ∧ countLimiter m' = countLimiter (newServer example_config_protected ∅)
    ∧ sizeLimiter m' = sizeLimiter (newServer example_config_protected ∅).
Proof.
  destruct (info_needs_no_credentials example_config_protected example_web
              example_env true "rnd123" example_page example_page
              (example_request "GET" "/info" [] [] None)
              (newServer example_config_protected ∅)
              eq_refl eq_refl eq_refl eq_refl)
    as (m' & Hrun & Hbody & Hd & Hc & Hs).
  exists m'. split_and!; [exact Hrun|exact Hbody|exact Hd|exact Hc|exact Hs].
Defined.

Lemma verify_reports_authorisation_witness :
  ∃ m', handle example_config_protected example_web example_env true "rnd123"
          example_page example_page
          (example_request "GET" "/verify" [] [] None)
          (newServer example_config_protected ∅)
        = (Done (Some 401), m')
    ∧ disk m' = disk (newServer example_config_protected ∅)
    ∧ countLimiter m' = countLimiter (newServer example_config_protected ∅)
    ∧ sizeLimiter m' = sizeLimiter (newServer example_config_protected ∅).
Proof.
  destruct (verify_reports_authorisation example_config_protected example_web
              example_env true "rnd123" example_page example_page
              (example_request "GET" "/verify" [] [] None)
              (newServer example_config_protected ∅) eq_refl eq_refl eq_refl)
    as (m' & Hrun & Hd & Hc & Hs & _).
  exists m'. by split_and!.
Defined.

Lemma clipboard_dispatch_witness :
  handle example_config example_web example_env true "rnd123"
    example_page example_page (example_request "GET" "/abc123" [] [] None)
    (newServer example_config example_disk_one)
  = respond example_env
      (rate_limit example_env true
         (λ _ r, auth example_config (now example_env) r
                   (handleClipboardGet example_config example_env "abc123"))
         [] (example_request "GET" "/abc123" [] [] None))
      (newServer example_config example_disk_one).
Proof.
  apply (proj1 (clipboard_dispatch example_config example_web example_env true
                  "rnd123" example_page example_page
                  (example_request "GET" "/abc123" [] [] None) "abc123"
                  (newServer example_config example_disk_one) eq_refl));
    done.
Defined.
(** * Invariants of the server *)

(** ** Specifications of the computations of a handler *)

Section Hoare.
Variable W : machine → Prop.

Lemma hoare_bind {A B} P (c : M A) Q (k : A → M B) R :
  hoare W P c Q → (∀ a, hoare W (Q a) (k a) R) → hoare W P (c ≫= k) R.
Proof.
  intros Hc Hk m o m' HP. unfold mbind, M_bind.
  destruct (c m) as [[a|err|] m1] eqn:Hcm; intros Hrun.
  - eapply Hk; [|exact Hrun]. exact (Hc m _ _ HP Hcm).
  - injection Hrun as <- <-. exact (Hc m _ _ HP Hcm).
  - injection Hrun as <- <-. exact (Hc m _ _ HP Hcm).
Qed.

Lemma hoare_ret {A} P (a : A) (Q : A → machine → Prop) :
  (∀ m, P m → Q a m) → hoare W P (mret a) Q.
Proof. intros HQ m o m' HP [= <- <-]. by apply HQ. Qed.

Lemma hoare_throw {A} P err (Q : A → machine → Prop) :
  (∀ m, P m → W m) → hoare W P (throw err) Q.
Proof. intros HW m o m' HP [= <- <-]. by apply HW. Qed.

Lemma hoare_modify P f (Q : unit → machine → Prop) :
  (∀ m, P m → Q () (f m)) → hoare W P (modify f) Q.
Proof. intros HQ m o m' HP [= <- <-]. by apply HQ. Qed.

Lemma hoare_gets {A} P (f : machine → A) (Q : A → machine → Prop) :
  (∀ m, P m → Q (f m) m) → hoare W P (gets f) Q.
Proof. intros HQ m o m' HP [= <- <-]. by apply HQ. Qed.

Lemma hoare_lift_err {A} P (r : error + A) :
  (∀ m, P m → W m) → hoare W P (lift_err r) (λ _, P).
Proof.
  intros HW. destruct r; simpl; [by apply hoare_throw|by apply hoare_ret].
Qed.

Lemma hoare_post {A} P (c : M A) (Q Q' : A → machine → Prop) :
  (∀ a m, Q a m → Q' a m) → hoare W P c Q → hoare W P c Q'.
Proof.
  intros HQ Hc m o m' Hm Hrun. specialize (Hc m o m' Hm Hrun).
  destruct o; auto.
Qed.

(** A computation that only writes to the response keeps what does not
    depend on the response. *)
Lemma hoare_writes_only {A} P (c : M A) :
  writes_only c → (∀ m m', same_server m m' → P m → P m') →
  (∀ m, P m → W m) → hoare W P c (λ _, P).
Proof.
  intros Hc Hsame HW m o m' HP Hrun.
  destruct (Hc m o m' Hrun) as [Hs _].
  destruct o; [by eapply Hsame|apply HW; by eapply Hsame..].
Qed.

Lemma hoare_on_error {A} P cleanup (c : M A) Q :
  hoare W P c Q → (∀ m, W m → W (cleanup m)) →
  hoare W P (on_error cleanup c) Q.
Proof.
  intros Hc Hclean m o m' HP. unfold on_error.
  destruct (c m) as [[a|err|] m1] eqn:Hcm; intros [= <- <-];
    specialize (Hc m _ _ HP Hcm); simpl in *; auto.
Qed.

Lemma hoare_with_defer {A} P d (body : M A) :
  hoare W P body (λ _, W) → (∀ m, W m → W (d m)) →
  hoare W P (with_defer d body) (λ _, W).
Proof.
  intros Hb Hd m o m' HP. unfold with_defer.
  destruct (body m) as [[a|err|] m1] eqn:Hbm; intros [= <- <-];
    specialize (Hb m _ _ HP Hbm); simpl in *; auto.
Qed.

End Hoare.

(** ** Every entry has its metadata *)

Lemma with_metadata_delete_file d id :
  is_meta id = false → with_metadata d → with_metadata (delete id d).
Proof.
  intros Hid Hd name n [Hne Hn]%lookup_delete_Some Hmeta.
  rewrite lookup_delete_ne; [by eapply Hd|].
  intros Heq. by rewrite Heq, is_meta_app in Hid.
Qed.

Lemma with_metadata_delete_meta d id :
  with_metadata d → d !! id = None → with_metadata (delete (id +:+ ":meta") d).
Proof.
  intros Hd Hid name n [Hne Hn]%lookup_delete_Some Hmeta.
  rewrite lookup_delete_ne; [by eapply Hd|].
  intros Heq%string_app_inj_r. congruence.
Qed.

Lemma with_metadata_insert_meta d id v :
  with_metadata d → with_metadata (<[id +:+ ":meta" := v]> d).
Proof.
  intros Hd name n Hn Hmeta.
  apply lookup_insert_Some in Hn as [[<- _]|[Hne Hn]];
    [by rewrite is_meta_app in Hmeta|].
  destruct (decide (id +:+ ":meta" = name +:+ ":meta")) as [->|Hne'];
    [rewrite lookup_insert_eq; eauto|].
  rewrite lookup_insert_ne by done. by eapply Hd.
Qed.

Lemma with_metadata_insert_file d id v :
  is_meta id = false → with_metadata d → is_Some (d !! (id +:+ ":meta")) →
  with_metadata (<[id := v]> d).
Proof.
  intros Hid Hd Hm name n Hn Hmeta.
  rewrite lookup_insert_ne by (intros Heq; by rewrite Heq, is_meta_app in Hid).
  apply lookup_insert_Some in Hn as [[<- _]|[Hne Hn]]; [done|by eapply Hd].
Qed.

Section MetadataInvariant.
Context `{Services}.

Lemma with_metadata_sweep config t err m :
  with_metadata (disk m) →
  with_metadata (disk (updateStatsAndExpire config t err m)).
Proof.
  intros Hd. destruct err; [done|].
  destruct (updateStatsAndExpire_spec config t m) as (Hdisk & _).
  intros name n Hn Hmeta. rewrite Hdisk in Hn. rewrite Hdisk.
  destruct (swept config t (disk m) (ReadDir (disk m)) name) eqn:Hs; [done|].
  destruct (swept config t (disk m) (ReadDir (disk m)) (name +:+ ":meta"))
    eqn:Hsm; [|by eapply Hd].
  apply swept_ReadDir in Hsm as [Hexp|(b & Hb & Hexp)].
  - apply expired_entry_meta in Hexp. by rewrite is_meta_app in Hexp.
  - apply string_app_inj_r in Hb as <-.
    assert (swept config t (disk m) (ReadDir (disk m)) name = true)
      by (apply swept_ReadDir; eauto).
    congruence.
Qed.

Section OneRequest.
Variable S : machine → Prop.
Hypothesis S_frame : ∀ m m',
  disk m' = disk m → sizeLimiter m' = sizeLimiter m → S m → S m'.
Hypothesis S_delete : ∀ m k, S m → S (set_disk (delete k) m).
Hypothesis S_metadata : ∀ m k v,
  is_meta k = true → S m → S (set_disk (insert k v) m).
Hypothesis S_create : ∀ m k v,
  Size (stat_of k v) = 0 → S m → S (set_disk (insert k v) m).
Hypothesis S_copy : ∀ sink fl m cs rf written sl' err,
  io_Copy sink fl (sizeLimiter m) [] cs rf = (written, sl', err) → S m →
  S (set_sizeLimiter (λ _, sl') m)
  ∧ ∀ k t, S (set_disk (insert k (Regular written t))
                 (set_sizeLimiter (λ _, sl') m)).
Hypothesis S_sweep : ∀ config t err m,
  with_metadata (disk m) → S m → S (updateStatsAndExpire config t err m).

Variables (config : Config) (e : Env) (id : string).
Hypothesis Hid : is_meta id = false.

Lemma keeps_meta_frame m m' :
  disk m' = disk m → sizeLimiter m' = sizeLimiter m →
  keeps_meta S id m → keeps_meta S id m'.
Proof.
  intros Hd Hs [[Hw HS] Hm]. unfold keeps_meta, keeps. rewrite Hd.
  repeat split; [done| |done]. by apply (S_frame m).
Qed.

Lemma keeps_meta_keeps m : keeps_meta S id m → keeps S m.
Proof. by intros [Hk _]. Qed.

Lemma keeps_delete m : keeps S m → keeps S (set_disk (delete id) m).
Proof.
  intros [Hw HS]. split; [by apply with_metadata_delete_file|by apply S_delete].
Qed.

Lemma keeps_meta_create m v :
  Size (stat_of id v) = 0 → keeps_meta S id m →
  keeps_meta S id (set_disk (insert id v) m).
Proof.
  intros Hv [[Hw HS] Hm]. repeat split.
  - by apply with_metadata_insert_file.
  - by apply S_create.
  - simpl. rewrite lookup_insert_ne; [done|]. apply name_ne_meta.
Qed.

Lemma writePutOutput_keeps expires ttl format :
  hoare (keeps S) (keeps_meta S id)
    (writePutOutput config e id expires ttl format) (λ _, keeps_meta S id).
Proof.
  apply hoare_writes_only.
  - apply writes_only_writePutOutput.
  - intros m m' (_ & Hs & _ & Hd). by apply keeps_meta_frame.
  - apply keeps_meta_keeps.
Qed.

Lemma put_copy_keeps stream file body expires ttl format pipe :
  file = id →
  hoare (keeps S) (keeps_meta S id)
    (put_copy config e stream id file body expires ttl format pipe)
    (λ _, keeps S).
Proof.
  intros ->. unfold put_copy.
  apply hoare_with_defer;
    [|intros m [Hw HS]; split; [by apply with_metadata_sweep|by apply S_sweep]].
  eapply (hoare_bind _ _ _ (λ sl m, keeps_meta S id m ∧ sl = sizeLimiter m));
    [by apply hoare_gets|].
  intros sl. destruct (io_Copy _ _ _ _ _ _) as [[written sl'] err] eqn:Hcopy.
  eapply (hoare_bind _ _ _
            (λ _ m1, ∃ m0, keeps_meta S id m0 ∧ sl = sizeLimiter m0
                           ∧ m1 = set_sizeLimiter (λ _, sl') m0));
    [apply hoare_modify; intros m [Hm Hsl]; by exists m|].
  intros []. eapply (hoare_bind _ _ _ (λ _, keeps_meta S id)).
  { destruct pipe.
    - apply hoare_ret. intros m1 (m0 & [[Hw HS] Hm] & -> & ->).
      destruct (S_copy _ _ _ _ _ _ _ _ Hcopy HS) as [HS1 _].
      by repeat split.
    - apply hoare_modify. intros m1 (m0 & [[Hw HS] Hm] & -> & ->).
      destruct (S_copy _ _ _ _ _ _ _ _ Hcopy HS) as [_ HS2].
      repeat split.
      + by apply with_metadata_insert_file.
      + apply HS2.
      + simpl. rewrite lookup_insert_ne; [done|]. apply name_ne_meta. }
  intros [].
  assert (Hdel : ∀ m, keeps_meta S id m → keeps S (set_disk (delete id) m)).
  { intros m [Hk _]. by apply keeps_delete. }
  assert (Hfail : ∀ err0 : error,
    hoare (keeps S) (keeps_meta S id)
      (modify (set_disk (delete id)) ;; throw err0 : M unit) (λ _, keeps S)).
  { intros err0.
    eapply (hoare_bind _ _ _ (λ _, keeps S)); [apply hoare_modify; exact Hdel|].
    intros []. apply hoare_throw. auto. }
  destruct err as [err|].
  - eapply (hoare_bind _ _ _ (λ _, keeps S)); [apply hoare_modify; exact Hdel|].
    intros []. destruct err; apply hoare_throw; auto.
  - destruct (close_fails body); [apply Hfail|].
    destruct (negb stream).
    + apply hoare_on_error; [|apply keeps_delete].
      eapply hoare_post; [|apply writePutOutput_keeps].
      intros [] m. apply keeps_meta_keeps.
    + apply hoare_ret. apply keeps_meta_keeps.
Qed.

Lemma open_destination_keeps file body :
  file = id →
  hoare (keeps S) (keeps_meta S id) (open_destination e file body)
    (λ _, keeps_meta S id).
Proof.
  intros -> m o m' Hm. unfold open_destination.
  destruct (open_file_fails e).
  { intros [= <- <-]. by apply keeps_meta_keeps, (keeps_meta_frame m). }
  destruct (disk m !! id) as [[content t|w t]|]; intros [= <- <-];
    try apply keeps_meta_keeps; by apply keeps_meta_create.
Qed.

Lemma put_setup_keeps r :
  hoare (keeps S) (keeps S) (put_setup config e r id)
    (λ x m, keeps_meta S id m ∧ x.1.1.1.1 = id).
Proof.
  unfold put_setup.
  destruct (getClipboardFile id) as [|[file metafile]] eqn:Hfile;
    [by apply hoare_throw|].
  apply getClipboardFile_inr in Hfile as (_ & -> & ->).
  destruct (Body r) as [body|]; [|by apply hoare_throw].
  eapply (hoare_bind _ _ _ (λ _, keeps S)).
  { intros m o m' [Hw HS] Hrun.
    apply put_charge_frame in Hrun as (Hs & Hd & _ & _ & _ & Hb).
    assert (keeps S m').
    { unfold keeps. rewrite Hd. split; [done|]. by apply (S_frame m). }
    by destruct o. }
  intros []. eapply (hoare_bind _ _ _ (λ _, keeps_off S id)).
  { apply hoare_modify. intros m Hk. split.
    - by apply keeps_delete.
    - apply lookup_delete_eq. }
  intros []. eapply (hoare_bind _ _ _ (λ _, keeps_off S id)).
  { apply hoare_modify. intros m [[Hw HS] Hn]. repeat split.
    - by apply with_metadata_delete_meta.
    - by apply S_delete.
    - simpl. rewrite lookup_delete_ne; [done|]. apply not_eq_sym, name_ne_meta. }
  intros []. eapply hoare_bind; [apply hoare_lift_err; by intros m [Hk _]|].
  intros mode. eapply hoare_bind; [apply hoare_lift_err; by intros m [Hk _]|].
  intros ttl. eapply (hoare_bind _ _ _ (λ _, keeps_meta S id)).
  { destruct (open_meta_fails e); [apply hoare_throw; by intros m [Hk _]|].
    apply hoare_modify. intros m [[Hw HS] _]. repeat split.
    - by apply with_metadata_insert_meta.
    - apply S_metadata; [apply is_meta_app|done].
    - simpl. rewrite lookup_insert_eq. eauto. }
  intros []. eapply (hoare_bind _ _ _ (λ _, keeps_meta S id)).
  { destruct (isStream r); [|apply hoare_ret; auto].
    eapply (hoare_bind _ _ _ (λ _, keeps_meta S id)).
    - destruct (mkfifo_fails e).
      + eapply (hoare_bind _ _ _ (λ _, keeps S)).
        * apply hoare_modify. intros m Hm.
          by apply keeps_meta_keeps, (keeps_meta_frame m).
        * intros []. apply hoare_throw. auto.
      + apply hoare_modify. intros m Hm. by apply keeps_meta_create.
    - intros []. apply hoare_on_error; [apply writePutOutput_keeps|].
      intros m [Hw HS]. split; [done|]. by apply (S_frame m). }
  intros []. eapply hoare_bind; [by apply open_destination_keeps|].
  intros []. apply hoare_ret. auto.
Qed.

Lemma handleClipboardPut_keeps r :
  hoare (keeps S) (keeps S) (handleClipboardPut config e r id) (λ _, keeps S).
Proof.
  unfold handleClipboardPut. eapply hoare_bind; [apply put_setup_keeps|].
  intros [[[[file body] expires] ttl] format] m o m' [Hm Hfile]. simpl in Hfile.
  by apply put_copy_keeps.
Qed.

Lemma handleClipboardGet_keeps :
  hoare (keeps S) (keeps S) (handleClipboardGet config e id) (λ _, keeps S).
Proof.
  unfold handleClipboardGet.
  destruct (getClipboardFile id) as [|[file metafile]] eqn:Hfile;
    [by apply hoare_throw|].
  apply getClipboardFile_inr in Hfile as (_ & -> & ->).
  eapply (hoare_bind _ _ _ (λ stat m, keeps S m ∧ stat = disk m !! id));
    [by apply hoare_gets|].
  intros stat m o m' [Hk Hstat].
  assert (Hframe : ∀ m1 m2, disk m2 = disk m1 → sizeLimiter m2 = sizeLimiter m1 →
                            keeps S m1 → keeps S m2).
  { intros m1 m2 Hd Hs [Hw HS]. unfold keeps. rewrite Hd.
    split; [done|]. by apply (S_frame m1). }
  assert (Hwrite : ∀ p, hoare (keeps S) (keeps S) (w_Write e p) (λ _, keeps S)).
  { intros p. apply hoare_writes_only; [apply writes_only_w_Write| |done].
    intros m1 m2 (_ & Hs & _ & Hd). by apply Hframe. }
  destruct stat as [[content t|[body|] t]|].
  - clear Hstat. revert m o m' Hk. eapply hoare_bind.
    + apply (hoare_modify _ _ _ (λ _, keeps S)). intros m.
      by apply Hframe.
    + intros []. destruct content; [by apply hoare_ret|apply Hwrite].
  - assert (Hm : keeps_meta S id m).
    { split; [done|]. destruct Hk as [Hw _]. by eapply (Hw id). }
    clear Hk Hstat. revert m o m' Hm.
    eapply (hoare_bind _ _ _ (λ _, keeps_meta S id)).
    { apply hoare_modify. intros m Hm. by apply keeps_meta_create. }
    intros []. eapply hoare_bind;
      [apply (hoare_gets _ _ _ (λ _, keeps_meta S id)); auto|].
    intros sl. destruct (io_Copy _ _ _ _ _ _) as [[piped sl'] err].
    eapply (hoare_bind _ _ _ (λ _, keeps S)).
    { intros m o m' Hm. unfold resume_writer.
      destruct (put_copy _ _ _ _ _ _ _ _ _ _ m) as [o1 m1] eqn:Hcopy.
      pose proof (put_copy_keeps true id body 0 0 "text" (Some _) eq_refl
                    m o1 m1 Hm Hcopy) as Hk1.
      destruct o1; intros [= <- <-]; exact Hk1. }
    intros res. eapply (hoare_bind _ _ _ (λ _, keeps S)).
    { destruct piped; [by apply hoare_ret|apply Hwrite]. }
    intros []. apply hoare_modify. apply keeps_delete.
  - by intros [= <- <-].
  - by intros [= <- <-].
Qed.

End OneRequest.

Section Histories.
Variable S : machine → Prop.
Hypothesis S_frame : ∀ m m',
  disk m' = disk m → sizeLimiter m' = sizeLimiter m → S m → S m'.
Hypothesis S_delete : ∀ m k, S m → S (set_disk (delete k) m).
Hypothesis S_metadata : ∀ m k v,
  is_meta k = true → S m → S (set_disk (insert k v) m).
Hypothesis S_create : ∀ m k v,
  Size (stat_of k v) = 0 → S m → S (set_disk (insert k v) m).
Hypothesis S_copy : ∀ sink fl m cs rf written sl' err,
  io_Copy sink fl (sizeLimiter m) [] cs rf = (written, sl', err) → S m →
  S (set_sizeLimiter (λ _, sl') m)
  ∧ ∀ k t, S (set_disk (insert k (Regular written t))
                 (set_sizeLimiter (λ _, sl') m)).
Hypothesis S_sweep : ∀ config t err m,
  with_metadata (disk m) → S m → S (updateStatsAndExpire config t err m).

Lemma after_keeps config m ev :
  routed ev → keeps S m → keeps S (after config m ev).
Proof.
  intros Hev Hk.
  assert (Hfresh : keeps S (fresh_response m)).
  { destruct Hk as [Hw HS]. split; [done|]. by apply (S_frame m). }
  destruct ev as [e r id|e id|t err]; simpl in *.
  - pose proof (handleClipboardPut_keeps S S_frame S_delete S_metadata S_create
                  S_copy S_sweep config e id Hev r (fresh_response m)) as Hput.
    destruct (handleClipboardPut config e r id (fresh_response m)) as [o m'].
    specialize (Hput o m' Hfresh eq_refl). by destruct o.
  - pose proof (handleClipboardGet_keeps S S_frame S_delete S_create
                  S_copy S_sweep config e id Hev (fresh_response m)) as Hget.
    destruct (handleClipboardGet config e id (fresh_response m)) as [o m'].
    specialize (Hget o m' Hfresh eq_refl). by destruct o.
  - destruct Hk as [Hw HS].
    split; [by apply with_metadata_sweep|by apply S_sweep].
Qed.

Lemma history_keeps config evs m :
  Forall routed evs → keeps S m → keeps S (history config evs m).
Proof.
  unfold history. revert m. induction evs as [|ev evs IH]; intros m Hevs Hk;
    [done|].
  apply Forall_cons in Hevs as [Hev Hevs]. simpl.
  apply IH; [done|]. by apply after_keeps.
Qed.

End Histories.

End MetadataInvariant.

(** ** The size of the directory and the global size limiter *)

Lemma stat_size_nonneg k v : 0 ≤ Size (stat_of k v).
Proof. destruct v; simpl; lia. Qed.

Lemma total_size_app l1 l2 : total_size (l1 ++ l2) = total_size l1 + total_size l2.
Proof.
  induction l1 as [|f l1 IH]; [done|].
  change ((f :: l1) ++ l2) with (f :: (l1 ++ l2)).
  rewrite !total_size_cons, IH. lia.
Qed.

Lemma total_size_nonneg l : Forall (λ f, 0 ≤ Size f) l → 0 ≤ total_size l.
Proof.
  induction 1 as [|f l Hf _ IH]; [done|]. rewrite total_size_cons. lia.
Qed.

Lemma content_size_perm (d : gmap string node) l :
  map_to_list d ≡ₚ l →
  content_size d
  = total_size ((λ kv, stat_of kv.1 kv.2)
                  <$> filter (λ kv, is_meta kv.1 = false) l).
Proof. intros Hp. unfold content_size. apply total_size_perm. by rewrite Hp. Qed.

Lemma content_size_empty : content_size ∅ = 0.
Proof. unfold content_size. by rewrite map_to_list_empty. Qed.

Lemma content_size_nonneg d : 0 ≤ content_size d.
Proof.
  apply total_size_nonneg, Forall_fmap, Forall_forall.
  intros [k v] _. apply stat_size_nonneg.
Qed.

Lemma content_size_insert_new (d : gmap string node) k v :
  d !! k = None →
  content_size (<[k:=v]> d)
  = content_size d + (if is_meta k then 0 else Size (stat_of k v)).
Proof.
  intros Hk. rewrite (content_size_perm _ _ (map_to_list_insert d k v Hk)).
  rewrite filter_cons. unfold content_size.
  destruct (decide (is_meta (k, v).1 = false)) as [Hm|Hm]; cbn [fst] in Hm.
  - rewrite fmap_cons, total_size_cons, Hm. cbn [fst snd]. lia.
  - destruct (is_meta k); [lia|done].
Qed.

Lemma content_size_delete (d : gmap string node) k v0 :
  d !! k = Some v0 →
  content_size d
  = content_size (delete k d) + (if is_meta k then 0 else Size (stat_of k v0)).
Proof.
  intros Hk. rewrite <- (content_size_insert_new (delete k d) k v0)
    by apply lookup_delete_eq.
  by rewrite insert_delete_id.
Qed.

Lemma content_size_delete_le (d : gmap string node) k :
  content_size (delete k d) ≤ content_size d.
Proof.
  destruct (d !! k) as [v0|] eqn:Hk.
  - rewrite (content_size_delete d k v0 Hk).
    pose proof (stat_size_nonneg k v0). destruct (is_meta k); lia.
  - by rewrite delete_id.
Qed.

Lemma content_size_insert_le (d : gmap string node) k v :
  content_size (<[k:=v]> d)
  ≤ content_size d + (if is_meta k then 0 else Size (stat_of k v)).
Proof.
  rewrite <- (insert_delete_eq d k v).
  rewrite content_size_insert_new by apply lookup_delete_eq.
  pose proof (content_size_delete_le d k). lia.
Qed.

Lemma content_size_insert_meta (d : gmap string node) k v :
  is_meta k = true → content_size (<[k:=v]> d) = content_size d.
Proof.
  intros Hm. destruct (d !! k) as [v0|] eqn:Hk.
  - rewrite <- (insert_delete_eq d k v).
    rewrite content_size_insert_new by apply lookup_delete_eq.
    rewrite (content_size_delete d k v0 Hk), Hm. lia.
  - rewrite content_size_insert_new, Hm by done. lia.
Qed.

Lemma content_size_subseteq (d' d : gmap string node) :
  d' ⊆ d → content_size d' ≤ content_size d.
Proof.
  intros [rest Hrest]%map_to_list_submseteq%submseteq_Permutation.
  rewrite (content_size_perm d _ Hrest).
  rewrite filter_app, fmap_app, total_size_app. unfold content_size.
  assert (0 ≤ total_size ((λ kv, stat_of kv.1 kv.2)
                            <$> filter (λ kv, is_meta kv.1 = false) rest));
    [|lia].
  apply total_size_nonneg, Forall_fmap, Forall_forall.
  intros [k v] _. apply stat_size_nonneg.
Qed.

(** What a copy has written it has charged to the global size limiter,
    which stays within its cap. *)
Lemma io_Copy_charged sink fl sl written cs rf written' sl' err :
  io_Copy sink fl sl written cs rf = (written', sl', err) →
  limit sl' = limit sl
  ∧ value sl + (Z.of_nat (length written') - Z.of_nat (length written))
    ≤ value sl'
  ∧ (0 < limit sl → value sl ≤ limit sl → value sl' ≤ limit sl).
Proof.
  revert sink fl sl written.
  induction cs as [|c cs IH]; intros sink fl sl written.
  - simpl. intros [= <- <- _]. repeat split; lia.
  - simpl. destruct c as [|b c]; [apply IH|].
    destruct (limitWriter_charge fl sl _) as [[fl1 sl1]|] eqn:Hc.
    2:{ intros [= <- <- _]. repeat split; lia. }
    unfold limitWriter_charge in Hc.
    destruct (Add fl _); [|done]. simpl in Hc.
    destruct (Add sl _) as [sl2|] eqn:Hs; [|done]. injection Hc as <- <-.
    pose proof (Add_within _ _ _ Hs) as Hcap.
    apply Add_value in Hs as [Hv Hl].
    assert (Hstep : ∀ sink',
      io_Copy sink' l sl2 (written ++ b :: c) cs rf = (written', sl', err) →
      limit sl' = limit sl
      ∧ value sl + (Z.of_nat (length written') - Z.of_nat (length written))
        ≤ value sl'
      ∧ (0 < limit sl → value sl ≤ limit sl → value sl' ≤ limit sl)).
    { intros sink' (Hl' & Hv' & Hc')%IH. rewrite length_app in Hv'.
      simpl in Hv', Hv. rewrite Hl in Hl', Hc'. repeat split; [done|lia|].
      intros Hpos _. apply Hc'; [done|]. by apply Hcap. }
    destruct sink as [[|k]|]; [|apply Hstep..].
    intros [= <- <- _]. simpl in Hv. repeat split; [done|lia|].
    intros Hpos _. by apply Hcap.
Qed.

Lemma size_tracked_frame m m' :
  disk m' = disk m → sizeLimiter m' = sizeLimiter m →
  size_tracked m → size_tracked m'.
Proof. unfold size_tracked. by intros -> ->. Qed.

Lemma size_tracked_delete m k :
  size_tracked m → size_tracked (set_disk (delete k) m).
Proof.
  unfold size_tracked. simpl. intros Hm Hpos.
  pose proof (content_size_delete_le (disk m) k). specialize (Hm Hpos). lia.
Qed.

Lemma size_tracked_metadata m k v :
  is_meta k = true → size_tracked m → size_tracked (set_disk (insert k v) m).
Proof.
  unfold size_tracked. simpl. intros Hk Hm Hpos.
  rewrite content_size_insert_meta by done. by apply Hm.
Qed.

Lemma size_tracked_create m k v :
  Size (stat_of k v) = 0 → size_tracked m →
  size_tracked (set_disk (insert k v) m).
Proof.
  unfold size_tracked. simpl. intros Hv Hm Hpos.
  pose proof (content_size_insert_le (disk m) k v). specialize (Hm Hpos).
  destruct (is_meta k); lia.
Qed.

Lemma size_tracked_copy sink fl m cs rf written sl' err :
  io_Copy sink fl (sizeLimiter m) [] cs rf = (written, sl', err) →
  size_tracked m →
  size_tracked (set_sizeLimiter (λ _, sl') m)
  ∧ ∀ k t, size_tracked (set_disk (insert k (Regular written t))
                           (set_sizeLimiter (λ _, sl') m)).
Proof.
  intros (Hl & Hv & Hcap)%io_Copy_charged Hm. simpl in Hv.
  split; [|intros k t]; unfold size_tracked; simpl; rewrite Hl; intros Hpos;
    destruct (Hm Hpos) as (Hmax & Hlo & Hhi); specialize (Hcap Hpos Hhi).
  - lia.
  - pose proof (content_size_insert_le (disk m) k (Regular written t)) as Hins.
    simpl in Hins. destruct (is_meta k); lia.
Qed.

Section SizeInvariant.
Context `{Services}.

Lemma sweep_size_limit config t err m :
  limit (sizeLimiter (updateStatsAndExpire config t err m))
  = limit (sizeLimiter m).
Proof.
  unfold updateStatsAndExpire. destruct err; [done|].
  by destruct (foldl _ _ _) as [[d numFiles] totalSize].
Qed.

Lemma sweep_subseteq config t m :
  disk (updateStatsAndExpire config t false m) ⊆ disk m.
Proof.
  destruct (updateStatsAndExpire_spec config t m) as (Hdisk & _).
  apply map_subseteq_spec. intros k v. rewrite Hdisk.
  by destruct (swept _ _ _ _ _).
Qed.

Lemma size_tracked_sweep config t err m :
  with_metadata (disk m) → size_tracked m →
  size_tracked (updateStatsAndExpire config t err m).
Proof.
  intros Hmeta Hm. unfold size_tracked. rewrite sweep_size_limit. intros Hpos.
  destruct (Hm Hpos) as (Hmax & Hlo & Hhi).
  destruct err; [done|].
  destruct (updateStatsAndExpire_spec config t m) as (_ & _ & Hsize).
  pose proof (sweep_listing config t m Hmeta) as Hperm.
  pose proof (content_size_subseteq _ _ (sweep_subseteq config t m)) as Hsub.
  pose proof (content_size_nonneg (disk (updateStatsAndExpire config t false m)))
    as Hnonneg.
  assert (Hvalue : value (sizeLimiter (updateStatsAndExpire config t false m))
                   = content_size (disk (updateStatsAndExpire config t false m))).
  { rewrite Hsize. change 0 with (wrap64 0) at 1.
    rewrite total_size_wrap, <- (total_size_perm _ _ Hperm), Z.add_0_l.
    apply wrap64_small. unfold content_size in *.
    unfold int64_min, int64_max in *. lia. }
  rewrite Hvalue. lia.
Qed.

End SizeInvariant.

Section ServerInvariants.
Context `{Services}.

(** X26.  Over any sequence of uploads, reads and sweeps of the janitor
    served one after the other, the identifiers being no metadata names,
    a directory in which every entry has its metadata side-file stays
    one, whether the requests return [nil] or an error or leave an upload
    parked on a pipe. *)
Theorem history_keeps_metadata config evs m :
  Forall routed evs → with_metadata (disk m) →
  with_metadata (disk (history config evs m)).
Proof.
  intros Hevs Hw.
  assert (Hk : keeps (λ _, True) (history config evs m)); [|by destruct Hk].
  apply history_keeps; done.
Qed.

(** X27.  On a server whose size cap is set, and is an [int64]: when every
    entry has its metadata side-file and the global size limiter is
    within the cap and not below the total size of the entries, then
    after any such sequence of uploads, reads and sweeps the cap is the
    same, the limiter is within it and the entries are together no
    larger than the limiter says, so no larger than the cap. *)
Theorem size_limit_enforced config evs m :
  Forall routed evs → with_metadata (disk m) →
  0 < limit (sizeLimiter m) ≤ int64_max →
  content_size (disk m) ≤ value (sizeLimiter m) ≤ limit (sizeLimiter m) →
  limit (sizeLimiter (history config evs m)) = limit (sizeLimiter m)
  ∧ content_size (disk (history config evs m))
    ≤ value (sizeLimiter (history config evs m)) ≤ limit (sizeLimiter m).
Proof.
  intros Hevs Hw [Hpos Hmax] Hsize.
  set (S := λ m', limit (sizeLimiter m') = limit (sizeLimiter m)
                  ∧ size_tracked m').
  assert (Hk : keeps S (history config evs m)).
  { apply history_keeps; [..|done|]; subst S; simpl.
    - intros m1 m2 Hd Hs [Hl Ht]. rewrite Hs.
      split; [done|]. by apply (size_tracked_frame m1).
    - intros m1 k [Hl Ht]. split; [done|]. by apply size_tracked_delete.
    - intros m1 k v Hk [Hl Ht]. split; [done|]. by apply size_tracked_metadata.
    - intros m1 k v Hv [Hl Ht]. split; [done|]. by apply size_tracked_create.
    - intros sink fl m1 cs rf written sl' err Hcopy [Hl Ht].
      destruct (size_tracked_copy _ _ _ _ _ _ _ _ Hcopy Ht) as [Ht1 Ht2].
      apply io_Copy_charged in Hcopy as (Hl' & _). rewrite Hl', Hl.
      split; [done|]. intros k t. split; [done|apply Ht2].
    - intros config' t err m1 Hw1 [Hl Ht]. rewrite sweep_size_limit.
      split; [done|]. by apply size_tracked_sweep.
    - split; [done|]. split; [done|]. by intros _. }
  destruct Hk as (_ & Hl & Ht). split; [done|].
  rewrite <- Hl. apply Ht. by rewrite Hl.
Qed.

End ServerInvariants.

Lemma history_keeps_metadata_witness :
  with_metadata
    (disk (history example_config example_history (newServer example_config ∅))).
Proof.
  apply history_keeps_metadata.
  - unfold example_history. repeat constructor.
  - intros name n Hn. change ((∅ : gmap string node) !! name = Some n) in Hn.
    by rewrite lookup_empty in Hn.
Defined.

Lemma size_limit_enforced_witness :
  limit (sizeLimiter
           (history example_config example_history (newServer example_config ∅)))
  = limit (sizeLimiter (newServer example_config ∅))
  ∧ content_size
      (disk (history example_config example_history
               (newServer example_config ∅)))
    ≤ value (sizeLimiter
               (history example_config example_history
                  (newServer example_config ∅)))
    ≤ limit (sizeLimiter (newServer example_config ∅)).
Proof.
  apply size_limit_enforced.
  - unfold example_history. repeat constructor.
  - intros name n Hn. change ((∅ : gmap string node) !! name = Some n) in Hn.
    by rewrite lookup_empty in Hn.
  - simpl. unfold int64_max. lia.
  - simpl. rewrite content_size_empty. lia.
Defined.

(** ** A request and the other entries *)

Lemma hoare_weaken {A} (W W' P : machine → Prop) (c : M A) Q :
  (∀ m, W m → W' m) → hoare W P c Q → hoare W' P c Q.
Proof.
  intros HW Hc m o m' Hm Hrun. specialize (Hc m o m' Hm Hrun).
  destruct o; auto.
Qed.

Lemma hoare_with_defer_then {A} (W W' P : machine → Prop) d (body : M A) :
  hoare W' P body (λ _, W') → (∀ m, W' m → W m) → (∀ m, W' m → W (d m)) →
  hoare W P (with_defer d body) (λ _, W).
Proof.
  intros Hb HW Hd m o m' HP. unfold with_defer.
  destruct (body m) as [[a|err|] m1] eqn:Hbm; intros [= <- <-];
    specialize (Hb m _ _ HP Hbm); simpl in *; auto.
Qed.

Lemma agree_off_refl id d : agree_off id d d.
Proof. by intros k _ _. Qed.

Lemma agree_off_change id d0 (f : gmap string node → gmap string node) m :
  (∀ d k, k ≠ id → k ≠ id +:+ ":meta" → f d !! k = d !! k) →
  agree_off id d0 (disk m) → agree_off id d0 (disk (set_disk f m)).
Proof. intros Hf Hm k Hk1 Hk2. simpl. rewrite Hf by done. by apply Hm. Qed.

Lemma agree_off_delete id d0 m :
  agree_off id d0 (disk m) → agree_off id d0 (disk (set_disk (delete id) m)).
Proof.
  apply agree_off_change. intros d k Hk1 Hk2. by rewrite lookup_delete_ne.
Qed.

Lemma agree_off_delete_meta id d0 m :
  agree_off id d0 (disk m) →
  agree_off id d0 (disk (set_disk (delete (id +:+ ":meta")) m)).
Proof.
  apply agree_off_change. intros d k Hk1 Hk2. by rewrite lookup_delete_ne.
Qed.

Lemma agree_off_insert id d0 v m :
  agree_off id d0 (disk m) → agree_off id d0 (disk (set_disk (insert id v) m)).
Proof.
  apply agree_off_change. intros d k Hk1 Hk2. by rewrite lookup_insert_ne.
Qed.

Lemma agree_off_insert_meta id d0 v m :
  agree_off id d0 (disk m) →
  agree_off id d0 (disk (set_disk (insert (id +:+ ":meta") v) m)).
Proof.
  apply agree_off_change. intros d k Hk1 Hk2. by rewrite lookup_insert_ne.
Qed.

Section OtherEntries.
Context `{Services}.

(** Whether an entry has expired depends on the entry and on its
    metadata only. *)
Lemma expired_entry_agree config t (d d' : gmap string node) b :
  d' !! b = d !! b → d' !! (b +:+ ":meta") = d !! (b +:+ ":meta") →
  expired_entry config t d' b = expired_entry config t d b.
Proof.
  intros Hb Hm. unfold expired_entry, isExpired, readMetaFile.
  by rewrite Hb, Hm.
Qed.

Variables (config : Config) (e : Env) (id : string) (d0 : gmap string node).
Hypothesis Hid : is_meta id = false.

Lemma expired_entry_off d b :
  agree_off id d0 d → b ≠ id → is_meta b = false →
  expired_entry config (now_done e) d b = expired_entry config (now_done e) d0 b.
Proof.
  intros Hd Hb Hmeta. apply expired_entry_agree; apply Hd; try done.
  - intros Heq. by rewrite Heq, is_meta_app in Hmeta.
  - intros Heq. by rewrite <- Heq, is_meta_app in Hid.
  - by intros Heq%string_app_inj_r.
Qed.

(** The deferred sweep of a request for [id] takes away no entry that
    had not expired before the request. *)
Lemma sweep_off m k :
  agree_off id d0 (disk m) → k ≠ id → k ≠ id +:+ ":meta" →
  expired_entry config (now_done e) d0 k = false →
  (∀ b, k = b +:+ ":meta" → expired_entry config (now_done e) d0 b = false) →
  disk (updateStatsAndExpire config (now_done e) (readdir_fails e) m) !! k
  = d0 !! k.
Proof.
  intros Hd Hk1 Hk2 Hexp Hmeta.
  destruct (readdir_fails e); [by apply Hd|].
  destruct (updateStatsAndExpire_spec config (now_done e) m) as (Hdisk & _).
  rewrite Hdisk.
  destruct (swept config (now_done e) (disk m) (ReadDir (disk m)) k) eqn:Hs;
    [|by apply Hd].
  apply swept_ReadDir in Hs as [Hs|(b & -> & Hs)].
  - rewrite expired_entry_off in Hs; [congruence|done..|].
    by apply expired_entry_meta in Hs.
  - rewrite expired_entry_off in Hs.
    + by rewrite (Hmeta b) in Hs.
    + done.
    + by intros ->.
    + by apply expired_entry_meta in Hs.
Qed.

Lemma put_charge_off r file metafile :
  hoare (λ m, agree_off id d0 (disk m)) (λ m, agree_off id d0 (disk m))
    (put_charge e r file metafile) (λ _ m, agree_off id d0 (disk m)).
Proof.
  intros m o m' Hm Hrun.
  apply put_charge_frame in Hrun as (_ & Hd & _). rewrite <- Hd in Hm.
  by destruct o.
Qed.

Lemma writes_only_off {A} (c : M A) :
  writes_only c →
  hoare (λ m, agree_off id d0 (disk m)) (λ m, agree_off id d0 (disk m))
    c (λ _ m, agree_off id d0 (disk m)).
Proof.
  intros Hc. apply hoare_writes_only; [done| |done].
  intros m m' (_ & _ & _ & Hd). by rewrite Hd.
Qed.

Lemma put_setup_off r :
  hoare (λ m, agree_off id d0 (disk m)) (λ m, agree_off id d0 (disk m))
    (put_setup config e r id)
    (λ x m, agree_off id d0 (disk m) ∧ x.1.1.1.1 = id).
Proof.
  set (A := λ m : machine, agree_off id d0 (disk m)).
  unfold put_setup.
  destruct (getClipboardFile id) as [|[file metafile]] eqn:Hfile;
    [by apply hoare_throw|].
  apply getClipboardFile_inr in Hfile as (_ & -> & ->).
  destruct (Body r) as [body|]; [|by apply hoare_throw].
  eapply (hoare_bind A A _ (λ _, A)); [apply put_charge_off|].
  intros []. eapply (hoare_bind A A _ (λ _, A));
    [apply hoare_modify, agree_off_delete|].
  intros []. eapply (hoare_bind A A _ (λ _, A));
    [apply hoare_modify, agree_off_delete_meta|].
  intros []. eapply (hoare_bind A A _ (λ _, A)); [by apply hoare_lift_err|].
  intros mode. eapply (hoare_bind A A _ (λ _, A)); [by apply hoare_lift_err|].
  intros ttl. eapply (hoare_bind A A _ (λ _, A)).
  { destruct (open_meta_fails e); [by apply hoare_throw|].
    apply hoare_modify, agree_off_insert_meta. }
  intros []. eapply (hoare_bind A A _ (λ _, A)).
  { destruct (isStream r); [|by apply hoare_ret].
    eapply (hoare_bind A A _ (λ _, A)).
    - destruct (mkfifo_fails e).
      + eapply (hoare_bind A A _ (λ _, A)); [by apply hoare_modify|].
        intros []. by apply hoare_throw.
      + apply hoare_modify, agree_off_insert.
    - intros []. apply hoare_on_error; [|done].
      apply writes_only_off, writes_only_writePutOutput. }
  intros []. eapply (hoare_bind A A _ (λ _, A)).
  { intros m o m' Hm. unfold open_destination.
    destruct (open_file_fails e); [by intros [= <- <-]|].
    destruct (disk m !! id) as [[content t|w t]|]; intros [= <- <-];
      by apply agree_off_insert. }
  intros []. by apply hoare_ret.
Qed.

Variable k : string.
Hypothesis Hk : k ≠ id.
Hypothesis Hk_meta : k ≠ id +:+ ":meta".
Hypothesis Hexp : expired_entry config (now_done e) d0 k = false.
Hypothesis Hexp_meta :
  ∀ b, k = b +:+ ":meta" → expired_entry config (now_done e) d0 b = false.

Lemma put_copy_off stream body expires ttl format pipe :
  hoare (λ m, disk m !! k = d0 !! k) (λ m, agree_off id d0 (disk m))
    (put_copy config e stream id id body expires ttl format pipe)
    (λ _ m, disk m !! k = d0 !! k).
Proof.
  set (A := λ m : machine, agree_off id d0 (disk m)).
  unfold put_copy.
  apply (hoare_with_defer_then _ A);
    [|intros m Hm; by apply Hm|intros m Hm; by apply sweep_off].
  eapply (hoare_bind A A _ (λ _, A)); [by apply hoare_gets|].
  intros sl. destruct (io_Copy _ _ _ _ _ _) as [[written sl'] err].
  eapply (hoare_bind A A _ (λ _, A)); [by apply hoare_modify|].
  intros []. eapply (hoare_bind A A _ (λ _, A)).
  { destruct pipe; [by apply hoare_ret|apply hoare_modify, agree_off_insert]. }
  intros []. destruct err as [err|].
  - eapply (hoare_bind A A _ (λ _, A)); [apply hoare_modify, agree_off_delete|].
    intros []. by destruct err; apply hoare_throw.
  - destruct (close_fails body).
    { eapply (hoare_bind A A _ (λ _, A)); [apply hoare_modify, agree_off_delete|].
      intros []. by apply hoare_throw. }
    destruct (negb stream); [|by apply hoare_ret].
    apply hoare_on_error; [|apply agree_off_delete].
    apply writes_only_off, writes_only_writePutOutput.
Qed.

Lemma handleClipboardPut_off r :
  hoare (λ m, disk m !! k = d0 !! k) (λ m, agree_off id d0 (disk m))
    (handleClipboardPut config e r id) (λ _ m, disk m !! k = d0 !! k).
Proof.
  unfold handleClipboardPut. eapply hoare_bind.
  - eapply hoare_weaken; [|apply put_setup_off]. intros m Hm. by apply Hm.
  - intros [[[[file body] expires] ttl] format] m o m' [Hm Hfile].
    simpl in Hfile. subst file. by apply put_copy_off.
Qed.

Lemma handleClipboardGet_off :
  hoare (λ m, disk m !! k = d0 !! k) (λ m, agree_off id d0 (disk m))
    (handleClipboardGet config e id) (λ _ m, disk m !! k = d0 !! k).
Proof.
  set (A := λ m : machine, agree_off id d0 (disk m)).
  set (F := λ m : machine, disk m !! k = d0 !! k).
  assert (HAF : ∀ m, A m → F m) by (intros m Hm; by apply Hm).
  unfold handleClipboardGet.
  destruct (getClipboardFile id) as [|[file metafile]] eqn:Hfile;
    [by apply hoare_throw|].
  apply getClipboardFile_inr in Hfile as (_ & -> & ->).
  eapply (hoare_bind F A _ (λ _, A)); [by apply hoare_gets|].
  assert (Hwrite : ∀ p, hoare F F (w_Write e p) (λ _, F)).
  { intros p. apply hoare_writes_only; [apply writes_only_w_Write| |done].
    intros m1 m2 (_ & _ & _ & Hd). unfold F. by rewrite Hd. }
  intros [[content t|[body|] t]|].
  - eapply (hoare_bind F A _ (λ _, F)).
    + apply hoare_modify. intros m. apply HAF.
    + intros []. destruct content; [by apply hoare_ret|apply Hwrite].
  - eapply (hoare_bind F A _ (λ _, A)); [apply hoare_modify, agree_off_insert|].
    intros []. eapply (hoare_bind F A _ (λ _, A)); [by apply hoare_gets|].
    intros sl. destruct (io_Copy _ _ _ _ _ _) as [[piped sl'] err].
    eapply (hoare_bind F A _ (λ _, F)).
    { intros m o m' Hm. unfold resume_writer.
      destruct (put_copy _ _ _ _ _ _ _ _ _ _ m) as [o1 m1] eqn:Hcopy.
      pose proof (put_copy_off true body 0 0 "text" (Some _) m o1 m1 Hm Hcopy)
        as Hk1.
      destruct o1; intros [= <- <-]; exact Hk1. }
    intros res. eapply (hoare_bind F F _ (λ _, F)).
    { destruct piped; [by apply hoare_ret|apply Hwrite]. }
    intros []. apply hoare_modify. intros m Hm. unfold F. simpl.
    by rewrite lookup_delete_ne.
  - intros m o m' Hm [= <- <-]. by apply HAF.
  - intros m o m' Hm [= <- <-]. by apply HAF.
Qed.

End OtherEntries.

(** X28.  A request for one identifier leaves the other entries alone.  An
    entry that is neither the identifier's nor its metadata side-file,
    and that at the time of the request's deferred sweep has not expired
    and is not the metadata of an expired entry, is after an upload to the
    identifier, whatever its outcome, and after a read of it what it was
    before. *)
Theorem request_leaves_other_entries `{Services} config e id m k :
  is_meta id = false → k ≠ id → k ≠ id +:+ ":meta" →
  expired_entry config (now_done e) (disk m) k = false →
  (∀ b, k = b +:+ ":meta" →
        expired_entry config (now_done e) (disk m) b = false) →
  (∀ r, disk (handleClipboardPut config e r id m).2 !! k = disk m !! k)
  ∧ disk (handleClipboardGet config e id m).2 !! k = disk m !! k.
Proof.
  intros Hid Hk Hk_meta Hexp Hexp_meta. split; [intros r|].
  - pose proof (handleClipboardPut_off config e id (disk m) Hid k Hk Hk_meta
                  Hexp Hexp_meta r m) as Hput.
    destruct (handleClipboardPut config e r id m) as [o m'].
    specialize (Hput o m' (agree_off_refl id (disk m)) eq_refl).
    by destruct o.
  - pose proof (handleClipboardGet_off config e id (disk m) Hid k Hk Hk_meta
                  Hexp Hexp_meta m) as Hget.
    destruct (handleClipboardGet config e id m) as [o m'].
    specialize (Hget o m' (agree_off_refl id (disk m)) eq_refl).
    by destruct o.
Qed.

Lemma request_leaves_other_entries_witness :
  (∀ r, disk (handleClipboardPut example_config example_env r "abc124"
                (newServer example_config example_disk_one)).2 !! "abc123"
        = disk (newServer example_config example_disk_one) !! "abc123")
  ∧ disk (handleClipboardGet example_config example_env "abc124"
            (newServer example_config example_disk_one)).2 !! "abc123"
    = disk (newServer example_config example_disk_one) !! "abc123".
Proof.
  apply request_leaves_other_entries; try done.
  intros b Hb.
  assert (is_meta "abc123" = true) by (rewrite Hb; apply is_meta_app).
  done.
Defined.
